(** * Quartermaster: the arrival engine and the statistics engine

    A shallow embedding of [src/framework.ts]: the [Simulation] class
    ([run], [sendEvents], [createEventBatch], [createEvent],
    [getArrivalRate]) and the reporting functions ([createEventSummary],
    [eventCompare]).

    JavaScript numbers are IEEE 754 binary64 values: they are embedded as
    Rocq's primitive [float], whose operations are the same binary64
    operations.  The built-ins the source calls on them ([Math.floor],
    [%], [toFixed], [parseFloat]) are written out below on the exact
    value [m * 2^e] that [Prim2SF] exposes. *)

From Stdlib Require Import ZArith List String Ascii Bool Lia.
From Stdlib Require Import Floats Uint63 DecimalString DecimalN.
From Stdlib Require Import Permutation.
Import ListNotations.

Local Open Scope Z_scope.

(** ** JavaScript numbers *)

Module JS.

Definition number := float.

(** Integer-valued numbers.  [numEventsToSend] is a count: an integer,
    of magnitude below 2^53.  The counters of the arrival loop
    ([eventsSent], [eventsToSendThisTick]) then only ever hold the result
    of [Math.floor], and sums and differences of such values: an integer,
    an infinity or NaN.  Binary64 represents every integer of magnitude
    below 2^53 exactly, and rounding a larger sum cannot change how it
    compares with the count, so on these counters the arithmetic is the
    arithmetic of [Z], extended with the three special values. *)
Inductive intnum : Type :=
| Fin (z : Z)
| PInf
| NInf
| INaN.

Definition iadd (a b : intnum) : intnum :=
  match a, b with
  | INaN, _ | _, INaN => INaN
  | PInf, NInf | NInf, PInf => INaN
  | PInf, _ | _, PInf => PInf
  | NInf, _ | _, NInf => NInf
  | Fin x, Fin y => Fin (x + y)
  end.

Definition isub (a b : intnum) : intnum :=
  match a, b with
  | INaN, _ | _, INaN => INaN
  | PInf, PInf | NInf, NInf => INaN
  | PInf, _ | _, NInf => PInf
  | NInf, _ | _, PInf => NInf
  | Fin x, Fin y => Fin (x - y)
  end.

(** [a < b]; every comparison with NaN is false. *)
Definition iltb (a b : intnum) : bool :=
  match a, b with
  | INaN, _ | _, INaN => false
  | _, NInf => false
  | NInf, _ => true
  | PInf, _ => false
  | _, PInf => true
  | Fin x, Fin y => x <? y
  end.

Definition igtb (a b : intnum) : bool := iltb b a.

(** [a >= b]. *)
Definition igeb (a b : intnum) : bool :=
  match a, b with
  | INaN, _ | _, INaN => false
  | _, NInf => true
  | NInf, _ => false
  | PInf, _ => true
  | _, PInf => false
  | Fin x, Fin y => y <=? x
  end.

(** [Math.floor]: the largest integer not above [x].  [Z.shiftl] by a
    negative amount is the floor division by the power of two. *)
Definition floor (x : number) : intnum :=
  match Prim2SF x with
  | S754_nan => INaN
  | S754_infinity s => if s then NInf else PInf
  | S754_zero _ => Fin 0
  | S754_finite s m e => Fin (Z.shiftl (if s then Zneg m else Zpos m) e)
  end.

(** The global [isFinite]. *)
Definition isFinite (x : number) : bool :=
  match Prim2SF x with
  | S754_zero _ | S754_finite _ _ _ => true
  | S754_infinity _ | S754_nan => false
  end.

(** A number that is a zero, positive or +Infinity: what a clock that
    starts at 0 and only moves forward can read. *)
Definition nonneg (x : number) : bool :=
  match Prim2SF x with
  | S754_zero _ | S754_finite false _ _ | S754_infinity false => true
  | _ => false
  end.

Definition signed_zero (s : bool) : number :=
  if s then neg_zero else zero.

(** [x % 1]: NaN for NaN and the infinities; otherwise the fractional
    part of [x] with the sign of [x] (a signed zero when [x] is an
    integer).  The fractional part [(m mod 2^-e) * 2^e] has fewer bits
    than [m], so no rounding takes place. *)
Definition rem1 (x : number) : number :=
  match Prim2SF x with
  | S754_nan | S754_infinity _ => nan
  | S754_zero s => signed_zero s
  | S754_finite s m e =>
      if 0 <=? e then signed_zero s
      else
        let r := Zpos m mod 2 ^ (- e) in
        SF2Prim (binary_normalize prec emax (if s then - r else r) e s)
  end.

(** A finite value with no fractional part. *)
Definition integral (x : number) : bool :=
  match Prim2SF x with
  | S754_zero _ => true
  | S754_finite _ m e => (0 <=? e) || (Zpos m mod 2 ^ (- e) =? 0)
  | S754_infinity _ | S754_nan => false
  end.

(** The number for an array length. *)
Definition of_nat (n : nat) : number :=
  SF2Prim (binary_normalize prec emax (Z.of_nat n) 0 false).

(** The value of an optional number in arithmetic: [undefined] converts
    to NaN. *)
Definition num_or_nan (o : option number) : number :=
  match o with
  | Some x => x
  | None => nan
  end.

(** *** Decimal text *)

Definition digits_of (n : Z) : string :=
  NilZero.string_of_uint (N.to_uint (Z.to_N n)).

Fixpoint zeros (k : nat) : string :=
  match k with
  | O => EmptyString
  | S k' => String "0" (zeros k')
  end.

(** The integer nearest to [m * 2^e * 10^f]; of two equally near ones,
    the larger. *)
Definition scaled_round (m : positive) (e : Z) (f : nat) : Z :=
  let a := Zpos m * 10 ^ Z.of_nat f in
  if 0 <=? e then a * 2 ^ e
  else (2 * a + 2 ^ (- e)) / 2 ^ (- e + 1).

(** The digits of [n] with a point before the last [f] of them, padded
    with zeros on the left up to [f + 1] digits. *)
Definition fixed_text (n : Z) (f : nat) : string :=
  let m := digits_of n in
  match f with
  | O => m
  | S _ =>
      let m := (zeros (S f - String.length m) ++ m)%string in
      let k := String.length m in
      (substring 0 (k - f) m ++ "." ++ substring (k - f) f m)%string
  end.

Definition SFeq_dec (a b : spec_float) : bool :=
  match a, b with
  | S754_zero s, S754_zero t | S754_infinity s, S754_infinity t => Bool.eqb s t
  | S754_nan, S754_nan => true
  | S754_finite s m e, S754_finite t n f =>
      Bool.eqb s t && Pos.eqb m n && Z.eqb e f
  | _, _ => false
  end.

Fixpoint strip_zeros_rev (l : list ascii) : list ascii :=
  match l with
  | "0"%char :: l' => strip_zeros_rev l'
  | _ => l
  end.

(** The significant digits of [c]: its decimal text without the trailing
    zeros. *)
Definition significant (c : Z) : string :=
  string_of_list_ascii
    (rev (strip_zeros_rev (rev (list_ascii_of_string (digits_of c))))).

(** [Number::toString] for a positive integer value [v] that is the
    exact value of the number [x] and is at least 10^21: the shortest
    digit string [s] with an exponent such that [s * 10^(n-k)] rounds to
    [x], in exponent notation.  At most 17 digits are ever needed. *)
Fixpoint shortest_from (fuel k : nat) (v : Z) (x : spec_float) : Z :=
  match fuel with
  | O => v
  | S fuel' =>
      let n := String.length (digits_of v) in
      let unit := 10 ^ Z.of_nat (n - k) in
      let lo := (v / unit) * unit in
      let hi := lo + unit in
      let ok c := SFeq_dec (binary_normalize prec emax c 0 false) x in
      match ok lo, ok hi with
      | true, true =>
          if (v - lo <? hi - v) then lo
          else if (hi - v <? v - lo) then hi
          else if Z.even (lo / unit) then lo else hi
      | true, false => lo
      | false, true => hi
      | false, false => shortest_from fuel' (S k) v x
      end
  end.

Definition exponent_text (v : Z) (x : spec_float) : string :=
  let c := shortest_from 17 1 v x in
  let s := significant c in
  let n := String.length (digits_of c) in
  let e := digits_of (Z.of_nat (n - 1)) in
  match s with
  | String d EmptyString => (String d EmptyString ++ "e+" ++ e)%string
  | String d rest => (String d EmptyString ++ "." ++ rest ++ "e+" ++ e)%string
  | EmptyString => EmptyString
  end.

(** [x.toFixed(f)]: "NaN" and the infinities by name; a value of
    magnitude 10^21 or more in exponent notation; otherwise the nearest
    decimal with exactly [f] fraction digits, a minus sign first when
    [x < 0]. *)
Definition toFixed (x : number) (f : nat) : string :=
  match Prim2SF x with
  | S754_nan => "NaN"
  | S754_infinity s => if s then "-Infinity" else "Infinity"
  | S754_zero _ => fixed_text 0 f
  | S754_finite s m e =>
      let sign := if s then "-"%string else EmptyString in
      let v := Z.shiftl (Zpos m) e in
      if (0 <=? e) && (10 ^ 21 <=? v)
      then (sign ++ exponent_text v (S754_finite false m e))%string
      else (sign ++ fixed_text (scaled_round m e f) f)%string
  end.

(** *** Reading decimal text *)

Definition is_digit (c : ascii) : bool :=
  let n := nat_of_ascii c in (48 <=? n)%nat && (n <=? 57)%nat.

Definition is_space (c : ascii) : bool :=
  let n := nat_of_ascii c in ((9 <=? n)%nat && (n <=? 13)%nat) || (n =? 32)%nat.

Fixpoint skip_spaces (s : string) : string :=
  match s with
  | String c s' => if is_space c then skip_spaces s' else s
  | EmptyString => s
  end.

(** Reads the digits at the head of [s] onto the value [acc]; also the
    number of digits read and the text left. *)
Fixpoint read_digits (s : string) (acc : Z) (cnt : nat) : Z * nat * string :=
  match s with
  | String c s' =>
      if is_digit c
      then read_digits s' (10 * acc + Z.of_nat (nat_of_ascii c - 48)) (S cnt)
      else (acc, cnt, s)
  | EmptyString => (acc, cnt, s)
  end.

Definition read_sign (s : string) : bool * string :=
  match s with
  | String "-" s' => (true, s')
  | String "+" s' => (false, s')
  | _ => (false, s)
  end.

(** The exponent part [e], [e+] or [e-] followed by digits, if [s]
    starts with one. *)
Definition read_exponent (s : string) : Z * string :=
  match s with
  | String c s' =>
      if (Ascii.eqb c "e" || Ascii.eqb c "E")%bool then
        let '(neg, s'') := read_sign s' in
        let '(v, cnt, rest) := read_digits s'' 0 0 in
        match cnt with
        | O => (0, s)
        | S _ => (if neg then - v else v, rest)
        end
      else (0, s)
  | EmptyString => (0, s)
  end.

(** The longest decimal literal at the head of [s], as a mantissa [m]
    and a decimal exponent [e] (the value is [m * 10^e]), with the text
    after it. *)
Definition read_decimal (s : string) : option (Z * Z * string) :=
  let '(ip, ni, r1) := read_digits s 0 0 in
  let '(m, nf, r2) :=
    match r1 with
    | String "." r => read_digits r ip 0
    | _ => (ip, O, r1)
    end in
  match ni, nf with
  | O, O => None
  | _, _ =>
      let '(ex, r3) := read_exponent r2 in
      Some (m, ex - Z.of_nat nf, r3)
  end.

(** The number nearest to [m * 10^e] (ties to even), negated when
    [neg]. *)
Definition of_decimal (neg : bool) (m e : Z) : number :=
  match m with
  | Zpos p =>
      if 0 <=? e
      then SF2Prim (binary_normalize prec emax
                      (if neg then - (m * 10 ^ e) else m * 10 ^ e) 0 false)
      else SF2Prim (SFdiv prec emax (S754_finite neg p 0)
                      (S754_finite false (Z.to_pos (10 ^ (- e))) 0))
  | _ => signed_zero neg
  end.

Definition infinity_of (neg : bool) : number :=
  if neg then neg_infinity else infinity.

(** [parseFloat] on text: leading white space is skipped, the longest
    prefix that is a decimal literal is converted, and NaN is returned
    when there is none. *)
Definition parseFloat (s : string) : number :=
  let '(neg, r) := read_sign (skip_spaces s) in
  if String.prefix "Infinity" r then infinity_of neg
  else
    match read_decimal r with
    | Some (m, e, _) => of_decimal neg m e
    | None => nan
    end.

(** [parseFloat] on a number: the argument is first converted to text.
    [Number::toString] produces text that reads back as the same number
    (and "0" for both zeros). *)
Definition parseFloat_number (x : number) : number :=
  match Prim2SF x with
  | S754_zero _ => zero
  | _ => x
  end.

(** [ToNumber] on text: the whole text, white space apart, must be a
    decimal literal; the empty text is 0.  (The hexadecimal, octal and
    binary forms are not needed here and read as NaN.) *)
Definition StringToNumber (s : string) : number :=
  match skip_spaces s with
  | EmptyString => zero
  | t =>
      let '(neg, r) := read_sign t in
      if String.prefix "Infinity" r then
        match skip_spaces (substring 8 (String.length r - 8) r) with
        | EmptyString => infinity_of neg
        | _ => nan
        end
      else
        match read_decimal r with
        | Some (m, e, rest) =>
            match skip_spaces rest with
            | EmptyString => of_decimal neg m e
            | _ => nan
            end
        | None => nan
        end
  end.

(** *** Values *)

(** The primitive values, and objects abstracted to what [ToPrimitive]
    makes of them (an array [["fail"]] and [new String("fail")] both give
    the text "fail"). *)
Inductive prim : Type :=
| PUndefined
| PNull
| PBool (b : bool)
| PNumber (x : number)
| PString (s : string).

Inductive value : Type :=
| Prim (p : prim)
| Object (toPrimitive : prim).

(** [p == s] for a primitive [p] and a text [s]: texts are compared as
    texts, a number with the number the text reads as, a boolean through
    its number, and [undefined] and [null] equal no text. *)
Definition prim_loose_eq_string (p : prim) (s : string) : bool :=
  match p with
  | PString t => String.eqb t s
  | PNumber x => (x =? StringToNumber s)%float
  | PBool b => ((if b then one else zero) =? StringToNumber s)%float
  | PUndefined | PNull => false
  end.

(** [v == s]: an object is converted to a primitive first. *)
Definition loose_eq_string (v : value) (s : string) : bool :=
  match v with
  | Prim p => prim_loose_eq_string p s
  | Object p => prim_loose_eq_string p s
  end.

End JS.

Import JS.

(** ** Promises

    A promise is described by what becomes of it: it stays pending for
    ever, or it settles, at some reading of the virtual clock, by being
    fulfilled with a value or rejected with a reason. *)

Module Promise.

Inductive settlement (A : Type) : Type :=
| Fulfilled (a : A)
| Rejected (reason : value).

Inductive promise (A : Type) : Type :=
| Pending
| Settled (at_time : number) (s : settlement A).

Arguments Fulfilled {A} a.
Arguments Rejected {A} reason.
Arguments Pending {A}.
Arguments Settled {A} at_time s.

(** [p.then(f)]: [f] runs when [p] is fulfilled, and its result fulfils
    the new promise; a rejection passes through.  The callback is given
    the reading of the clock at the moment it runs. *)
Definition then_ {A B : Type} (p : promise A) (f : number -> A -> B)
  : promise B :=
  match p with
  | Pending => Pending
  | Settled t (Fulfilled a) => Settled t (Fulfilled (f t a))
  | Settled t (Rejected r) => Settled t (Rejected r)
  end.

(** [p.catch(g)]: [g] runs when [p] is rejected, and its result fulfils
    the new promise; a fulfilment passes through. *)
Definition catch_ {A : Type} (p : promise A) (g : number -> value -> A)
  : promise A :=
  match p with
  | Pending => Pending
  | Settled t (Fulfilled a) => Settled t (Fulfilled a)
  | Settled t (Rejected r) => Settled t (Fulfilled (g t r))
  end.

Definition later (t u : number) : number :=
  if (t <? u)%float then u else t.

(** One promise joined to the join of the ones after it. *)
Definition join {A : Type} (p : promise A) (q : promise (list A))
  : promise (list A) :=
  match p, q with
  | Settled t (Rejected r), Settled u (Rejected r') =>
      if (u <? t)%float then Settled u (Rejected r') else Settled t (Rejected r)
  | Settled t (Rejected r), _ => Settled t (Rejected r)
  | _, Settled u (Rejected r') => Settled u (Rejected r')
  | Pending, _ | _, Pending => Pending
  | Settled t (Fulfilled a), Settled u (Fulfilled l) =>
      Settled (later t u) (Fulfilled (a :: l))
  end.

(** [Promise.all(ps)], called when the clock reads [now]: fulfilled with
    all the values, in order, once every promise is fulfilled; rejected
    with the reason of the first promise to be rejected. *)
Fixpoint all {A : Type} (now : number) (ps : list (promise A))
  : promise (list A) :=
  match ps with
  | [] => Settled now (Fulfilled [])
  | p :: ps' => join p (all now ps')
  end.

End Promise.

Import Promise.

(** ** Events *)

(** Modelled from the spec: the [Event] class, imported from "." and
    absent from src/.  An event carries an identity, a mutable record
    [responseTime] of two clock readings and a [response]; [endTime] and
    [response] are undefined until the stage call settles. *)
Record ResponseTime : Type := {
  startTime : option number;
  endTime : option number
}.

Record Event : Type := {
  key : string;
  responseTime : ResponseTime;
  response : option value
}.

Definition new_Event (k : string) : Event :=
  {| key := k;
     responseTime := {| startTime := None; endTime := None |};
     response := None |}.

Definition set_startTime (e : Event) (t : number) : Event :=
  {| key := key e;
     responseTime := {| startTime := Some t;
                        endTime := endTime (responseTime e) |};
     response := response e |}.

Definition set_endTime (e : Event) (t : number) : Event :=
  {| key := key e;
     responseTime := {| startTime := startTime (responseTime e);
                        endTime := Some t |};
     response := response e |}.

Definition set_response (e : Event) (r : value) : Event :=
  {| key := key e;
     responseTime := responseTime e;
     response := Some r |}.

(** The latency [e.responseTime.endTime - e.responseTime.startTime]. *)
Definition latency (e : Event) : number :=
  (num_or_nan (endTime (responseTime e))
   - num_or_nan (startTime (responseTime e)))%float.

(** ** The virtual clock *)

Module Metronome.

(** Modelled from the spec: the metronome, imported from "." and absent
    from src/.  [start] resets the virtual time to 0; [now] reads it;
    [wait n] resumes the caller once the virtual time has advanced by [n]
    ticks, and at once when [n] is not positive.  Of a wait whose
    duration is infinite or NaN the spec says nothing. *)
Definition start : number := zero.

(** Modelled from the spec: [metronome.wait(ticks)] called when the clock
    reads [now]; the reading at which the caller resumes, where the spec
    gives one. *)
Definition wait (ticks now : number) : option number :=
  if (ticks <=? 0)%float then Some now
  else if isFinite ticks then Some (now + ticks)%float
  else None.

End Metronome.

(** ** The arrival engine: class [Simulation] *)

(** Modelled from the spec: the [Stage] interface, imported from "." and
    absent from src/.  [accept(event)] returns a promise of a response.
    Whatever the stage does inside, towards the engine its [n]-th call
    (counting from 0) is the promise it returns for it. *)
Record Stage : Type := {
  accept : nat -> Event -> promise value
}.

Record Simulation : Type := {
  eventsPer1000Ticks : number;
  keyspaceMean : number;
  keyspaceStd : number;
  _arrivalRate : number
}.

(** The field initialisers of the class; [simulation] is the exported
    instance. *)
Definition simulation : Simulation :=
  {| eventsPer1000Ticks := 50%float;
     keyspaceMean := 1000%float;
     keyspaceStd := 50%float;
     _arrivalRate := 0%float |}.

Definition set_arrivalRate (s : Simulation) (r : number) : Simulation :=
  {| eventsPer1000Ticks := eventsPer1000Ticks s;
     keyspaceMean := keyspaceMean s;
     keyspaceStd := keyspaceStd s;
     _arrivalRate := r |}.

Definition set_eventsPer1000Ticks (s : Simulation) (r : number) : Simulation :=
  {| eventsPer1000Ticks := r;
     keyspaceMean := keyspaceMean s;
     keyspaceStd := keyspaceStd s;
     _arrivalRate := _arrivalRate s |}.

Definition getArrivalRate (s : Simulation) : number := _arrivalRate s.

(** What the engine shares with the rest of the program while it runs:
    the simulation object, the reading of the metronome, and how many
    events it has submitted so far. *)
Record world : Type := {
  this : Simulation;
  now : number;
  submitted : nat
}.

(** The two locals of [sendEvents]. *)
Record locals : Type := {
  events : list (promise Event);
  eventsSent : intnum
}.

(** The locals on entry: [events = []], [eventsSent = 0]. *)
Definition start_locals : locals := {| events := []; eventsSent := Fin 0 |}.

(** One pass through the body of [while (true)]: it reaches [break], it
    reaches [await metronome.wait(ticks)], or it never leaves the [for]
    loop of [createEventBatch]. *)
Inductive step : Type :=
| Break (l : locals) (w : world)
| Await (ticks : number) (l : locals) (w : world)
| Spinning.

(** How a call ends: it returns, it throws (its promise is rejected), it
    waits for ever on a promise that never settles, it has called
    [metronome.wait] with a duration for which the spec gives no wake
    time, it loops for ever without suspending, or the fuel given to the
    model ran out. *)
Inductive outcome (A : Type) : Type :=
| Returns (a : A) (w : world)
| Throws (reason : value) (w : world)
| Hangs (w : world)
| Unspecified (w : world)
| Spins
| OutOfFuel.

Arguments Returns {A} a w.
Arguments Throws {A} reason w.
Arguments Hangs {A} w.
Arguments Unspecified {A} w.
Arguments Spins {A}.
Arguments OutOfFuel {A}.

Definition intnum_text (i : intnum) : string :=
  match i with
  | Fin z => if z <? 0 then ("-" ++ digits_of (- z))%string else digits_of z
  | PInf => "Infinity"
  | NInf => "-Infinity"
  | INaN => "NaN"
  end.

Section Engine.

(** The stage the events are sent to, and the draws of [Math.random()],
    one per event. *)
Variable stage : Stage.
Variable random : nat -> number.

(** The callback of both [then] and [catch]: record the value, stamp the
    end time, hand the event on. *)
Definition settle (event : Event) (t : number) (r : value) : Event :=
  set_endTime (set_response event r) t.

Definition createEvent (w : world) : promise Event * world :=
  let event :=
    new_Event ("e-" ++ intnum_text (floor (random (submitted w) * 500)%float)) in
  let event := set_startTime event (now w) in
  (catch_
     (then_ (accept stage (submitted w) event)
            (fun t response => settle event t response))
     (fun t error => settle event t error),
   {| this := this w; now := now w; submitted := S (submitted w) |}).

(** The [for] loop of [createEventBatch], for a bound that is a natural
    number. *)
Fixpoint createEvents (n : nat) (w : world) : list (promise Event) * world :=
  match n with
  | O => ([], w)
  | S n' =>
      let '(p, w1) := createEvent w in
      let '(ps, w2) := createEvents n' w1 in
      (p :: ps, w2)
  end.

(** [createEventBatch(stage, num)]: [i < num] fails at once for a bound
    that is not positive or is NaN, and never fails for +Infinity. *)
Definition createEventBatch (num : intnum) (w : world)
  : option (list (promise Event) * world) :=
  match num with
  | Fin z => Some (createEvents (Z.to_nat z) w)
  | NInf | INaN => Some ([], w)
  | PInf => None
  end.

Definition set_now (w : world) (t : number) : world :=
  {| this := this w; now := t; submitted := submitted w |}.

Definition iteration (numEventsToSend : Z) (l : locals) (w : world) : step :=
  let rate := eventsPer1000Ticks (this w) in
  let tickDelta := (1000 / rate)%float in
  let w := {| this := set_arrivalRate (this w) rate;
              now := now w; submitted := submitted w |} in
  if (tickDelta <? 1)%float then
    let eventsToSendThisTick := floor (1 / tickDelta)%float in
    let eventsToSendThisTick :=
      if igtb (iadd (eventsSent l) eventsToSendThisTick) (Fin numEventsToSend)
      then isub (Fin numEventsToSend) (eventsSent l)
      else eventsToSendThisTick in
    match createEventBatch eventsToSendThisTick w with
    | None => Spinning
    | Some (batch, w) =>
        let l := {| events := events l ++ batch;
                    eventsSent := iadd (eventsSent l) eventsToSendThisTick |} in
        if igeb (eventsSent l) (Fin numEventsToSend) then Break l w
        else Await 1%float l w
    end
  else
    let '(p, w) := createEvent w in
    let l := {| events := events l ++ [p];
                eventsSent := iadd (eventsSent l) (Fin 1) |} in
    if igeb (eventsSent l) (Fin numEventsToSend) then Break l w
    else Await tickDelta l w.

(** The loop, for at most [fuel] passes. *)
Fixpoint loop (fuel : nat) (numEventsToSend : Z) (l : locals) (w : world)
  : outcome (list (promise Event)) :=
  match fuel with
  | O => OutOfFuel
  | S fuel' =>
      match iteration numEventsToSend l w with
      | Break l' w' =>
          Returns (events l')
                  {| this := set_arrivalRate (this w') 0%float;
                     now := now w'; submitted := submitted w' |}
      | Await ticks l' w' =>
          match Metronome.wait ticks (now w') with
          | Some t => loop fuel' numEventsToSend l' (set_now w' t)
          | None => Unspecified w'
          end
      | Spinning => Spins
      end
  end.

Definition sendEvents (fuel : nat) (numEventsToSend : Z) (w : world)
  : outcome (list (promise Event)) :=
  loop fuel numEventsToSend start_locals w.

(** [run(stage, numEventsToSend)]: start the metronome, send the events,
    join their promises, return the events.  ([delta] is not used by the
    source either.) *)
Definition run (fuel : nat) (sim : Simulation) (numEventsToSend : Z)
  : outcome (list Event) :=
  let delta := (1 / eventsPer1000Ticks sim)%float in
  let w := {| this := sim; now := Metronome.start; submitted := 0 |} in
  match sendEvents fuel numEventsToSend w with
  | Returns pendingEvents w' =>
      match Promise.all (now w') pendingEvents with
      | Settled t (Fulfilled evs) => Returns evs (set_now w' t)
      | Settled t (Rejected r) => Throws r (set_now w' t)
      | Pending => Hangs w'
      end
  | Throws r w' => Throws r w'
  | Hangs w' => Hangs w'
  | Unspecified w' => Unspecified w'
  | Spins => Spins
  | OutOfFuel => OutOfFuel
  end.

(** *** What can be observed of the loop *)

(** The worlds in which the loop is suspended in [metronome.wait], the
    moments at which other code runs and may call [getArrivalRate]. *)
Fixpoint suspensions (fuel : nat) (numEventsToSend : Z) (l : locals) (w : world)
  : list world :=
  match fuel with
  | O => []
  | S fuel' =>
      match iteration numEventsToSend l w with
      | Await ticks l' w' =>
          w' :: match Metronome.wait ticks (now w') with
                | Some t => suspensions fuel' numEventsToSend l' (set_now w' t)
                | None => []
                end
      | _ => []
      end
  end.

(** The number of events each pass (each tick, in the batching branch)
    has submitted. *)
Fixpoint emitted (fuel : nat) (numEventsToSend : Z) (l : locals) (w : world)
  : list nat :=
  match fuel with
  | O => []
  | S fuel' =>
      match iteration numEventsToSend l w with
      | Break l' w' => [(submitted w' - submitted w)%nat]
      | Await ticks l' w' =>
          (submitted w' - submitted w)%nat
            :: match Metronome.wait ticks (now w') with
               | Some t => emitted fuel' numEventsToSend l' (set_now w' t)
               | None => []
               end
      | Spinning => []
      end
  end.

(** The worlds in which the stage is called.  [createEvent] calls
    [stage.accept] before it returns, while the pass that creates the
    event is running: what the stage can read of the simulation then
    ([getArrivalRate], for one) is what the world holds when
    [createEvent] is entered.  First the calls of the [for] loop of
    [createEventBatch], then those of one pass, with the rate assigned
    before the first of them as in [iteration], then those of the loop.
    (The calls of a [for] loop that never ends are not listed.) *)
Fixpoint createEvents_calls (n : nat) (w : world) : list world :=
  match n with
  | O => []
  | S n' => w :: createEvents_calls n' (snd (createEvent w))
  end.

Definition iteration_calls (numEventsToSend : Z) (l : locals) (w : world)
  : list world :=
  let rate := eventsPer1000Ticks (this w) in
  let tickDelta := (1000 / rate)%float in
  let w := {| this := set_arrivalRate (this w) rate;
              now := now w; submitted := submitted w |} in
  if (tickDelta <? 1)%float then
    let eventsToSendThisTick := floor (1 / tickDelta)%float in
    let eventsToSendThisTick :=
      if igtb (iadd (eventsSent l) eventsToSendThisTick) (Fin numEventsToSend)
      then isub (Fin numEventsToSend) (eventsSent l)
      else eventsToSendThisTick in
    match eventsToSendThisTick with
    | Fin z => createEvents_calls (Z.to_nat z) w
    | _ => []
    end
  else [w].

Fixpoint calls (fuel : nat) (numEventsToSend : Z) (l : locals) (w : world)
  : list world :=
  match fuel with
  | O => []
  | S fuel' =>
      iteration_calls numEventsToSend l w
        ++ match iteration numEventsToSend l w with
           | Await ticks l' w' =>
               match Metronome.wait ticks (now w') with
               | Some t => calls fuel' numEventsToSend l' (set_now w' t)
               | None => []
               end
           | _ => []
           end
  end.

End Engine.

(** ** The statistics engine *)

(** A cell of a summary row holds a number or a text. *)
Inductive cell : Type :=
| CNum (x : number)
| CStr (s : string).

(** A row is an object used as a record: its properties in insertion
    order. *)
Definition row : Type := list (string * cell).

Fixpoint set_prop (name : string) (c : cell) (r : row) : row :=
  match r with
  | [] => [(name, c)]
  | (n, c') :: r' =>
      if String.eqb n name then (n, c) :: r' else (n, c') :: set_prop name c r'
  end.

Fixpoint get_prop (name : string) (r : row) : option cell :=
  match r with
  | [] => None
  | (n, c) :: r' => if String.eqb n name then Some c else get_prop name r'
  end.

(** [ToNumber] of a property, as the operator [-] applies it. *)
Definition cell_number (c : option cell) : number :=
  match c with
  | Some (CNum x) => x
  | Some (CStr s) => StringToNumber s
  | None => nan
  end.

(** [parseFloat] of a property. *)
Definition cell_parseFloat (c : option cell) : number :=
  match c with
  | Some (CNum x) => parseFloat_number x
  | Some (CStr s) => parseFloat s
  | None => nan
  end.

(** [result % 1 == 0 ? result : result.toFixed(precision)]. *)
Definition report (result : number) (precision : nat) : cell :=
  if (rem1 result =? 0)%float then CNum result
  else CStr (toFixed result precision).

(** [e.response == "fail"]; an absent response is [undefined]. *)
Definition is_fail (e : Event) : bool :=
  match response e with
  | Some v => loose_eq_string v "fail"
  | None => false
  end.

(** [xs.reduce((sum, cur) => sum + cur, 0)]. *)
Definition sum (xs : list number) : number :=
  fold_left (fun sum cur => (sum + cur)%float) xs 0%float.

(** Modelled from the spec: [standardDeviation], imported from "." and
    absent from src/: the population standard deviation (divide by N, not
    N - 1) of the samples.  The summary takes the function as a
    parameter; this one stands for it where a concrete run is
    evaluated. *)
Definition populationStandardDeviation (xs : list number) : number :=
  let n := of_nat (List.length xs) in
  let mean := (sum xs / n)%float in
  PrimFloat.sqrt (sum (map (fun x => ((x - mean) * (x - mean))%float) xs) / n)%float.

Definition EventSummaryColumnFunction : Type := list Event -> number.

Definition names : list string :=
  ["count"; "percent"; "mean_latency"; "std_latency"]%string.

Definition precision : nat := 3.

Section Statistics.

Variable standardDeviation : list number -> number.

(** The four metric functions of [createEventSummary]; [percent] closes
    over the whole collection [events]. *)
Definition count (e : list Event) : number := of_nat (List.length e).

Definition percent (events e : list Event) : number :=
  if (0 <? List.length events)%nat
  then (of_nat (List.length e) / of_nat (List.length events))%float
  else 0%float.

Definition mean_latency (e : list Event) : number :=
  (sum (map latency e) / of_nat (List.length e))%float.

Definition std_latency (e : list Event) : number :=
  standardDeviation (map latency e).

(** [columns.forEach((col, i) => ...)], from index [i] on, on the pair
    of rows. *)
Fixpoint fill_rows (columns : list EventSummaryColumnFunction) (i : nat)
    (success fail : list Event) (rows : row * row) : row * row :=
  match columns with
  | [] => rows
  | col :: columns' =>
      let propName :=
        match nth_error names i with
        | Some n => n
        | None => ("Column " ++ digits_of (Z.of_nat i))%string
        end in
      let successResult := col success in
      let failResult := col fail in
      fill_rows columns' (S i) success fail
        (set_prop propName (report successResult precision) (fst rows),
         set_prop propName (report failResult precision) (snd rows))
  end.

(** The two buckets: [forEach] pushes every event onto [fail] or
    [success], keeping the order. *)
Definition fail_bucket (events : list Event) : list Event :=
  filter is_fail events.

Definition success_bucket (events : list Event) : list Event :=
  filter (fun e => negb (is_fail e)) events.

Definition createEventSummary (events : list Event)
    (additionalColumns : option (list EventSummaryColumnFunction))
  : list row :=
  let success := success_bucket events in
  let fail := fail_bucket events in
  let others :=
    match additionalColumns with
    | Some cs => cs
    | None => []
    end in
  let columns :=
    [count; percent events; mean_latency; std_latency] ++ others in
  let successRow := [("type"%string, CStr "success")] in
  let failRow := [("type"%string, CStr "fail")] in
  let '(successRow, failRow) :=
    fill_rows columns 0 success fail (successRow, failRow) in
  [successRow; failRow].

(** One row of the diff, from the rows of A and B for one bucket. *)
Definition diff_row (type : string) (aRow bRow : row) : row :=
  let parsed name r := cell_parseFloat (get_prop name r) in
  [("type"%string, CStr type);
   ("count"%string,
     CNum (cell_number (get_prop "count" bRow)
           - cell_number (get_prop "count" aRow))%float);
   ("percent"%string,
     CStr (toFixed (parsed "percent"%string bRow
                    - parsed "percent"%string aRow)%float precision));
   ("mean_latency"%string,
     CStr (toFixed (parsed "mean_latency"%string bRow
                    - parsed "mean_latency"%string aRow)%float precision));
   ("std_latency"%string,
     CStr (toFixed (parsed "std_latency"%string bRow
                    - parsed "std_latency"%string aRow)%float precision))].

(** [eventCompare(a, b)]: the table [diff] that it prints. *)
Definition eventCompare (a b : list Event) : list row :=
  let aSummary := createEventSummary a None in
  let bSummary := createEventSummary b None in
  let aSuccess := nth 0 aSummary [] in
  let bSuccess := nth 0 bSummary [] in
  let aFail := nth 1 aSummary [] in
  let bFail := nth 1 bSummary [] in
  [diff_row "success" aSuccess bSuccess;
   diff_row "fail" aFail bFail].

End Statistics.

(** ** Vocabulary of the statements *)

(** The event [createEvent] submits in the world [w]: a new event with
    its start time stamped. *)
Definition submitted_event (random : nat -> number) (w : world) : Event :=
  set_startTime
    (new_Event ("e-" ++ intnum_text (floor (random (submitted w) * 500)%float)))
    (now w).

(** The two quantities the loop derives from the rate. *)
Definition tickDelta (sim : Simulation) : number :=
  (1000 / eventsPer1000Ticks sim)%float.

Definition batchSize (sim : Simulation) : intnum :=
  floor (1 / tickDelta sim)%float.

(** The world with the configured rate published as the arrival rate. *)
Definition emitting (w : world) : world :=
  {| this := set_arrivalRate (this w) (eventsPer1000Ticks (this w));
     now := now w; submitted := submitted w |}.

(** A stage that fulfils every call at once, with "success". *)
Definition prompt_stage : Stage :=
  {| accept := fun _ e =>
       Settled (num_or_nan (startTime (responseTime e)))
               (Fulfilled (Prim (PString "success"))) |}.

(** A stage that rejects every call at once, with the given reason. *)
Definition failing_stage (reason : value) : Stage :=
  {| accept := fun _ e =>
       Settled (num_or_nan (startTime (responseTime e))) (Rejected reason) |}.

(** [Math.random()] returning one half every time. *)
Definition half (n : nat) : number := 0.5%float.

(** The world [run] starts [sendEvents] in. *)
Definition start_world (sim : Simulation) : world :=
  {| this := sim; now := Metronome.start; submitted := 0 |}.

(** An event whose two stamps are set, the end no earlier than the
    start. *)
Definition well_timed (e : Event) : Prop :=
  exists s t : number,
    startTime (responseTime e) = Some s
    /\ endTime (responseTime e) = Some t
    /\ (s <=? t)%float = true.

(** A promise that is fulfilled with such an event. *)
Definition fulfilled_in_time (p : promise Event) : Prop :=
  exists (t : number) (e : Event), p = Settled t (Fulfilled e) /\ well_timed e.

(** The simulation configured with the rate [r]. *)
Definition at_rate (r : number) : Simulation :=
  set_eventsPer1000Ticks simulation r.

Arguments at_rate r%_float.

(** The average of the samples as the spec words it: their sum, taken
    in order, over their number. *)
Fixpoint running_sum (acc : number) (xs : list number) : number :=
  match xs with
  | [] => acc
  | x :: xs' => running_sum (acc + x)%float xs'
  end.

Definition average (xs : list number) : number :=
  (running_sum 0%float xs / of_nat (List.length xs))%float.

(** The text of a difference [x - x]. *)
Definition zero_or_nan (x : number) : string :=
  if isFinite x then "0.000"%string else "NaN"%string.

(** The row [eventCompare] prints for a row compared with itself. *)
Definition self_diff_row (type : string) (r : row) : row :=
  [("type"%string, CStr type);
   ("count"%string, CNum 0%float);
   ("percent"%string,
     CStr (zero_or_nan (cell_parseFloat (get_prop "percent" r))));
   ("mean_latency"%string,
     CStr (zero_or_nan (cell_parseFloat (get_prop "mean_latency" r))));
   ("std_latency"%string,
     CStr (zero_or_nan (cell_parseFloat (get_prop "std_latency" r))))].

(** An event that has completed with the given stamps and response. *)
Definition completed (s t : number) (r : value) : Event :=
  {| key := "e-250";
     responseTime := {| startTime := Some s; endTime := Some t |};
     response := Some r |}.

Arguments completed (s t)%_float r.

(** Fifteen successes and one failure, each of latency 1. *)
Definition fifteen_of_sixteen : list Event :=
  repeat (completed 0 1 (Prim (PString "success"))) 15
    ++ [completed 0 1 (Prim (PString "fail"))].

(** One success of latency 150. *)
Definition one_success : list Event :=
  [completed 0 150 (Prim (PString "success"))].

(** Two successes, of latency 1 and 2. *)
Definition one_and_two : list Event :=
  [completed 0 1 (Prim (PString "success"));
   completed 1 3 (Prim (PString "success"))].

(** One success of latency 2^-12, and one of three times that
    latency. *)
Definition brief_success : list Event :=
  [completed 0 0.000244140625 (Prim (PString "success"))].

Definition longer_success : list Event :=
  [completed 0 0.000732421875 (Prim (PString "success"))].

(** The time between two stamps [(start, end)], as the spec words it:
    [end - start]. *)
Definition duration (stamps : number * number) : number :=
  (snd stamps - fst stamps)%float.

(** The events of a bucket carry these stamps, in this order. *)
Definition stamped (bucket : list Event) (stamps : list (number * number))
  : Prop :=
  Forall2 (fun e st => startTime (responseTime e) = Some (fst st)
                       /\ endTime (responseTime e) = Some (snd st))
          bucket stamps.

(** [m * 2^e >= 1], for an integer [m]. *)
Definition at_least_one (m e : Z) : Prop :=
  1 <= m /\ (e < 0 -> 2 ^ (- e) <= m).

Definition rejected {A : Type} (p : promise A) : bool :=
  match p with
  | Settled _ (Rejected _) => true
  | _ => false
  end.

Definition throws {A : Type} (o : outcome A) : bool :=
  match o with
  | Throws _ _ => true
  | _ => false
  end.

(** The reading of the clock after [n] waits of [d] ticks each, counted
    from the reading [t]. *)
Fixpoint ticks_after (n : nat) (d t : number) : number :=
  match n with
  | O => t
  | S n' => ticks_after n' d (t + d)%float
  end.

(** The world in which the loop, entered in the world [w], creates the
    event number [i] (counting from 0) when the clock reads [t]: the
    rate is published, and [i] more events have been submitted. *)
Definition arrival (w : world) (i : nat) (t : number) : world :=
  {| this := set_arrivalRate (this w) (eventsPer1000Ticks (this w));
     now := t;
     submitted := (i + submitted w)%nat |}.

(** The promises of [n] events created one after the other, the event
    number [i] when the clock reads [time i]. *)
Definition arrivals (stage : Stage) (random : nat -> number) (w : world)
    (time : nat -> number) (n : nat) : list (promise Event) :=
  map (fun i => fst (createEvent stage random (arrival w i (time i)))) (seq 0 n).

(** What the outcome of [sendEvents] tells of the schedule: how the call
    ended, how many promises it collected and the world it left, whatever
    the promises are. *)
Definition schedule (o : outcome (list (promise Event))) : outcome nat :=
  match o with
  | Returns ps w => Returns (List.length ps) w
  | Throws r w => Throws r w
  | Hangs w => Hangs w
  | Unspecified w => Unspecified w
  | Spins => Spins
  | OutOfFuel => OutOfFuel
  end.

(** The assignments [simulation.keyspaceMean = mean] and
    [simulation.keyspaceStd = std]. *)
Definition set_keyspace (s : Simulation) (mean std : number) : Simulation :=
  {| eventsPer1000Ticks := eventsPer1000Ticks s;
     keyspaceMean := mean;
     keyspaceStd := std;
     _arrivalRate := _arrivalRate s |}.

Definition with_keyspace (mean std : number) (w : world) : world :=
  {| this := set_keyspace (this w) mean std;
     now := now w;
     submitted := submitted w |}.

(** The same outcome in another world. *)
Definition map_world {A : Type} (f : world -> world) (o : outcome A) : outcome A :=
  match o with
  | Returns a w => Returns a (f w)
  | Throws r w => Throws r (f w)
  | Hangs w => Hangs (f w)
  | Unspecified w => Unspecified (f w)
  | Spins => Spins
  | OutOfFuel => OutOfFuel
  end.

(** A stage none of whose calls ever settles. *)
Definition silent_stage : Stage :=
  {| accept := fun _ _ => Pending |}.

(** The promise [createEvent] returns for the event number [i]: the one
    created in a world in which [i] events had been submitted. *)
Definition created (stage : Stage) (random : nat -> number) (i : nat)
    (p : promise Event) : Prop :=
  exists w : world, submitted w = i /\ p = fst (createEvent stage random w).

(** A promise that is fulfilled with the value [a]. *)
Definition fulfilled_with {A : Type} (p : promise A) (a : A) : Prop :=
  exists t : number, p = Settled t (Fulfilled a).

(** The name under which the summary shows the column number [i] when
    [names] has no name for it. *)
Definition column_name (i : nat) : string :=
  ("Column " ++ digits_of (Z.of_nat i))%string.

(** The cells of the columns [cs] for one bucket, the first of them the
    column number [first]. *)
Definition additional_cells (cs : list EventSummaryColumnFunction)
    (first : nat) (bucket : list Event) : row :=
  map (fun ic => (column_name (fst ic), report (snd ic bucket) precision))
      (combine (seq first (List.length cs)) cs).

(** An event that has been submitted, at the reading [s], and has not
    completed. *)
Definition submitted_only (s : number) : Event :=
  set_startTime (new_Event "e-250") s.

(** The number for an integer. *)
Definition of_int (z : Z) : number :=
  SF2Prim (binary_normalize prec emax z 0 false).

(** An event with whole stamps that took [L] ticks. *)
Definition took (L : nat) (e : Event) : Prop :=
  exists s : nat,
    Z.of_nat (s + L) < 2 ^ 53
    /\ startTime (responseTime e) = Some (of_nat s)
    /\ endTime (responseTime e) = Some (of_nat (s + L)).

(** * Facts about binary64 arithmetic *)

Module FloatFacts.

Lemma digits2_pos_size (m : positive) : digits2_pos m = Pos.size m.
Proof. induction m; simpl; congruence. Qed.

Lemma digits2_pos_iter (m k : positive) :
  digits2_pos (Pos.iter xO m k) = (digits2_pos m + k)%positive.
Proof.
  induction k using Pos.peano_ind.
  - simpl. now rewrite Pos.add_1_r.
  - rewrite Pos.iter_succ. simpl. rewrite IHk. lia.
Qed.

Lemma iter_xO_value (m k : positive) :
  Zpos (Pos.iter xO m k) = Zpos m * 2 ^ Zpos k.
Proof.
  induction k using Pos.peano_ind.
  - simpl. lia.
  - rewrite Pos.iter_succ, Pos2Z.inj_xO, IHk, Pos2Z.inj_succ, Z.pow_succ_r by lia.
    lia.
Qed.

Lemma digits_bound (m : positive) :
  2 ^ (Zpos (digits2_pos m) - 1) <= Zpos m < 2 ^ Zpos (digits2_pos m).
Proof.
  rewrite digits2_pos_size. split.
  - pose proof (Pos.size_le m) as H.
    assert (Hp : (2 ^ Pos.size m <= m~0)%positive) by exact H.
    apply Pos2Z.pos_le_pos in Hp. rewrite Pos2Z.inj_pow in Hp.
    replace (Zpos (Pos.size m)) with (Z.succ (Zpos (Pos.size m) - 1)) in Hp by lia.
    rewrite Z.pow_succ_r in Hp by lia. lia.
  - pose proof (Pos.size_gt m) as H.
    apply Pos2Z.pos_lt_pos in H. now rewrite Pos2Z.inj_pow in H.
Qed.

Lemma digits_le (m : positive) (d : Z) :
  Zpos m < 2 ^ d -> 0 <= d -> Zpos (digits2_pos m) <= d.
Proof.
  intros Hm Hd. destruct (digits_bound m) as [Hlo _].
  destruct (Z.le_gt_cases (Zpos (digits2_pos m)) d) as [|Hgt]; [assumption|].
  exfalso.
  assert (2 ^ d <= 2 ^ (Zpos (digits2_pos m) - 1)) by (apply Z.pow_le_mono_r; lia).
  lia.
Qed.

(** A value that needs no rounding is normalised without change. *)
Lemma binary_round_exact (s : bool) (m : positive) (e e' : Z) :
  e' = fexp prec emax (Zpos (digits2_pos m) + e) ->
  e' <= e -> e' <= emax - prec ->
  exists m',
    binary_round prec emax s m e = S754_finite s m' e'
    /\ valid_binary (S754_finite s m' e') = true
    /\ Zpos m' = Zpos m * 2 ^ (e - e').
Proof.
  intros Hdef He Hmax.
  assert (Hshift : forall mz, Zpos (digits2_pos mz) + e' = Zpos (digits2_pos m) + e ->
            binary_round_aux prec emax s (Zpos mz) e' loc_Exact = S754_finite s mz e'
            /\ valid_binary (S754_finite s mz e') = true).
  { intros mz Hdig.
    unfold binary_round_aux, shr_fexp.
    cbn [Zdigits2].
    replace (fexp prec emax (Zpos (digits2_pos mz) + e') - e') with 0
      by (rewrite Hdig, <- Hdef; lia).
    cbn [shr shr_record_of_loc shr_m loc_of_shr_record round_nearest_even Zdigits2].
    replace (fexp prec emax (Zpos (digits2_pos mz) + e') - e') with 0
      by (rewrite Hdig, <- Hdef; lia).
    cbn [shr shr_m].
    replace (e' <=? emax - prec) with true by (symmetry; apply Z.leb_le; lia).
    split; [reflexivity|].
    cbn [SpecFloat.valid_binary]. unfold bounded, canonical_mantissa.
    rewrite Hdig, <- Hdef.
    rewrite Z.eqb_refl. cbn [andb]. apply Z.leb_le. exact Hmax. }
  unfold binary_round, shl_align. rewrite <- Hdef.
  destruct (e' - e) as [|d|d] eqn:Hd; try lia.
  - assert (Heq : e = e') by lia. rewrite Heq.
    exists m. destruct (Hshift m) as [H1 H2]; [lia|].
    split; [exact H1|]. split; [exact H2|].
    rewrite Z.sub_diag. simpl. lia.
  - exists (Pos.iter xO m d).
    destruct (Hshift (Pos.iter xO m d)) as [H1 H2].
    { rewrite digits2_pos_iter. lia. }
    split; [exact H1|]. split; [exact H2|].
    rewrite iter_xO_value. f_equal. f_equal. lia.
Qed.


Lemma fexp_unfold (x : Z) : fexp prec emax x = Z.max (x - 53) (-1074).
Proof. reflexivity. Qed.

Lemma valid_finite (s : bool) (m : positive) (e : Z) :
  valid_binary (S754_finite s m e) = true ->
  Z.max (Zpos (digits2_pos m) + e - 53) (-1074) = e /\ e <= 971.
Proof.
  cbn [SpecFloat.valid_binary]. unfold bounded, canonical_mantissa.
  rewrite fexp_unfold. intros H. apply andb_true_iff in H as [H1 H2].
  apply Z.eqb_eq in H1. apply Z.leb_le in H2. split; [exact H1|exact H2].
Qed.

Lemma signed_zero_eqb (s : bool) : (signed_zero s =? 0)%float = true.
Proof. destruct s; reflexivity. Qed.

(** [x % 1 == 0] holds exactly of the finite values without fractional
    part. *)
Lemma rem1_zero (x : number) : (rem1 x =? 0)%float = integral x.
Proof.
  unfold rem1, integral.
  pose proof (Prim2SF_valid x) as Hv.
  destruct (Prim2SF x) as [s|s| |s m e]; try reflexivity.
  - apply signed_zero_eqb.
  - destruct (0 <=? e) eqn:He; [apply signed_zero_eqb|].
    apply Z.leb_gt in He. cbn [orb].
    apply valid_finite in Hv as [Hcan Hmax].
    assert (Hpow : 0 < 2 ^ (- e)) by (apply Z.pow_pos_nonneg; lia).
    pose proof (Z.mod_pos_bound (Zpos m) (2 ^ (- e)) Hpow) as Hr.
    destruct (Zpos m mod 2 ^ (- e)) as [|r|r] eqn:Er; try lia.
    + replace (if s then - 0 else 0) with 0 by (destruct s; reflexivity).
      cbn [binary_normalize SF2Prim]. apply signed_zero_eqb.
    + replace (binary_normalize prec emax (if s then - Zpos r else Zpos r) e s)
        with (binary_round prec emax s r e) by (destruct s; reflexivity).
      assert (Hrm : Zpos r <= Zpos m).
      { rewrite <- Er. apply Z.mod_le; lia. }
      assert (Hdr : Zpos (digits2_pos r) <= Zpos (digits2_pos m)).
      { apply digits_le; [|lia]. destruct (digits_bound m). lia. }
      destruct (binary_round_exact s r e _ eq_refl) as (m' & Hround & Hvalid & _).
      * rewrite fexp_unfold. lia.
      * rewrite fexp_unfold. change (emax - prec) with 971. lia.
      * rewrite Hround, FloatAxioms.eqb_spec, (Prim2SF_SF2Prim _ Hvalid).
        destruct s; reflexivity.
Qed.

Lemma Prim2SF_of_nat (n : nat) :
  0 < Z.of_nat n < 2 ^ 53 ->
  exists m e,
    Prim2SF (of_nat n) = S754_finite false m e
    /\ e <= 0 /\ Zpos m = Z.of_nat n * 2 ^ (- e).
Proof.
  intros Hn. unfold of_nat.
  destruct (Z.of_nat n) as [|p|p] eqn:Ep; try lia.
  cbn [binary_normalize].
  assert (Hd : Zpos (digits2_pos p) <= 53) by (apply digits_le; lia).
  destruct (binary_round_exact false p 0 _ eq_refl) as (m' & Hround & Hvalid & Hval).
  - rewrite fexp_unfold. lia.
  - rewrite fexp_unfold. change (emax - prec) with 971. lia.
  - exists m', (fexp prec emax (Zpos (digits2_pos p) + 0)).
    rewrite Hround, (Prim2SF_SF2Prim _ Hvalid).
    split; [reflexivity|]. split.
    + rewrite fexp_unfold. lia.
    + rewrite Hval. f_equal.
Qed.

(** An array length is reported as it is. *)
Lemma integral_of_nat (n : nat) :
  Z.of_nat n < 2 ^ 53 -> integral (of_nat n) = true.
Proof.
  intros Hn. destruct n as [|n]; [reflexivity|].
  destruct (Prim2SF_of_nat (S n)) as (m & e & Hsf & He & Hm); [lia|].
  unfold integral. rewrite Hsf, Hm.
  rewrite Z.mod_mul; [apply orb_true_r|].
  apply Z.pow_nonzero; lia.
Qed.

Lemma isFinite_of_nat (n : nat) :
  Z.of_nat n < 2 ^ 53 -> isFinite (of_nat n) = true.
Proof.
  intros Hn. destruct n as [|n]; [reflexivity|].
  destruct (Prim2SF_of_nat (S n)) as (m & e & Hsf & _); [lia|].
  unfold isFinite. now rewrite Hsf.
Qed.

(** [x - x] is 0 for a finite [x] and NaN otherwise. *)
Lemma sub_diag (x : number) :
  (x - x)%float = if isFinite x then zero else nan.
Proof.
  rewrite <- (SF2Prim_Prim2SF (x - x)), FloatAxioms.sub_spec.
  unfold isFinite, SF64sub.
  destruct (Prim2SF x) as [s|s| |s m e]; try (destruct s; reflexivity).
  - reflexivity.
  - cbn [SFsub]. rewrite Z.sub_diag. reflexivity.
Qed.

(** Nothing equals NaN. *)
Lemma eqb_nan (x : number) : (x =? nan)%float = false.
Proof.
  rewrite FloatAxioms.eqb_spec. change (Prim2SF nan) with S754_nan.
  now destruct (Prim2SF x).
Qed.

(** A positive array length divided by itself is 1. *)
Lemma div_diag_of_nat (n : nat) :
  0 < Z.of_nat n < 2 ^ 53 -> (of_nat n / of_nat n)%float = 1%float.
Proof.
  intros Hn.
  destruct (Prim2SF_of_nat n Hn) as (m & e & Hsf & He & Hm).
  rewrite <- (SF2Prim_Prim2SF (of_nat n / of_nat n)), FloatAxioms.div_spec, Hsf.
  unfold SF64div. cbn [SFdiv xorb]. unfold SFdiv_core_binary.
  replace (Zdigits2 (Zpos m) + e - (Zdigits2 (Zpos m) + e)) with 0 by lia.
  rewrite Z.sub_diag.
  change (Z.min (fexp prec emax 0) 0) with (-53).
  change (0 - -53) with 53.
  rewrite Z.shiftl_mul_pow2 by lia.
  assert (Hdiv : Z.div_eucl (Zpos m * 2 ^ 53) (Zpos m) = (2 ^ 53, 0)).
  { pose proof (Z.div_mul (2 ^ 53) (Zpos m) ltac:(lia)) as Hq.
    pose proof (Z.mod_mul (2 ^ 53) (Zpos m) ltac:(lia)) as Hr.
    rewrite (Z.mul_comm (Zpos m)).
    unfold Z.div, Z.modulo in Hq, Hr.
    destruct (Z.div_eucl (2 ^ 53 * Zpos m) (Zpos m)) as [q r].
    now subst. }
  rewrite Hdiv.
  replace (new_location (Zpos m) 0) with loc_Exact
    by (unfold new_location, new_location_even, new_location_odd;
        now destruct (Z.even (Zpos m))).
  reflexivity.
Qed.

(** No array length divided by a positive one is 0. *)
Lemma div_zero_of_nat (n : nat) :
  0 < Z.of_nat n < 2 ^ 53 -> (of_nat 0 / of_nat n)%float = 0%float.
Proof.
  intros Hn.
  destruct (Prim2SF_of_nat n Hn) as (m & e & Hsf & He & Hm).
  rewrite <- (SF2Prim_Prim2SF (of_nat 0 / of_nat n)), FloatAxioms.div_spec, Hsf.
  reflexivity.
Qed.

(** *** Text *)

Lemma length_append (s t : string) :
  String.length (s ++ t) = (String.length s + String.length t)%nat.
Proof. induction s as [|c s IH]; cbn; [reflexivity|]. now rewrite IH. Qed.

Lemma length_zeros (k : nat) : String.length (zeros k) = k.
Proof. induction k as [|k IH]; cbn; [reflexivity|]. now rewrite IH. Qed.

Lemma length_substring (n m : nat) (s : string) :
  (n + m <= String.length s)%nat -> String.length (substring n m s) = m.
Proof.
  revert n m. induction s as [|c s IH]; intros n m H.
  - cbn in H. assert (n = O /\ m = O) as [-> ->] by lia. reflexivity.
  - destruct n as [|n]; cbn [substring].
    + destruct m as [|m]; [reflexivity|]. cbn [String.length] in *.
      rewrite (IH O m); lia.
    + cbn [String.length] in H. apply IH. lia.
Qed.

(** With three fraction digits the text is an integer part, a point and
    exactly three digits. *)
Lemma fixed_text_shape (n : Z) :
  exists ip fp : string,
    fixed_text n 3 = (ip ++ "." ++ fp)%string /\ String.length fp = 3%nat.
Proof.
  unfold fixed_text.
  set (m := (zeros (4 - String.length (digits_of n)) ++ digits_of n)%string).
  assert (Hm : (4 <= String.length m)%nat).
  { unfold m. rewrite length_append, length_zeros. lia. }
  eexists _, _. split; [reflexivity|].
  apply length_substring. lia.
Qed.

(** [scaled_round] picks the integer nearest to [m * 2^e * 10^f]. *)
Lemma scaled_round_nearest (m : positive) (e : Z) (f : nat) :
  e < 0 ->
  2 * Z.abs (scaled_round m e f * 2 ^ (- e) - Zpos m * 10 ^ Z.of_nat f)
  <= 2 ^ (- e).
Proof.
  intros He. unfold scaled_round.
  replace (0 <=? e) with false by (symmetry; apply Z.leb_gt; lia).
  set (a := Zpos m * 10 ^ Z.of_nat f).
  assert (Hd : 0 < 2 ^ (- e)) by (apply Z.pow_pos_nonneg; lia).
  replace (2 ^ (- e + 1)) with (2 * 2 ^ (- e)) by (rewrite Z.pow_add_r; lia).
  set (d := 2 ^ (- e)) in *.
  pose proof (Z.mul_div_le (2 * a + d) (2 * d) ltac:(lia)).
  pose proof (Z.mul_succ_div_gt (2 * a + d) (2 * d) ltac:(lia)).
  set (n := (2 * a + d) / (2 * d)) in *.
  lia.
Qed.

(** *** Signs *)

Lemma shr_record_of_loc_m (m : Z) (l : location) :
  shr_m (shr_record_of_loc m l) = m.
Proof. destruct l as [|[]]; reflexivity. Qed.

Lemma shr_1_nonneg (r : shr_record) : 0 <= shr_m r -> 0 <= shr_m (shr_1 r).
Proof.
  destruct r as [m r s]. cbn [shr_m shr_1].
  destruct m as [|[p|p|]|p]; cbn [shr_m]; lia.
Qed.

Lemma iter_shr_1_nonneg (p : positive) :
  forall r : shr_record, 0 <= shr_m r -> 0 <= shr_m (iter_pos shr_1 p r).
Proof.
  induction p as [p IH|p IH|]; intros r Hr; cbn [iter_pos].
  - apply IH, IH, shr_1_nonneg, Hr.
  - apply IH, IH, Hr.
  - apply shr_1_nonneg, Hr.
Qed.

Lemma shr_fexp_nonneg (m e : Z) (l : location) :
  0 <= m -> 0 <= shr_m (fst (shr_fexp prec emax m e l)).
Proof.
  intros Hm. unfold shr_fexp, shr.
  destruct (fexp prec emax (Zdigits2 m + e) - e) as [|p|p]; cbn [fst];
    try (now rewrite shr_record_of_loc_m).
  apply iter_shr_1_nonneg. now rewrite shr_record_of_loc_m.
Qed.

Lemma round_nearest_even_nonneg (m : Z) (l : location) :
  0 <= m -> 0 <= round_nearest_even m l.
Proof.
  intros Hm. destruct l as [|[]]; cbn [round_nearest_even]; try lia.
  destruct (Z.even m); lia.
Qed.

(** Rounding a non-negative value gives a zero, a positive number or
    +Infinity. *)
Lemma binary_round_aux_sign (m e : Z) (l : location) :
  0 <= m ->
  match binary_round_aux prec emax false m e l with
  | S754_zero false | S754_finite false _ _ | S754_infinity false => True
  | _ => False
  end.
Proof.
  intros Hm. unfold binary_round_aux.
  pose proof (shr_fexp_nonneg m e l Hm) as H1.
  destruct (shr_fexp prec emax m e l) as [mrs' e']. cbn [fst] in H1.
  pose proof (shr_fexp_nonneg _ e' loc_Exact
                (round_nearest_even_nonneg _ (loc_of_shr_record mrs') H1)) as H2.
  destruct (shr_fexp prec emax _ e' loc_Exact) as [mrs'' e'']. cbn [fst] in H2.
  destruct (shr_m mrs'') as [|p|p]; [exact I| |lia].
  now destruct (e'' <=? emax - prec).
Qed.

Lemma nonneg_add (x y : number) :
  nonneg x = true -> nonneg y = true -> nonneg (x + y)%float = true.
Proof.
  unfold nonneg. rewrite FloatAxioms.add_spec. unfold SF64add.
  destruct (Prim2SF x) as [sx|[|]| |[|] mx ex]; try discriminate;
    destruct (Prim2SF y) as [sy|[|]| |[|] my ey]; try discriminate;
    intros _ _; try reflexivity.
  - now destruct sx, sy.
  - cbn [SFadd cond_Zopp]. cbn [Z.add binary_normalize].
    unfold binary_round.
    destruct (shl_align _ _ _) as [mz ez].
    pose proof (binary_round_aux_sign (Zpos mz) ez loc_Exact ltac:(lia)) as H.
    destruct (binary_round_aux prec emax false (Zpos mz) ez loc_Exact)
      as [[|]|[|]| |[|] m e]; try contradiction; reflexivity.
Qed.

Lemma SFcompare_refl (x : spec_float) :
  x <> S754_nan -> SFcompare x x = Some Eq.
Proof.
  destruct x as [s|s| |s m e]; try congruence; intros _; cbn [SFcompare].
  - reflexivity.
  - now destruct s.
  - rewrite Z.compare_refl, Pos.compare_cont_refl. now destruct s.
Qed.

Lemma leb_refl_nonneg (x : number) : nonneg x = true -> (x <=? x)%float = true.
Proof.
  unfold nonneg. rewrite FloatAxioms.leb_spec. unfold SFleb.
  intros H. rewrite SFcompare_refl; [reflexivity|].
  intros E. now rewrite E in H.
Qed.

(** A finite duration that is not [<= 0] is positive. *)
Lemma positive_duration (ticks : number) :
  (ticks <=? 0)%float = false -> isFinite ticks = true -> nonneg ticks = true.
Proof.
  unfold nonneg, isFinite. rewrite FloatAxioms.leb_spec.
  change (Prim2SF 0) with (S754_zero false).
  destruct (Prim2SF ticks) as [s|s| |[|] m e]; try discriminate; reflexivity.
Qed.

(** *** Magnitudes *)

Lemma shr_1_m (r : shr_record) : 0 <= shr_m r -> shr_m (shr_1 r) = shr_m r / 2.
Proof.
  destruct r as [m r s]. cbn [shr_m shr_1].
  destruct m as [|[p|p|]|p]; cbn [shr_m]; intros H.
  - reflexivity.
  - apply (Z.div_unique _ _ _ 1); lia.
  - apply (Z.div_unique _ _ _ 0); lia.
  - reflexivity.
  - lia.
Qed.

Lemma iter_shr_1_m (p : positive) :
  forall r : shr_record,
    0 <= shr_m r -> shr_m (iter_pos shr_1 p r) = shr_m r / 2 ^ Zpos p.
Proof.
  induction p as [p IH|p IH|]; intros r Hr; cbn [iter_pos].
  - rewrite IH, IH, shr_1_m by auto using shr_1_nonneg, iter_shr_1_nonneg.
    assert (Hp : 0 < 2 ^ Zpos p) by (apply Z.pow_pos_nonneg; lia).
    replace (2 ^ Zpos p~1) with (2 * 2 ^ Zpos p * 2 ^ Zpos p).
    + rewrite !Z.div_div by lia. f_equal. lia.
    + replace (Zpos p~1) with (1 + Zpos p + Zpos p) by lia.
      rewrite !Z.pow_add_r by lia. reflexivity.
  - rewrite IH, IH by auto using iter_shr_1_nonneg.
    assert (Hp : 0 < 2 ^ Zpos p) by (apply Z.pow_pos_nonneg; lia).
    replace (2 ^ Zpos p~0) with (2 ^ Zpos p * 2 ^ Zpos p).
    + rewrite !Z.div_div by lia. f_equal.
    + replace (Zpos p~0) with (Zpos p + Zpos p) by lia.
      rewrite !Z.pow_add_r by lia. reflexivity.
  - now apply shr_1_m.
Qed.

(** Dropping the bits that do not fit the format keeps a value of at
    least 1 at least 1. *)
Lemma shr_fexp_at_least_one (m e : Z) (l : location) :
  at_least_one m e ->
  at_least_one (shr_m (fst (shr_fexp prec emax m e l)))
               (snd (shr_fexp prec emax m e l)).
Proof.
  intros [Hm He]. unfold shr_fexp, shr.
  destruct m as [|m|m]; try lia.
  cbn [Zdigits2]. rewrite fexp_unfold.
  destruct (Z.max (Zpos (digits2_pos m) + e - 53) (-1074) - e) as [|p|p] eqn:Hn;
    cbn [fst snd]; rewrite ?shr_record_of_loc_m; try (split; assumption).
  rewrite iter_shr_1_m, shr_record_of_loc_m by (rewrite shr_record_of_loc_m; lia).
  assert (Hp : 0 < 2 ^ Zpos p) by (apply Z.pow_pos_nonneg; lia).
  destruct (digits_bound m) as [Hlo _].
  assert (Hge : 2 ^ Zpos p <= Zpos m).
  { destruct (Z.max_spec (Zpos (digits2_pos m) + e - 53) (-1074)) as [[_ Hmax]|[_ Hmax]];
      rewrite Hmax in Hn.
    - assert (He' : e < 0) by lia. specialize (He He').
      apply Z.le_trans with (2 ^ (- e)); [|exact He].
      apply Z.pow_le_mono_r; lia.
    - apply Z.le_trans with (2 ^ (Zpos (digits2_pos m) - 1)); [|exact Hlo].
      apply Z.pow_le_mono_r; lia. }
  split.
  - apply Z.div_le_lower_bound; lia.
  - intros Hneg. assert (He' : e < 0) by lia. specialize (He He').
    apply Z.div_le_lower_bound; [lia|].
    rewrite <- Z.pow_add_r by lia.
    replace (Zpos p + - (e + Zpos p)) with (- e) by lia. exact He.
Qed.

Lemma round_at_least_one (m e : Z) (l : location) :
  at_least_one m e -> at_least_one (round_nearest_even m l) e.
Proof.
  intros [Hm He].
  assert (m <= round_nearest_even m l).
  { destruct l as [|[]]; cbn [round_nearest_even]; try lia.
    destruct (Z.even m); lia. }
  split; [lia|]. intros Hneg. specialize (He Hneg). lia.
Qed.

Lemma binary_round_aux_at_least_one (m e : Z) (l : location) :
  at_least_one m e ->
  match binary_round_aux prec emax false m e l with
  | S754_finite false mr er => at_least_one (Zpos mr) er
  | S754_infinity false => True
  | _ => False
  end.
Proof.
  intros H. unfold binary_round_aux.
  pose proof (shr_fexp_at_least_one m e l H) as H1.
  destruct (shr_fexp prec emax m e l) as [mrs' e']. cbn [fst snd] in H1.
  pose proof (shr_fexp_at_least_one _ e' loc_Exact
                (round_at_least_one _ e' (loc_of_shr_record mrs') H1)) as H2.
  destruct (shr_fexp prec emax _ e' loc_Exact) as [mrs'' e'']. cbn [fst snd] in H2.
  destruct (shr_m mrs'') as [|p|p]; try (destruct H2; lia).
  now destruct (e'' <=? emax - prec).
Qed.

Lemma floor_at_least_one (x : number) (m : positive) (e : Z) :
  Prim2SF x = S754_finite false m e -> at_least_one (Zpos m) e ->
  igeb (floor x) (Fin 1) = true.
Proof.
  intros Hsf [Hm He]. unfold floor. rewrite Hsf. cbn [igeb]. apply Z.leb_le.
  destruct (Z.le_gt_cases 0 e) as [Hpos|Hneg].
  - rewrite Z.shiftl_mul_pow2 by lia.
    assert (0 < 2 ^ e) by (apply Z.pow_pos_nonneg; lia). nia.
  - rewrite <- (Z.opp_involutive e) at 1. rewrite Z.shiftl_opp_r.
    rewrite Z.shiftr_div_pow2 by lia.
    apply Z.div_le_lower_bound; [apply Z.pow_pos_nonneg; lia|].
    specialize (He Hneg). lia.
Qed.

(** *** The reciprocal of a tick delta below 1 *)

Lemma div_eucl_eq (a b : Z) : Z.div_eucl a b = (a / b, a mod b).
Proof. unfold Z.div, Z.modulo. now destruct (Z.div_eucl a b). Qed.

(** A positive number is a positive finite number or +Infinity. *)
Lemma positive_cases (r : number) :
  (0 <? r)%float = true ->
  match Prim2SF r with
  | S754_finite false _ _ | S754_infinity false => True
  | _ => False
  end.
Proof.
  rewrite FloatAxioms.ltb_spec. change (Prim2SF 0) with (S754_zero false).
  destruct (Prim2SF r) as [s|[|]| |[|] m e]; cbn; try discriminate; auto.
Qed.

(** 1000 divided by a positive number is +0, positive or +Infinity. *)
Lemma tick_delta_sign (r : number) :
  (0 <? r)%float = true ->
  match Prim2SF (1000 / r)%float with
  | S754_zero false | S754_finite false _ _ | S754_infinity false => True
  | _ => False
  end.
Proof.
  intros Hr. apply positive_cases in Hr.
  rewrite FloatAxioms.div_spec.
  change (Prim2SF 1000) with (S754_finite false 8796093022208000 (-43)).
  destruct (Prim2SF r) as [s|[|]| |[|] m e]; try contradiction; [exact I|].
  unfold SF64div. cbn [SFdiv xorb]. unfold SFdiv_core_binary.
  rewrite div_eucl_eq.
  apply binary_round_aux_sign.
  apply Z.div_pos; [|lia].
  match goal with |- 0 <= match ?s with _ => _ end =>
    destruct s; [lia|rewrite Z.shiftl_mul_pow2 by lia|lia] end.
  assert (0 < 2 ^ Zpos p) by (apply Z.pow_pos_nonneg; lia). lia.
Qed.

(** The reciprocal of a positive number below 1 is at least 1. *)
Lemma reciprocal_at_least_one (t : number) (m : positive) (e : Z) :
  Prim2SF t = S754_finite false m e ->
  (t <? 1)%float = true ->
  igeb (floor (1 / t)%float) (Fin 1) = true.
Proof.
  intros Hsf Hlt.
  pose proof (Prim2SF_valid t) as Hv. rewrite Hsf in Hv.
  apply valid_finite in Hv as [Hcan Hmax].
  destruct (digits_bound m) as [Hlo Hhi].
  set (d := Zpos (digits2_pos m)) in *.
  assert (Hd : 1 <= d) by (unfold d; lia).
  assert (He : e <= -53).
  { rewrite FloatAxioms.ltb_spec, Hsf in Hlt.
    change (Prim2SF 1) with (S754_finite false 4503599627370496 (-52)) in Hlt.
    unfold SFltb in Hlt. cbn [SFcompare] in Hlt.
    destruct (Z.compare_spec e (-52)) as [Heq|Hless|Hgt]; try discriminate; [|lia].
    exfalso. subst e.
    assert (d = 53) by lia.
    destruct (Pos.compare_cont Eq m 4503599627370496) eqn:Hc; try discriminate.
    rewrite Pos.compare_cont_spec in Hc.
    destruct (Pos.compare m 4503599627370496) eqn:Hcmp; try discriminate.
    pose proof (Pos2Z.pos_lt_pos _ _
                  (proj1 (Pos.compare_lt_iff m 4503599627370496) Hcmp)) as Hm.
    replace (d - 1) with 52 in Hlo by lia.
    change (2 ^ 52) with 4503599627370496 in Hlo. lia. }
  assert (Hm53 : Zpos m < 2 ^ 53).
  { apply Z.lt_le_trans with (2 ^ d); [exact Hhi|].
    apply Z.pow_le_mono_r; lia. }
  remember (1 / t)%float as x eqn:Hx.
  assert (Hdiv : Prim2SF x
                 = SFdiv prec emax (S754_finite false 4503599627370496 (-52))
                     (S754_finite false m e)).
  { subst x. rewrite FloatAxioms.div_spec, Hsf. reflexivity. }
  cbn [SFdiv xorb] in Hdiv. unfold SFdiv_core_binary in Hdiv.
  rewrite div_eucl_eq in Hdiv.
  cbn [Zdigits2] in Hdiv. fold d in Hdiv.
  change (Zpos (digits2_pos 4503599627370496)) with 53 in Hdiv.
  rewrite fexp_unfold in Hdiv.
  set (e' := Z.min (Z.max (53 + -52 - (d + e) - 53) (-1074)) (-52 - e)) in *.
  assert (He' : e' = Z.max (- 52 - d - e) (-1074)) by (unfold e'; lia).
  destruct (-52 - e - e') as [|p|p] eqn:Hs; try lia.
  rewrite Z.shiftl_mul_pow2 in Hdiv by lia.
  assert (Hp : 0 < 2 ^ Zpos p) by (apply Z.pow_pos_nonneg; lia).
  assert (Hq : at_least_one (4503599627370496 * 2 ^ Zpos p / Zpos m) e').
  { change 4503599627370496 with (2 ^ 52). rewrite <- Z.pow_add_r by lia.
    split.
    - apply Z.div_le_lower_bound; [lia|].
      apply Z.le_trans with (2 ^ 53); [lia|]. apply Z.pow_le_mono_r; lia.
    - intros Hneg. apply Z.div_le_lower_bound; [lia|].
      apply Z.le_trans with (2 ^ 53 * 2 ^ (- e')).
      + apply Z.mul_le_mono_nonneg_r; [apply Z.pow_nonneg; lia|lia].
      + rewrite <- Z.pow_add_r by lia. apply Z.pow_le_mono_r; lia. }
  pose proof (binary_round_aux_at_least_one _ e'
                (new_location (Zpos m) (4503599627370496 * 2 ^ Zpos p mod Zpos m))
                Hq) as Hround.
  rewrite <- Hdiv in Hround.
  destruct (Prim2SF x) as [s|[|]| |[|] mr er] eqn:Hxsf; try contradiction.
  - unfold floor. now rewrite Hxsf.
  - now apply (floor_at_least_one x mr er).
Qed.

(** At a positive rate with [tickDelta < 1] the batch size is at least
    1 (infinite for an infinite rate). *)
Lemma batch_size_at_least_one (r : number) :
  (0 <? r)%float = true ->
  (1000 / r <? 1)%float = true ->
  igeb (floor (1 / (1000 / r))%float) (Fin 1) = true.
Proof.
  intros Hr Hlt.
  pose proof (tick_delta_sign r Hr) as Hsign.
  destruct (Prim2SF (1000 / r)%float) as [[|]|[|]| |[|] m e] eqn:Hsf;
    try contradiction.
  - unfold floor. rewrite FloatAxioms.div_spec, Hsf. reflexivity.
  - rewrite FloatAxioms.ltb_spec, Hsf in Hlt. discriminate.
  - now apply (reciprocal_at_least_one _ m e).
Qed.

(** *** NaN *)

Lemma number_nan (x : number) : Prim2SF x = S754_nan -> x = nan.
Proof. intros H. rewrite <- (SF2Prim_Prim2SF x), H. reflexivity. Qed.

Lemma add_nan_l (y : number) : (nan + y)%float = nan.
Proof.
  apply number_nan. rewrite FloatAxioms.add_spec.
  change (Prim2SF nan) with S754_nan. now destruct (Prim2SF y).
Qed.

Lemma add_nan_r (x : number) : (x + nan)%float = nan.
Proof.
  apply number_nan. rewrite FloatAxioms.add_spec.
  change (Prim2SF nan) with S754_nan. now destruct (Prim2SF x).
Qed.

Lemma sub_nan_l (y : number) : (nan - y)%float = nan.
Proof.
  apply number_nan. rewrite FloatAxioms.sub_spec.
  change (Prim2SF nan) with S754_nan. now destruct (Prim2SF y).
Qed.

Lemma sub_nan_r (x : number) : (x - nan)%float = nan.
Proof.
  apply number_nan. rewrite FloatAxioms.sub_spec.
  change (Prim2SF nan) with S754_nan. now destruct (Prim2SF x).
Qed.

Lemma div_nan_l (y : number) : (nan / y)%float = nan.
Proof.
  apply number_nan. rewrite FloatAxioms.div_spec.
  change (Prim2SF nan) with S754_nan. now destruct (Prim2SF y).
Qed.

(** *** Integers *)

Lemma digits_unique (p : positive) (n : Z) :
  2 ^ (n - 1) <= Zpos p < 2 ^ n -> Zpos (digits2_pos p) = n.
Proof.
  intros [Hlo Hhi]. destruct (digits_bound p) as [Dlo Dhi].
  set (d := Zpos (digits2_pos p)) in *.
  assert (Hd : 1 <= d) by (unfold d; lia).
  destruct (Z.lt_trichotomy d n) as [Hlt|[Heq|Hgt]]; [|exact Heq|]; exfalso.
  - assert (2 ^ d <= 2 ^ (n - 1)) by (apply Z.pow_le_mono_r; lia). lia.
  - assert (Hn : 0 <= n).
    { destruct (Z.le_gt_cases 0 n) as [|Hneg]; [assumption|].
      rewrite (Z.pow_neg_r 2 n) in Hhi by lia. lia. }
    assert (2 ^ n <= 2 ^ (d - 1)) by (apply Z.pow_le_mono_r; lia). lia.
Qed.

Lemma digits_shifted (q r : positive) (K : Z) :
  0 <= K -> Zpos r = Zpos q * 2 ^ K ->
  Zpos (digits2_pos r) = Zpos (digits2_pos q) + K.
Proof.
  intros HK Hr. apply digits_unique. destruct (digits_bound q) as [Dlo Dhi].
  set (d := Zpos (digits2_pos q)) in *.
  assert (Hd : 1 <= d) by (unfold d; lia).
  assert (HP : 0 < 2 ^ K) by (apply Z.pow_pos_nonneg; lia).
  replace (d + K - 1) with (d - 1 + K) by lia.
  rewrite !Z.pow_add_r by lia. rewrite Hr. split.
  - apply Z.mul_le_mono_nonneg_r; lia.
  - apply Z.mul_lt_mono_pos_r; lia.
Qed.

Lemma shr_1_double (m : Z) :
  0 <= m ->
  shr_1 {| shr_m := 2 * m; shr_r := false; shr_s := false |}
  = {| shr_m := m; shr_r := false; shr_s := false |}.
Proof. destruct m as [|p|p]; intros H; [reflexivity|reflexivity|lia]. Qed.

(** Dropping bits that are all zero loses nothing. *)
Lemma iter_shr_1_exact (j : positive) :
  forall m : Z,
    0 <= m ->
    iter_pos shr_1 j {| shr_m := m * 2 ^ Zpos j; shr_r := false; shr_s := false |}
    = {| shr_m := m; shr_r := false; shr_s := false |}.
Proof.
  induction j as [j IH|j IH|]; intros m Hm; cbn [iter_pos].
  - assert (Hp : 0 < 2 ^ Zpos j) by (apply Z.pow_pos_nonneg; lia).
    replace (m * 2 ^ Zpos j~1) with (2 * (m * 2 ^ Zpos j * 2 ^ Zpos j)).
    + rewrite shr_1_double by nia. rewrite IH by nia. now apply IH.
    + replace (Zpos j~1) with (1 + Zpos j + Zpos j) by lia.
      rewrite !Z.pow_add_r by lia. change (2 ^ 1) with 2. ring.
  - assert (Hp : 0 < 2 ^ Zpos j) by (apply Z.pow_pos_nonneg; lia).
    replace (m * 2 ^ Zpos j~0) with (m * 2 ^ Zpos j * 2 ^ Zpos j).
    + rewrite IH by nia. now apply IH.
    + replace (Zpos j~0) with (Zpos j + Zpos j) by lia.
      rewrite !Z.pow_add_r by lia. ring.
  - change (2 ^ 1) with 2. rewrite Z.mul_comm. now apply shr_1_double.
Qed.

(** A value with trailing zero bits rounds as the value without them. *)
Lemma binary_round_shifted (s : bool) (q r : positive) (K : Z) :
  0 <= K -> Zpos q < 2 ^ 53 -> Zpos r = Zpos q * 2 ^ K ->
  binary_round prec emax s r (- K) = binary_round prec emax s q 0.
Proof.
  intros HK Hq Hr.
  pose proof (digits_shifted q r K HK Hr) as Hd.
  assert (Hdq : Zpos (digits2_pos q) <= 53) by (apply digits_le; lia).
  set (d := Zpos (digits2_pos q)) in *.
  assert (Hd1 : 1 <= d) by (unfold d; lia).
  destruct (binary_round_exact s q 0 (d - 53)) as (m1 & H1 & _ & V1).
  { rewrite fexp_unfold. fold d. lia. }
  { lia. }
  { change (emax - prec) with 971. lia. }
  rewrite H1.
  assert (Hm1 : Zpos (digits2_pos m1) = 53).
  { rewrite (digits_shifted q m1 (0 - (d - 53))) by (lia || exact V1).
    fold d. lia. }
  destruct (Z.le_gt_cases (d - 53) (- K)) as [Hle|Hgt].
  - destruct (binary_round_exact s r (- K) (d - 53)) as (m2 & H2 & _ & V2).
    { rewrite fexp_unfold, Hd. lia. }
    { lia. }
    { change (emax - prec) with 971. lia. }
    rewrite H2. f_equal. apply Pos2Z.inj.
    rewrite V1, V2, Hr, <- Z.mul_assoc, <- Z.pow_add_r by lia.
    f_equal. f_equal. lia.
  - unfold binary_round, shl_align. rewrite fexp_unfold, Hd.
    replace (Z.max (d + K + - K - 53) (-1074)) with (d - 53) by lia.
    destruct (d - 53 - - K) as [|j|j] eqn:Hj; try lia.
    assert (Hrm : Zpos r = Zpos m1 * 2 ^ Zpos j).
    { rewrite V1, Hr, <- Z.mul_assoc, <- Z.pow_add_r by lia.
      f_equal. f_equal. lia. }
    unfold binary_round_aux, shr_fexp. cbn [Zdigits2].
    rewrite fexp_unfold, Hd.
    replace (Z.max (d + K + - K - 53) (-1074) - - K) with (Zpos j) by lia.
    cbn [shr shr_record_of_loc]. rewrite Hrm, iter_shr_1_exact by lia.
    cbn [shr_m loc_of_shr_record round_nearest_even Zdigits2].
    rewrite fexp_unfold, Hm1.
    replace (Z.max (53 + (- K + Zpos j) - 53) (-1074) - (- K + Zpos j)) with 0
      by lia.
    cbn [shr shr_record_of_loc shr_m].
    replace (- K + Zpos j) with (d - 53) by lia.
    replace (d - 53 <=? emax - prec) with true; [reflexivity|].
    symmetry. apply Z.leb_le. change (emax - prec) with 971. lia.
Qed.

Lemma binary_normalize_shifted (z K : Z) :
  0 <= K -> Z.abs z < 2 ^ 53 ->
  binary_normalize prec emax (z * 2 ^ K) (- K) false
  = binary_normalize prec emax z 0 false.
Proof.
  intros HK Hz.
  assert (HP : 0 < 2 ^ K) by (apply Z.pow_pos_nonneg; lia).
  destruct z as [|q|q].
  - reflexivity.
  - destruct (Zpos q * 2 ^ K) as [|r|r] eqn:Hr; try lia.
    cbn [binary_normalize]. apply binary_round_shifted; [lia|lia|now rewrite Hr].
  - destruct (Zneg q * 2 ^ K) as [|r|r] eqn:Hr; try lia.
    cbn [binary_normalize]. apply binary_round_shifted; [lia|lia|lia].
Qed.

Lemma shl_align_value (m : positive) (e e' : Z) :
  e' <= e -> Zpos (fst (shl_align m e e')) = Zpos m * 2 ^ (e - e').
Proof.
  intros He. unfold shl_align.
  destruct (e' - e) as [|p|p] eqn:Hp; try lia; cbn [fst].
  - replace (e - e') with 0 by lia. lia.
  - rewrite iter_xO_value. f_equal. f_equal. lia.
Qed.

(** An integer of magnitude below 2^53 is a number, exactly. *)
Lemma binary_round_integer (q : positive) :
  Zpos q < 2 ^ 53 ->
  exists (m : positive) (e : Z),
    e <= 0 /\ Zpos m = Zpos q * 2 ^ (- e)
    /\ forall s : bool,
         binary_round prec emax s q 0 = S754_finite s m e
         /\ valid_binary (S754_finite s m e) = true.
Proof.
  intros Hq.
  assert (Hd : Zpos (digits2_pos q) <= 53) by (apply digits_le; lia).
  assert (He : fexp prec emax (Zpos (digits2_pos q) + 0) <= 0)
    by (rewrite fexp_unfold; lia).
  assert (Hmax : fexp prec emax (Zpos (digits2_pos q) + 0) <= emax - prec)
    by (change (emax - prec) with 971; lia).
  destruct (binary_round_exact false q 0 _ eq_refl He Hmax) as (m & _ & _ & Hm).
  exists m, (fexp prec emax (Zpos (digits2_pos q) + 0)).
  split; [exact He|]. split; [rewrite Hm; f_equal; f_equal; lia|].
  intros s.
  destruct (binary_round_exact s q 0 _ eq_refl He Hmax) as (m' & Hr & Hv & Hm').
  assert (m' = m) by (apply Pos2Z.inj; congruence). subst m'. now split.
Qed.

Lemma Prim2SF_of_int (z : Z) :
  z <> 0 -> Z.abs z < 2 ^ 53 ->
  exists (m : positive) (e : Z),
    e <= 0 /\ Zpos m = Z.abs z * 2 ^ (- e)
    /\ Prim2SF (of_int z) = S754_finite (z <? 0) m e
    /\ Prim2SF (of_int (- z)) = S754_finite (negb (z <? 0)) m e.
Proof.
  intros Hz Hlt. unfold of_int.
  destruct z as [|q|q]; [congruence| |];
    destruct (binary_round_integer q ltac:(lia)) as (m & e & He & Hm & Hs);
    exists m, e; (split; [exact He|]); (split; [exact Hm|]);
    cbn [binary_normalize Z.opp Z.ltb Z.compare negb]; split;
    match goal with |- context [binary_round _ _ ?s q 0] =>
      destruct (Hs s) as [-> Hv]; apply (Prim2SF_SF2Prim _ Hv) end.
Qed.

Lemma cond_Zopp_abs (z c : Z) : cond_Zopp (z <? 0) (Z.abs z * c) = z * c.
Proof. destruct z; cbn [Z.ltb Z.compare cond_Zopp Z.abs]; lia. Qed.

Lemma cond_Zopp_abs_neg (z c : Z) :
  cond_Zopp (negb (z <? 0)) (Z.abs z * c) = - z * c.
Proof. destruct z; cbn [Z.ltb Z.compare cond_Zopp Z.abs negb]; lia. Qed.

Lemma number_eq (x y : number) : Prim2SF x = Prim2SF y -> x = y.
Proof.
  intros H. now rewrite <- (SF2Prim_Prim2SF x), H, SF2Prim_Prim2SF.
Qed.

Lemma Prim2SF_of_int_value (z : Z) :
  Z.abs z < 2 ^ 53 ->
  Prim2SF (of_int z) = binary_normalize prec emax z 0 false.
Proof.
  intros Hz. destruct (Z.eq_dec z 0) as [->|Hne]; [reflexivity|].
  unfold of_int.
  destruct z as [|q|q]; [congruence| |];
    destruct (binary_round_integer q ltac:(lia)) as (m & e & _ & _ & Hs);
    cbn [binary_normalize];
    match goal with |- context [binary_round _ _ ?s q 0] =>
      destruct (Hs s) as [-> Hv]; apply (Prim2SF_SF2Prim _ Hv) end.
Qed.

(** The sum of two integers, when it is of magnitude below 2^53 as they
    are, is computed exactly. *)
Lemma add_of_int (a b : Z) :
  Z.abs a < 2 ^ 53 -> Z.abs b < 2 ^ 53 -> Z.abs (a + b) < 2 ^ 53 ->
  (of_int a + of_int b)%float = of_int (a + b).
Proof.
  intros Ha Hb Hab. apply number_eq.
  rewrite FloatAxioms.add_spec, (Prim2SF_of_int_value (a + b) Hab).
  unfold SF64add.
  destruct (Z.eq_dec a 0) as [->|Ha0]; [|destruct (Z.eq_dec b 0) as [->|Hb0]].
  - change (Prim2SF (of_int 0)) with (S754_zero false). rewrite Z.add_0_l.
    destruct (Z.eq_dec b 0) as [->|Hb0]; [reflexivity|].
    rewrite <- (Prim2SF_of_int_value b Hb).
    destruct (Prim2SF_of_int b Hb0 Hb) as (mb & eb & _ & _ & -> & _).
    reflexivity.
  - change (Prim2SF (of_int 0)) with (S754_zero false). rewrite Z.add_0_r.
    rewrite <- (Prim2SF_of_int_value a Ha).
    destruct (Prim2SF_of_int a Ha0 Ha) as (ma & ea & _ & _ & -> & _).
    reflexivity.
  - destruct (Prim2SF_of_int a Ha0 Ha) as (ma & ea & Hea & Hma & -> & _).
    destruct (Prim2SF_of_int b Hb0 Hb) as (mb & eb & Heb & Hmb & -> & _).
    cbn [SFadd].
    rewrite !shl_align_value by lia. rewrite Hma, Hmb.
    set (ez := Z.min ea eb).
    assert (Hez : ez <= 0) by (unfold ez; lia).
    rewrite <- !Z.mul_assoc, <- !Z.pow_add_r by (unfold ez; lia).
    replace (- ea + (ea - ez)) with (- ez) by lia.
    replace (- eb + (eb - ez)) with (- ez) by lia.
    rewrite !cond_Zopp_abs, <- Z.mul_add_distr_r.
    rewrite <- (Z.opp_involutive ez) at 2.
    apply binary_normalize_shifted; lia.
Qed.

(** So is their difference. *)
Lemma sub_of_int (a b : Z) :
  Z.abs a < 2 ^ 53 -> Z.abs b < 2 ^ 53 -> Z.abs (a - b) < 2 ^ 53 ->
  (of_int a - of_int b)%float = of_int (a - b).
Proof.
  intros Ha Hb Hab. apply number_eq.
  rewrite FloatAxioms.sub_spec, (Prim2SF_of_int_value (a - b) Hab).
  unfold SF64sub.
  destruct (Z.eq_dec b 0) as [->|Hb0]; [|destruct (Z.eq_dec a 0) as [->|Ha0]].
  - change (Prim2SF (of_int 0)) with (S754_zero false). rewrite Z.sub_0_r.
    destruct (Z.eq_dec a 0) as [->|Ha0]; [reflexivity|].
    rewrite <- (Prim2SF_of_int_value a Ha).
    destruct (Prim2SF_of_int a Ha0 Ha) as (ma & ea & _ & _ & -> & _).
    reflexivity.
  - change (Prim2SF (of_int 0)) with (S754_zero false). rewrite Z.sub_0_l.
    assert (Hnb : Z.abs (- b) < 2 ^ 53) by lia.
    rewrite <- (Prim2SF_of_int_value (- b) Hnb).
    destruct (Prim2SF_of_int b Hb0 Hb) as (mb & eb & _ & _ & -> & ->).
    reflexivity.
  - destruct (Prim2SF_of_int a Ha0 Ha) as (ma & ea & Hea & Hma & -> & _).
    destruct (Prim2SF_of_int b Hb0 Hb) as (mb & eb & Heb & Hmb & -> & _).
    cbn [SFsub].
    rewrite !shl_align_value by lia. rewrite Hma, Hmb.
    set (ez := Z.min ea eb).
    assert (Hez : ez <= 0) by (unfold ez; lia).
    rewrite <- !Z.mul_assoc, <- !Z.pow_add_r by (unfold ez; lia).
    replace (- ea + (ea - ez)) with (- ez) by lia.
    replace (- eb + (eb - ez)) with (- ez) by lia.
    rewrite !cond_Zopp_abs, <- Z.mul_sub_distr_r.
    rewrite <- (Z.opp_involutive ez) at 2.
    apply binary_normalize_shifted; lia.
Qed.

Lemma of_nat_of_int (n : nat) : of_nat n = of_int (Z.of_nat n).
Proof. reflexivity. Qed.

(** A positive integer is not below 1. *)
Lemma of_nat_not_below_one (n : nat) :
  (1 <= n)%nat -> Z.of_nat n < 2 ^ 53 -> (of_nat n <? 1)%float = false.
Proof.
  intros H1 Hn.
  destruct (Prim2SF_of_nat n ltac:(lia)) as (m & e & Hsf & He & Hm).
  pose proof (Prim2SF_valid (of_nat n)) as Hv. rewrite Hsf in Hv.
  apply valid_finite in Hv as [Hcan _].
  destruct (digits_bound m) as [_ Hhi].
  set (d := Zpos (digits2_pos m)) in *.
  assert (Hp : 0 < 2 ^ (- e)) by (apply Z.pow_pos_nonneg; lia).
  assert (Hge : -52 <= e).
  { destruct (Z.le_gt_cases (-52) e) as [|Hlt]; [assumption|exfalso].
    assert (Hd : 1 <= d <= 53) by (unfold d; lia).
    assert (2 ^ d <= 2 ^ 53) by (apply Z.pow_le_mono_r; lia).
    assert (2 ^ 53 <= 2 ^ (- e)) by (apply Z.pow_le_mono_r; lia).
    assert (2 ^ (- e) <= Z.of_nat n * 2 ^ (- e)) by nia.
    lia. }
  rewrite FloatAxioms.ltb_spec, Hsf.
  change (Prim2SF 1) with (S754_finite false 4503599627370496 (-52)).
  unfold SFltb. cbn [SFcompare].
  destruct (Z.compare_spec e (-52)) as [Heq|Hlt|Hgt]; [|lia|reflexivity].
  rewrite Pos.compare_cont_spec.
  destruct (Pos.compare m 4503599627370496) eqn:Hcmp; try reflexivity.
  exfalso.
  pose proof (Pos2Z.pos_lt_pos _ _
                (proj1 (Pos.compare_lt_iff m 4503599627370496) Hcmp)) as Hlt.
  clear Hcmp. subst e. change (- -52) with 52 in *.
  change (2 ^ 52) with 4503599627370496 in *. lia.
Qed.

(** *** Exact quotients *)

Lemma binary_round_aux_shifted (s : bool) (q r : positive) (K : Z) :
  0 <= K -> Zpos q < 2 ^ 53 -> Zpos r = Zpos q * 2 ^ K ->
  - K <= Zpos (digits2_pos q) - 53 ->
  binary_round_aux prec emax s (Zpos r) (- K) loc_Exact
  = binary_round prec emax s q 0.
Proof.
  intros HK Hq Hr Hbits.
  rewrite <- (binary_round_shifted s q r K HK Hq Hr).
  unfold binary_round, shl_align.
  rewrite fexp_unfold, (digits_shifted q r K HK Hr).
  assert (Hd : 1 <= Zpos (digits2_pos q)) by lia.
  destruct (Z.max (Zpos (digits2_pos q) + K + - K - 53) (-1074) - - K)
    as [|p|p] eqn:Hp; try reflexivity.
  lia.
Qed.

Lemma Prim2SF_of_pos (p : positive) :
  Zpos p < 2 ^ 53 ->
  exists m : positive,
    Prim2SF (of_int (Zpos p))
    = S754_finite false m (Zpos (digits2_pos p) - 53)
    /\ Zpos m = Zpos p * 2 ^ (53 - Zpos (digits2_pos p))
    /\ Zpos (digits2_pos m) = 53.
Proof.
  intros Hp.
  assert (Hd : Zpos (digits2_pos p) <= 53) by (apply digits_le; lia).
  destruct (binary_round_exact false p 0 (Zpos (digits2_pos p) - 53))
    as (m & Hround & Hvalid & Hm).
  { rewrite fexp_unfold. lia. }
  { lia. }
  { change (emax - prec) with 971. lia. }
  exists m. unfold of_int. cbn [binary_normalize].
  rewrite Hround, (Prim2SF_SF2Prim _ Hvalid).
  replace (0 - (Zpos (digits2_pos p) - 53)) with (53 - Zpos (digits2_pos p))
    in Hm by lia.
  split; [reflexivity|]. split; [exact Hm|].
  rewrite (digits_shifted p m (53 - Zpos (digits2_pos p))) by (lia || exact Hm).
  lia.
Qed.

(** A product of two positive integers, below 2^53, divided by one of
    them is the other, exactly. *)
Lemma div_of_pos_exact (n l : positive) :
  Zpos n * Zpos l < 2 ^ 53 ->
  (of_int (Zpos n * Zpos l) / of_int (Zpos n))%float = of_int (Zpos l).
Proof.
  intros Hnl.
  assert (Hn : Zpos n < 2 ^ 53) by nia.
  assert (Hl : Zpos l < 2 ^ 53) by nia.
  apply number_eq.
  rewrite FloatAxioms.div_spec, (Prim2SF_of_int_value (Zpos l)) by lia.
  change (Zpos n * Zpos l) with (Zpos (n * l)) in *.
  destruct (Prim2SF_of_pos (n * l) Hnl) as (m1 & -> & Hm1 & Hd1).
  destruct (Prim2SF_of_pos n Hn) as (m2 & -> & Hm2 & Hd2).
  set (dn := Zpos (digits2_pos n)) in *.
  set (dl := Zpos (digits2_pos l)) in *.
  set (dp := Zpos (digits2_pos (n * l))) in *.
  assert (Hdn : 1 <= dn <= 53) by (unfold dn; split; [lia|apply digits_le; lia]).
  assert (Hdl : 1 <= dl <= 53) by (unfold dl; split; [lia|apply digits_le; lia]).
  assert (Hdp : 1 <= dp <= 53) by (unfold dp; split; [lia|apply digits_le; lia]).
  assert (Hdigits : dn <= dp <= dn + dl).
  { destruct (digits_bound n) as [Nlo Nhi]. destruct (digits_bound l) as [Llo Lhi].
    destruct (digits_bound (n * l)) as [Plo Phi].
    fold dn in Nlo, Nhi. fold dl in Llo, Lhi. fold dp in Plo, Phi.
    rewrite Pos2Z.inj_mul in Plo, Phi. split.
    - destruct (Z.le_gt_cases dn dp) as [|Hgt]; [assumption|exfalso].
      assert (2 ^ dp <= 2 ^ (dn - 1)) by (apply Z.pow_le_mono_r; lia). nia.
    - unfold dp. apply digits_le; [|lia]. rewrite Pos2Z.inj_mul.
      rewrite Z.pow_add_r by lia.
      assert (0 < 2 ^ dn) by (apply Z.pow_pos_nonneg; lia).
      assert (0 < 2 ^ dl) by (apply Z.pow_pos_nonneg; lia). nia. }
  unfold SF64div. cbn [SFdiv xorb]. unfold SFdiv_core_binary.
  cbn [Zdigits2]. rewrite Hd1, Hd2, fexp_unfold.
  replace (Z.min (Z.max (53 + (dp - 53) - (53 + (dn - 53)) - 53) (-1074))
             (dp - 53 - (dn - 53)))
    with (- (53 - (dp - dn))) by lia.
  replace (dp - 53 - (dn - 53) - - (53 - (dp - dn))) with 53 by lia.
  rewrite Z.shiftl_mul_pow2, div_eucl_eq by lia.
  set (K := 53 - (dp - dn)).
  assert (HK : 0 <= K) by (unfold K; lia).
  assert (Hquot : Zpos m1 * 2 ^ 53 = Zpos l * 2 ^ K * Zpos m2).
  { rewrite Hm1, Hm2, Pos2Z.inj_mul.
    replace 53 with (K + (dp - dn)) at 2 by (unfold K; lia).
    replace (53 - dn) with ((53 - dp) + (dp - dn)) by lia.
    rewrite !Z.pow_add_r by lia. ring. }
  rewrite Hquot, Z.div_mul, Z.mod_mul by lia.
  replace (new_location (Zpos m2) 0) with loc_Exact
    by (unfold new_location, new_location_even, new_location_odd;
        now destruct (Z.even (Zpos m2))).
  assert (HP : 0 < 2 ^ K) by (apply Z.pow_pos_nonneg; lia).
  destruct (Zpos l * 2 ^ K) as [|r|r] eqn:Hr; try lia.
  cbn [binary_normalize].
  apply binary_round_aux_shifted; [exact HK|exact Hl|now rewrite Hr|].
  fold dl. unfold K. lia.
Qed.

(** *** Products *)

(** The bit that decides the rounding, after [p] bits are dropped. *)
Lemma iter_shr_1_r (p : positive) :
  forall x : shr_record,
    0 <= shr_m x ->
    shr_r (iter_pos shr_1 p x) = Z.odd (shr_m x / 2 ^ (Zpos p - 1)).
Proof.
  assert (Hone : forall x, 0 <= shr_m x -> shr_r (shr_1 x) = Z.odd (shr_m x)).
  { intros [m r s]. cbn [shr_m shr_1].
    destruct m as [|[q|q|]|q]; intros H; try reflexivity; lia. }
  induction p as [p IH|p IH|]; intros x Hx; cbn [iter_pos].
  - assert (Hp : 0 < 2 ^ Zpos p) by (apply Z.pow_pos_nonneg; lia).
    assert (Hq : 0 < 2 ^ (Zpos p - 1)) by (apply Z.pow_pos_nonneg; lia).
    rewrite IH by auto using iter_shr_1_nonneg, shr_1_nonneg.
    rewrite iter_shr_1_m, shr_1_m by auto using shr_1_nonneg.
    rewrite !Z.div_div by lia. f_equal. f_equal.
    replace (Zpos p~1 - 1) with (1 + Zpos p + (Zpos p - 1)) by lia.
    rewrite !Z.pow_add_r by lia. change (2 ^ 1) with 2. ring.
  - assert (Hp : 0 < 2 ^ Zpos p) by (apply Z.pow_pos_nonneg; lia).
    assert (Hq : 0 < 2 ^ (Zpos p - 1)) by (apply Z.pow_pos_nonneg; lia).
    rewrite IH by auto using iter_shr_1_nonneg.
    rewrite iter_shr_1_m by assumption.
    rewrite Z.div_div by lia. f_equal. f_equal.
    replace (Zpos p~0 - 1) with (Zpos p + (Zpos p - 1)) by lia.
    rewrite Z.pow_add_r by lia. ring.
  - rewrite Hone by assumption. now rewrite Z.div_1_r.
Qed.

(** Without that bit no rounding up takes place. *)
Lemma round_without_r (x : shr_record) :
  shr_r x = false -> round_nearest_even (shr_m x) (loc_of_shr_record x) = shr_m x.
Proof. destruct x as [m r [|]]; cbn; intros ->; reflexivity. Qed.

Lemma round_at_most_one_up (m : Z) (l : location) :
  round_nearest_even m l <= m + 1.
Proof.
  destruct l as [|[]]; cbn [round_nearest_even]; try lia.
  destruct (Z.even m); lia.
Qed.

Lemma odd_quotient_remainder (m p : Z) :
  0 <= m -> 1 <= p -> Z.odd (m / 2 ^ (p - 1)) = true ->
  2 ^ (p - 1) <= m mod 2 ^ p.
Proof.
  intros Hm Hp Hodd.
  assert (Ha : 0 < 2 ^ (p - 1)) by (apply Z.pow_pos_nonneg; lia).
  replace (2 ^ p) with (2 * 2 ^ (p - 1))
    by (rewrite <- Z.pow_succ_r by lia; f_equal; lia).
  set (a := 2 ^ (p - 1)) in *.
  pose proof (Z.div_mod m a ltac:(lia)) as Hdm.
  pose proof (Z.mod_pos_bound m a Ha) as Hrem.
  apply Z.odd_spec in Hodd. destruct Hodd as [q Hq].
  assert (Hmod : a + m mod a = m mod (2 * a))
    by (apply (Z.mod_unique m (2 * a) q); nia).
  rewrite <- Hmod. lia.
Qed.

Lemma shr_fexp_m (m e : Z) (l : location) :
  0 <= m ->
  exists p : Z,
    0 <= p
    /\ snd (shr_fexp prec emax m e l) = e + p
    /\ shr_m (fst (shr_fexp prec emax m e l)) = m / 2 ^ p
    /\ (p = 0 \/ e + p = fexp prec emax (Zdigits2 m + e)).
Proof.
  intros Hm. unfold shr_fexp, shr.
  destruct (fexp prec emax (Zdigits2 m + e) - e) as [|p|p] eqn:Hp; cbn [fst snd].
  - exists 0. rewrite shr_record_of_loc_m, Z.div_1_r. repeat split; auto; lia.
  - exists (Zpos p).
    rewrite iter_shr_1_m, shr_record_of_loc_m
      by (rewrite shr_record_of_loc_m; exact Hm).
    repeat split; lia.
  - exists 0. rewrite shr_record_of_loc_m, Z.div_1_r. repeat split; auto; lia.
Qed.

(** What is dropped first from an exact value. *)
Lemma shr_fexp_of_exact (m : positive) (e : Z) :
  let sh := fexp prec emax (Zpos (digits2_pos m) + e) - e in
  (sh <= 0
   /\ shr_fexp prec emax (Zpos m) e loc_Exact
      = ({| shr_m := Zpos m; shr_r := false; shr_s := false |}, e))
  \/ (0 < sh
      /\ snd (shr_fexp prec emax (Zpos m) e loc_Exact) = e + sh
      /\ shr_m (fst (shr_fexp prec emax (Zpos m) e loc_Exact)) = Zpos m / 2 ^ sh
      /\ shr_r (fst (shr_fexp prec emax (Zpos m) e loc_Exact))
         = Z.odd (Zpos m / 2 ^ (sh - 1))).
Proof.
  cbv zeta. unfold shr_fexp, shr. cbn [Zdigits2 shr_record_of_loc].
  destruct (fexp prec emax (Zpos (digits2_pos m) + e) - e) as [|p|p];
    cbn [fst snd].
  - left. split; [lia|reflexivity].
  - right. split; [lia|]. split; [reflexivity|].
    rewrite iter_shr_1_m, iter_shr_1_r by (cbn [shr_m]; lia).
    split; reflexivity.
  - left. split; [lia|reflexivity].
Qed.

(** A bound on what is rounded is a bound on the result. *)
Lemma binary_round_aux_below (m e : Z) (l : location) (B : Z) :
  0 <= m ->
  let mrs := fst (shr_fexp prec emax m e l) in
  let e' := snd (shr_fexp prec emax m e l) in
  let m'' := round_nearest_even (shr_m mrs) (loc_of_shr_record mrs) in
  e' <= -1 -> m'' <= 2 ^ 53 -> m'' < B * 2 ^ (- e') ->
  match binary_round_aux prec emax false m e l with
  | S754_zero _ => True
  | S754_finite false mr er => er <= 0 /\ Zpos mr < B * 2 ^ (- er)
  | _ => False
  end.
Proof.
  intros Hm. cbv zeta. unfold binary_round_aux.
  pose proof (shr_fexp_nonneg m e l Hm) as Hnn.
  destruct (shr_fexp prec emax m e l) as [mrs e']. cbn [fst snd] in *.
  intros He' Hsize Hbound.
  set (m'' := round_nearest_even (shr_m mrs) (loc_of_shr_record mrs)) in *.
  assert (Hm'' : 0 <= m'') by (apply round_nearest_even_nonneg, Hnn).
  destruct (shr_fexp_m m'' e' loc_Exact Hm'') as (p & Hp & Hsnd & Hfst & Hcase).
  destruct (shr_fexp prec emax m'' e' loc_Exact) as [mrs2 e2].
  cbn [fst snd] in *. subst e2. rewrite Hfst.
  assert (Hpow : 0 < 2 ^ p) by (apply Z.pow_pos_nonneg; lia).
  assert (Her : e' + p <= 0).
  { destruct Hcase as [Hc|Hc]; [lia|]. rewrite Hc, fexp_unfold.
    assert (Zdigits2 m'' <= 54); [|lia].
    destruct m'' as [|q|q]; cbn [Zdigits2]; try lia.
    apply digits_le; [|lia].
    apply Z.le_lt_trans with (2 ^ 53); [exact Hsize|].
    apply Z.pow_lt_mono_r; lia. }
  pose proof (Z.mul_div_le m'' (2 ^ p) Hpow) as Hq.
  pose proof (Z.div_pos m'' (2 ^ p) Hm'' Hpow) as Hq0.
  destruct (m'' / 2 ^ p) as [|mr|mr] eqn:Hmr; [exact I| |lia].
  replace (e' + p <=? emax - prec) with true
    by (symmetry; apply Z.leb_le; change (emax - prec) with 971; lia).
  split; [exact Her|].
  replace (- e') with (- (e' + p) + p) in Hbound by lia.
  rewrite Z.pow_add_r in Hbound by lia.
  apply (Z.mul_lt_mono_pos_r (2 ^ p)); [exact Hpow|].
  rewrite <- Z.mul_assoc. lia.
Qed.

(** A positive number below 1. *)
Lemma below_one (t : number) (m : positive) (e : Z) :
  Prim2SF t = S754_finite false m e -> (t <? 1)%float = true ->
  e <= -53 /\ Zpos m < 2 ^ 53.
Proof.
  intros Hsf Hlt.
  pose proof (Prim2SF_valid t) as Hv. rewrite Hsf in Hv.
  apply valid_finite in Hv as [Hcan Hmax].
  destruct (digits_bound m) as [Hlo Hhi].
  set (d := Zpos (digits2_pos m)) in *.
  assert (Hd : 1 <= d <= 53) by (unfold d; lia).
  assert (Hm : Zpos m < 2 ^ 53).
  { apply Z.lt_le_trans with (2 ^ d); [exact Hhi|].
    apply Z.pow_le_mono_r; lia. }
  split; [|exact Hm].
  rewrite FloatAxioms.ltb_spec, Hsf in Hlt.
  change (Prim2SF 1) with (S754_finite false 4503599627370496 (-52)) in Hlt.
  unfold SFltb in Hlt. cbn [SFcompare] in Hlt.
  destruct (Z.compare_spec e (-52)) as [Heq|Hless|Hgt]; try discriminate; [|lia].
  exfalso. subst e.
  assert (d = 53) by lia.
  destruct (Pos.compare_cont Eq m 4503599627370496) eqn:Hc; try discriminate.
  rewrite Pos.compare_cont_spec in Hc.
  destruct (Pos.compare m 4503599627370496) eqn:Hcmp; try discriminate.
  pose proof (Pos2Z.pos_lt_pos _ _
                (proj1 (Pos.compare_lt_iff m 4503599627370496) Hcmp)) as Hm'.
  clear Hc Hcmp Hlt.
  replace (d - 1) with 52 in Hlo by lia.
  change (2 ^ 52) with 4503599627370496 in Hlo. lia.
Qed.

(** A positive number below 1, times 500, rounds to a number below
    500. *)
Lemma times_500_below (m : positive) (e : Z) :
  e <= -53 -> Zpos m < 2 ^ 53 ->
  match binary_round_aux prec emax false (Zpos (m * 8796093022208000))
          (e + -44) loc_Exact with
  | S754_zero _ => True
  | S754_finite false mr er => er <= 0 /\ Zpos mr < 500 * 2 ^ (- er)
  | _ => False
  end.
Proof.
  intros He Hm.
  assert (HP : Zpos (m * 8796093022208000) = Zpos m * (500 * 2 ^ 44))
    by (rewrite Pos2Z.inj_mul; reflexivity).
  assert (Hpe : 2 ^ 53 <= 2 ^ (- e)) by (apply Z.pow_le_mono_r; lia).
  assert (Hpe0 : 2 ^ (- (e + -44)) = 2 ^ 44 * 2 ^ (- e)).
  { replace (- (e + -44)) with (44 + - e) by lia. apply Z.pow_add_r; lia. }
  destruct (digits_bound (m * 8796093022208000)) as [Dlo Dhi].
  assert (HdP : Zpos (digits2_pos (m * 8796093022208000)) <= 106).
  { apply digits_le; [|lia]. rewrite HP.
    replace 106 with (53 + 53) by lia. rewrite Z.pow_add_r by lia.
    assert (500 * 2 ^ 44 < 2 ^ 53) by reflexivity. nia. }
  set (P := Zpos (m * 8796093022208000)) in *.
  set (dP := Zpos (digits2_pos (m * 8796093022208000))) in *.
  assert (HdP1 : 1 <= dP) by (unfold dP; lia).
  apply binary_round_aux_below; [unfold P; lia|..]; cbv zeta;
    destruct (shr_fexp_of_exact (m * 8796093022208000) (e + -44))
      as [[Hsh Heq]|(Hsh & Hsnd & Hfst & Hr)];
    fold P dP in Hsh, Heq || fold P dP in Hsh, Hsnd, Hfst, Hr.
  - rewrite Heq. cbn [snd]. lia.
  - rewrite Hsnd, fexp_unfold. fold dP. lia.
  - rewrite fexp_unfold in Hsh.
    rewrite Heq. cbn [fst shr_m loc_of_shr_record round_nearest_even].
    assert (2 ^ dP <= 2 ^ 53) by (apply Z.pow_le_mono_r; lia). lia.
  - set (sh := fexp prec emax (dP + (e + -44)) - (e + -44)) in *.
    assert (Hpow : 0 < 2 ^ sh) by (apply Z.pow_pos_nonneg; lia).
    pose proof (round_at_most_one_up
                  (shr_m (fst (shr_fexp prec emax P (e + -44) loc_Exact)))
                  (loc_of_shr_record
                     (fst (shr_fexp prec emax P (e + -44) loc_Exact)))) as Hup.
    rewrite Hfst in Hup |- *.
    assert (P / 2 ^ sh < 2 ^ 53); [|lia].
    apply Z.div_lt_upper_bound; [exact Hpow|].
    rewrite <- Z.pow_add_r by lia.
    apply Z.lt_le_trans with (2 ^ dP); [exact Dhi|].
    apply Z.pow_le_mono_r; [lia|]. unfold sh. rewrite fexp_unfold. lia.
  - rewrite Heq. cbn [fst snd shr_m loc_of_shr_record round_nearest_even].
    rewrite Hpe0, HP.
    assert (0 < 2 ^ 44) by reflexivity. nia.
  - set (sh := fexp prec emax (dP + (e + -44)) - (e + -44)) in *.
    assert (Hpow : 0 < 2 ^ sh) by (apply Z.pow_pos_nonneg; lia).
    set (mrs := fst (shr_fexp prec emax P (e + -44) loc_Exact)) in *.
    pose proof (round_at_most_one_up (shr_m mrs) (loc_of_shr_record mrs)) as Hup.
    rewrite Hsnd. rewrite Hfst in Hup |- *.
    assert (Hm' : P / 2 ^ sh < 2 ^ 53).
    { apply Z.div_lt_upper_bound; [exact Hpow|].
      rewrite <- Z.pow_add_r by lia.
      apply Z.lt_le_trans with (2 ^ dP); [exact Dhi|].
      apply Z.pow_le_mono_r; [lia|]. unfold sh. rewrite fexp_unfold. lia. }
    assert (He' : e + -44 + sh = Z.max (dP + (e + -44) - 53) (-1074))
      by (unfold sh; rewrite fexp_unfold; lia).
    destruct (Z.le_gt_cases (e + -44 + sh) (-45)) as [Hlow|Hhigh].
    + assert (2 ^ 45 <= 2 ^ (- (e + -44 + sh)))
        by (apply Z.pow_le_mono_r; lia).
      assert (2 ^ 53 < 500 * 2 ^ 45) by reflexivity. nia.
    + assert (Hex : e = -53) by lia.
      assert (Hs53 : sh = 53) by lia.
      replace (- (e + -44 + sh)) with 44 by lia.
      rewrite Hs53 in *. clear Hpe Hpe0 He' Hhigh.
      assert (Hq : P / 2 ^ 53 < 500 * 2 ^ 44).
      { apply Z.div_lt_upper_bound; [exact Hpow|]. rewrite HP. nia. }
      destruct (Z.eq_dec (P / 2 ^ 53) (500 * 2 ^ 44 - 1)) as [Hlast|Hnot]; [|lia].
      destruct (shr_r mrs) eqn:Hbit.
      * exfalso. symmetry in Hr.
        replace (53 - 1) with 52 in Hr by lia.
        pose proof (odd_quotient_remainder P 53 ltac:(unfold P; lia) ltac:(lia))
          as Hodd.
        replace (53 - 1) with 52 in Hodd by lia.
        specialize (Hodd Hr).
        pose proof (Z.div_mod P (2 ^ 53) ltac:(lia)) as Hdm.
        rewrite Hlast in Hdm.
        assert (P <= (2 ^ 53 - 1) * (500 * 2 ^ 44)).
        { rewrite HP. apply Z.mul_le_mono_nonneg_r; lia. }
        change (2 ^ 53) with 9007199254740992 in *.
        change (2 ^ 52) with 4503599627370496 in *.
        change (2 ^ 44) with 17592186044416 in *. lia.
      * pose proof (round_without_r mrs Hbit) as Hsame.
        rewrite Hfst in Hsame. rewrite Hsame. lia.
Qed.

(** [Math.floor(x * 500)] for [0 <= x < 1] is one of 0, ..., 499. *)
Lemma floor_times_500 (x : number) :
  nonneg x = true -> (x <? 1)%float = true ->
  exists z : Z, 0 <= z <= 499 /\ floor (x * 500)%float = Fin z.
Proof.
  intros Hnn Hlt. unfold floor. rewrite FloatAxioms.mul_spec.
  change (Prim2SF 500) with (S754_finite false 8796093022208000 (-44)).
  unfold nonneg in Hnn.
  destruct (Prim2SF x) as [s|[|]| |[|] m e] eqn:Hsf; try discriminate.
  - exists 0. split; [lia|reflexivity].
  - rewrite FloatAxioms.ltb_spec, Hsf in Hlt. discriminate.
  - destruct (below_one x m e Hsf Hlt) as [He Hm].
    unfold SF64mul. cbn [SFmul xorb].
    pose proof (times_500_below m e He Hm) as Hb.
    destruct (binary_round_aux prec emax false (Zpos (m * 8796093022208000))
                (e + -44) loc_Exact) as [s|s| |[|] mr er]; try contradiction.
    + exists 0. split; [lia|reflexivity].
    + destruct Hb as [Her Hmr].
      assert (Hpow : 0 < 2 ^ (- er)) by (apply Z.pow_pos_nonneg; lia).
      exists (Zpos mr / 2 ^ (- er)). split.
      * split; [apply Z.div_pos; lia|].
        assert (Zpos mr / 2 ^ (- er) < 500); [|lia].
        apply Z.div_lt_upper_bound; lia.
      * f_equal. rewrite <- (Z.opp_involutive er) at 1.
        rewrite Z.shiftl_opp_r. apply Z.shiftr_div_pow2. lia.
Qed.

(** *** Quotients and their sum *)

Lemma new_location_spec (n r : Z) :
  0 < n -> 0 <= r < n ->
  match new_location n r with
  | loc_Exact => r = 0
  | loc_Inexact Lt => 0 < r /\ 2 * r < n
  | loc_Inexact Eq => 2 * r = n
  | loc_Inexact Gt => n < 2 * r
  end.
Proof.
  intros Hn Hr. unfold new_location, new_location_even, new_location_odd.
  destruct (Z.even n) eqn:Heven; destruct (Z.eqb_spec r 0) as [H0|H0];
    try exact H0.
  - destruct (Z.compare_spec (2 * r) n); lia.
  - assert (Hodd : Z.odd n = true) by (rewrite <- Z.negb_even, Heven; reflexivity).
    apply Z.odd_spec in Hodd. destruct Hodd as [k Hk].
    destruct (Z.compare_spec (2 * r + 1) n); lia.
Qed.

Lemma loc_of_shr_record_of_loc (m : Z) (l : location) :
  loc_of_shr_record (shr_record_of_loc m l) = l.
Proof. destruct l as [|[]]; reflexivity. Qed.

(** Rounding a quotient [q + r/n] that needs no shift. *)
Lemma round_nearest_even_quotient (q n r : Z) :
  0 < n -> 0 <= r < n ->
  let m := round_nearest_even q (new_location n r) in
  q <= m <= q + 1 /\ - n <= 2 * (m * n - (q * n + r)) <= n.
Proof.
  intros Hn Hr. cbv zeta.
  pose proof (new_location_spec n r Hn Hr) as Hloc.
  destruct (new_location n r) as [|[]]; cbn [round_nearest_even];
    try destruct (Z.even q); lia.
Qed.

(** Rounding a quotient [q + r/n] after one bit is dropped. *)
Lemma round_nearest_even_shifted (q : positive) (n r : Z) :
  0 < n -> 0 <= r < n ->
  let mrs := shr_1 (shr_record_of_loc (Zpos q) (new_location n r)) in
  let m := round_nearest_even (shr_m mrs) (loc_of_shr_record mrs) in
  Zpos q - 1 <= 2 * m <= Zpos q + 2
  /\ - (2 * n) <= 2 * (m * 2 * n - (Zpos q * n + r)) <= 2 * n.
Proof.
  intros Hn Hr. cbv zeta.
  pose proof (new_location_spec n r Hn Hr) as Hloc.
  destruct (new_location n r) as [|[]]; destruct q as [q|q|];
    cbn [shr_record_of_loc shr_1 orb shr_m loc_of_shr_record round_nearest_even];
    try match goal with |- context [Z.even ?x] => destruct (Z.even x) end;
    lia.
Qed.

(** What is left of [binary_round_aux] once the mantissa is rounded. *)
Lemma rounded_mantissa (m e : Z) :
  2 ^ 52 <= m <= 2 ^ 53 -> -1074 <= e <= 960 ->
  exists (mr : positive) (p : Z),
    (let '(mrs, e') := shr_fexp prec emax m e loc_Exact in
     match shr_m mrs with
     | 0 => S754_zero false
     | Zpos mz => if e' <=? emax - prec then S754_finite false mz e'
                  else S754_infinity false
     | Zneg _ => S754_nan
     end) = S754_finite false mr (e + p)
    /\ 0 <= p <= 1 /\ Zpos mr * 2 ^ p = m
    /\ Zpos (digits2_pos mr) = 53.
Proof.
  intros Hm He.
  destruct m as [|m|m]; try lia.
  destruct (Z.eq_dec (Zpos m) (2 ^ 53)) as [Heq|Hne].
  - injection Heq as ->. exists 4503599627370496%positive, 1.
    unfold shr_fexp, shr.
    change (Zdigits2 9007199254740992) with 54. rewrite fexp_unfold.
    replace (Z.max (54 + e - 53) (-1074) - e) with 1 by lia.
    cbn [shr_record_of_loc iter_pos shr_1 shr_m].
    replace (e + 1 <=? emax - prec) with true
      by (symmetry; apply Z.leb_le; change (emax - prec) with 971; lia).
    repeat split; lia.
  - exists m, 0.
    assert (Hd : Zpos (digits2_pos m) = 53) by (apply digits_unique; lia).
    unfold shr_fexp, shr. cbn [Zdigits2]. rewrite Hd, fexp_unfold.
    replace (Z.max (53 + e - 53) (-1074) - e) with 0 by lia.
    cbn [shr_record_of_loc shr_m].
    replace (e <=? emax - prec) with true
      by (symmetry; apply Z.leb_le; change (emax - prec) with 971; lia).
    rewrite Z.add_0_r. repeat split; lia.
Qed.

(** A quotient of 53 or 54 bits with its remainder is rounded to a
    nearest number of 53 bits. *)
Lemma round_quotient (q : positive) (e n r : Z) :
  2 ^ 52 <= Zpos q < 2 ^ 54 -> -1074 <= e <= 900 -> 0 < n -> 0 <= r < n ->
  exists (m : positive) (p : Z),
    binary_round_aux prec emax false (Zpos q) e (new_location n r)
    = S754_finite false m (e + p)
    /\ 0 <= p <= 2
    /\ Zpos (digits2_pos m) = 53
    /\ - (2 ^ p * n) <= 2 * (Zpos m * 2 ^ p * n - (Zpos q * n + r)) <= 2 ^ p * n.
Proof.
  intros Hq He Hn Hr. unfold binary_round_aux.
  destruct (Z.lt_ge_cases (Zpos q) (2 ^ 53)) as [Hsmall|Hbig].
  - assert (Hd : Zpos (digits2_pos q) = 53) by (apply digits_unique; lia).
    unfold shr_fexp at 1. unfold shr at 1. cbn [Zdigits2].
    rewrite Hd, fexp_unfold.
    replace (Z.max (53 + e - 53) (-1074) - e) with 0 by lia.
    cbv beta iota.
    rewrite shr_record_of_loc_m, loc_of_shr_record_of_loc.
    destruct (round_nearest_even_quotient (Zpos q) n r Hn Hr) as [Hm Herr].
    set (m'' := round_nearest_even (Zpos q) (new_location n r)) in *.
    destruct (rounded_mantissa m'' e) as (mr & p & Heq & Hp & Hval & Hdig);
      [lia|lia|].
    rewrite Heq. exists mr, p.
    split; [reflexivity|]. split; [lia|]. split; [exact Hdig|].
    assert (Hcase : p = 0 \/ p = 1) by lia.
    destruct Hcase as [Hc|Hc]; rewrite Hc in *.
    + change (2 ^ 0) with 1 in *. lia.
    + change (2 ^ 1) with 2 in *. lia.
  - assert (Hd : Zpos (digits2_pos q) = 54) by (apply digits_unique; lia).
    unfold shr_fexp at 1. unfold shr at 1. cbn [Zdigits2].
    rewrite Hd, fexp_unfold.
    replace (Z.max (54 + e - 53) (-1074) - e) with 1 by lia.
    cbv beta iota. cbn [iter_pos].
    destruct (round_nearest_even_shifted q n r Hn Hr) as [Hm Herr].
    set (mrs := shr_1 (shr_record_of_loc (Zpos q) (new_location n r))) in *.
    set (m'' := round_nearest_even (shr_m mrs) (loc_of_shr_record mrs)) in *.
    destruct (rounded_mantissa m'' (e + 1)) as (mr & p & Heq & Hp & Hval & Hdig);
      [lia|lia|].
    rewrite Heq. exists mr, (1 + p).
    split; [f_equal; lia|]. split; [lia|]. split; [exact Hdig|].
    assert (Hcase : p = 0 \/ p = 1) by lia.
    destruct Hcase as [Hc|Hc]; rewrite Hc in *.
    + change (2 ^ 0) with 1 in *. change (2 ^ (1 + 0)) with 2. lia.
    + change (2 ^ 1) with 2 in *. change (2 ^ (1 + 1)) with 4. lia.
Qed.

Lemma digits_mono (a n : positive) :
  Zpos a <= Zpos n -> Zpos (digits2_pos a) <= Zpos (digits2_pos n).
Proof.
  intros Han. apply digits_le; [|lia].
  destruct (digits_bound n). lia.
Qed.

(** The quotient of two positive integers below 2^53, the smaller by
    the larger, is within half a unit of its last place of the exact
    quotient. *)
Lemma div_nearest (a n : positive) :
  Zpos a < Zpos n < 2 ^ 53 ->
  exists (m : positive) (e : Z),
    Prim2SF (of_int (Zpos a) / of_int (Zpos n)) = S754_finite false m e
    /\ -110 <= e <= -51
    /\ Zpos (digits2_pos m) = 53
    /\ - Zpos n <= 2 * (Zpos m * Zpos n - Zpos a * 2 ^ (- e)) <= Zpos n.
Proof.
  intros [Han Hn].
  assert (Ha : Zpos a < 2 ^ 53) by lia.
  rewrite FloatAxioms.div_spec.
  destruct (Prim2SF_of_pos a Ha) as (m1 & -> & Hm1 & Hd1).
  destruct (Prim2SF_of_pos n Hn) as (m2 & -> & Hm2 & Hd2).
  pose proof (digits_mono a n ltac:(lia)) as Hmono.
  set (da := Zpos (digits2_pos a)) in *.
  set (dn := Zpos (digits2_pos n)) in *.
  assert (Hda : 1 <= da <= 53) by (unfold da; split; [lia|apply digits_le; lia]).
  assert (Hdn : 1 <= dn <= 53) by (unfold dn; split; [lia|apply digits_le; lia]).
  destruct (digits_bound m1) as [M1lo M1hi]. rewrite Hd1 in M1lo, M1hi.
  destruct (digits_bound m2) as [M2lo M2hi]. rewrite Hd2 in M2lo, M2hi.
  unfold SF64div. cbn [SFdiv xorb]. unfold SFdiv_core_binary.
  cbn [Zdigits2]. rewrite Hd1, Hd2, fexp_unfold.
  replace (Z.min (Z.max (53 + (da - 53) - (53 + (dn - 53)) - 53) (-1074))
             (da - 53 - (dn - 53)))
    with (da - dn - 53) by lia.
  replace (da - 53 - (dn - 53) - (da - dn - 53)) with 53 by lia.
  rewrite Z.shiftl_mul_pow2, div_eucl_eq by lia.
  pose proof (Z.div_mod (Zpos m1 * 2 ^ 53) (Zpos m2) ltac:(lia)) as Hdm.
  pose proof (Z.mod_pos_bound (Zpos m1 * 2 ^ 53) (Zpos m2) ltac:(lia)) as Hrem.
  set (q := Zpos m1 * 2 ^ 53 / Zpos m2) in *.
  set (r := (Zpos m1 * 2 ^ 53) mod Zpos m2) in *.
  assert (Hq : 2 ^ 52 <= q < 2 ^ 54).
  { change (2 ^ (53 - 1)) with (2 ^ 52) in *.
    change (2 ^ 54) with (2 * 2 ^ 53).
    set (P := 2 ^ 53) in *. set (Q := 2 ^ 52) in *.
    assert (HPQ : P = 2 * Q) by reflexivity.
    assert (HQ : 0 < Q) by reflexivity.
    split; nia. }
  destruct q as [|q|q]; try lia.
  destruct (round_quotient q (da - dn - 53) (Zpos m2) r Hq ltac:(lia) ltac:(lia) Hrem)
    as (m & p & Heq & Hp & Hdig & Herr).
  rewrite Heq. exists m, (da - dn - 53 + p).
  split; [reflexivity|]. split; [lia|]. split; [exact Hdig|].
  rewrite (Z.mul_comm (Zpos q)), <- Hdm in Herr.
  set (C := 2 ^ (53 - dn)) in *.
  assert (HC : 0 < C) by (apply Z.pow_pos_nonneg; lia).
  assert (HP : 0 < 2 ^ p) by (apply Z.pow_pos_nonneg; lia).
  set (K := 2 ^ p * C).
  assert (HK : 0 < K) by (apply Z.mul_pos_pos; assumption).
  assert (HT : Zpos m1 * 2 ^ 53 = Zpos a * 2 ^ (- (da - dn - 53 + p)) * K).
  { rewrite Hm1. unfold K, C. rewrite <- !Z.mul_assoc. f_equal.
    rewrite <- !Z.pow_add_r by lia. f_equal. lia. }
  rewrite HT, Hm2 in Herr.
  set (X := Zpos m * Zpos n) in *.
  set (Y := Zpos a * 2 ^ (- (da - dn - 53 + p))) in *.
  replace (Zpos m * 2 ^ p * (Zpos n * C)) with (X * K) in Herr
    by (unfold X, K; ring).
  replace (2 ^ p * (Zpos n * C)) with (Zpos n * K) in Herr by (unfold K; ring).
  split; apply (Z.mul_le_mono_pos_r _ _ K HK); lia.
Qed.

(** A value within [2^(j-1)] units of [2^(53+j)] units rounds to 1,
    the unit being [2^(-53-j)]. *)
Lemma round_near_one (M : positive) (j : Z) :
  1 <= j <= 60 ->
  - 2 ^ (j - 1) <= Zpos M - 2 ^ 53 * 2 ^ j <= 2 ^ (j - 1) ->
  binary_round prec emax false M (- 53 - j)
  = S754_finite false 4503599627370496 (-52).
Proof.
  intros Hj HD.
  assert (HH : 0 < 2 ^ (j - 1)) by (apply Z.pow_pos_nonneg; lia).
  assert (HJ : 2 ^ j = 2 * 2 ^ (j - 1)).
  { rewrite <- Z.pow_succ_r by lia. f_equal. lia. }
  assert (E53 : 2 ^ (53 + j) = 2 ^ 53 * 2 ^ j) by (apply Z.pow_add_r; lia).
  assert (E54 : 2 ^ (54 + j) = 2 * 2 ^ 53 * 2 ^ j).
  { replace (54 + j) with (1 + 53 + j) by lia.
    rewrite !Z.pow_add_r by lia. reflexivity. }
  assert (E52 : 2 ^ (52 + j) = 2 ^ 52 * 2 ^ j) by (apply Z.pow_add_r; lia).
  set (H := 2 ^ (j - 1)) in *. set (J := 2 ^ j) in *.
  assert (P53 : 2 ^ 53 = 9007199254740992) by reflexivity.
  assert (P52 : 2 ^ 52 = 4503599627370496) by reflexivity.
  unfold binary_round.
  destruct (shr_fexp_of_exact M (- 53 - j)) as [[Hsh _]|(Hsh & Hsnd & Hfst & Hr)];
    rewrite fexp_unfold in Hsh.
  { exfalso.
    assert (53 + j <= Zpos (digits2_pos M)); [|lia].
    destruct (Z.le_gt_cases (53 + j) (Zpos (digits2_pos M))) as [|Hlt]; [assumption|].
    destruct (digits_bound M) as [_ Dhi].
    assert (2 ^ Zpos (digits2_pos M) <= 2 ^ (52 + j))
      by (apply Z.pow_le_mono_r; lia).
    lia. }
  rewrite fexp_unfold in Hsnd, Hfst, Hr.
  destruct (Z.le_gt_cases (2 ^ 53 * J) (Zpos M)) as [Hup|Hdown].
  - assert (Hd : Zpos (digits2_pos M) = 54 + j) by (apply digits_unique; split;
      [replace (54 + j - 1) with (53 + j) by lia|]; lia).
    rewrite Hd in *. rewrite fexp_unfold. unfold shl_align.
    replace (Z.max (54 + j + (-53 - j) - 53) (-1074) - (-53 - j)) with (j + 1)
      in * by lia.
    destruct (j + 1) as [|p|p] eqn:Ep; try lia. rewrite <- Ep in *.
    cbv beta iota. unfold binary_round_aux.
    destruct (shr_fexp prec emax (Zpos M) (-53 - j) loc_Exact) as [mrs e1].
    cbn [fst snd] in Hsnd, Hfst, Hr. subst e1.
    replace (-53 - j + (j + 1)) with (-52) by lia.
    replace (j + 1 - 1) with j in Hr by lia. fold J in Hr.
    assert (Hq : Zpos M / J = 2 ^ 53).
    { symmetry. apply (Z.div_unique _ _ _ (Zpos M - 2 ^ 53 * J)); lia. }
    rewrite Hq in Hr. change (Z.odd (2 ^ 53)) with false in Hr.
    rewrite (round_without_r mrs Hr), Hfst.
    assert (Hq' : Zpos M / 2 ^ (j + 1) = 2 ^ 52).
    { symmetry. apply (Z.div_unique _ _ _ (Zpos M - 2 ^ 53 * J)).
      - replace (2 ^ (j + 1)) with (2 * J)
          by (unfold J; rewrite Z.pow_add_r by lia; change (2 ^ 1) with 2; ring).
        lia.
      - replace (2 ^ (j + 1)) with (2 * J)
          by (unfold J; rewrite Z.pow_add_r by lia; change (2 ^ 1) with 2; ring).
        lia. }
    rewrite Hq'. reflexivity.
  - assert (Hd : Zpos (digits2_pos M) = 53 + j) by (apply digits_unique; split;
      [replace (53 + j - 1) with (52 + j) by lia|]; lia).
    rewrite Hd in *. rewrite fexp_unfold. unfold shl_align.
    replace (Z.max (53 + j + (-53 - j) - 53) (-1074) - (-53 - j)) with j
      in Hsh, Hsnd, Hfst, Hr by lia.
    replace (Z.max (53 + j + (-53 - j) - 53) (-1074) - (-53 - j))
      with (Zpos (Z.to_pos j)) by (rewrite Z2Pos.id; lia).
    cbv beta iota. unfold binary_round_aux.
    destruct (shr_fexp prec emax (Zpos M) (-53 - j) loc_Exact) as [mrs e1].
    cbn [fst snd] in Hsnd, Hfst, Hr. subst e1.
    replace (-53 - j + j) with (-53) by lia.
    fold J in Hfst. fold H in Hr.
    assert (Hq : Zpos M / H = 2 ^ 54 - 1).
    { symmetry. apply (Z.div_unique _ _ _ (Zpos M - (2 ^ 54 - 1) * H)).
      - change (2 ^ 54) with (2 * 2 ^ 53). lia.
      - ring. }
    rewrite Hq in Hr. change (Z.odd (2 ^ 54 - 1)) with true in Hr.
    assert (Hq' : Zpos M / J = 2 ^ 53 - 1).
    { symmetry. apply (Z.div_unique _ _ _ (Zpos M - (2 ^ 53 - 1) * J)).
      - lia.
      - ring. }
    rewrite Hq' in Hfst.
    destruct mrs as [m r s]. cbn [shr_m shr_r] in *. subst m r.
    destruct s; reflexivity.
Qed.

Lemma SFadd_comm_pos (mx my : positive) (ex ey : Z) :
  SFadd prec emax (S754_finite false mx ex) (S754_finite false my ey)
  = SFadd prec emax (S754_finite false my ey) (S754_finite false mx ex).
Proof.
  cbn [SFadd cond_Zopp]. rewrite (Z.min_comm ex ey), Z.add_comm. reflexivity.
Qed.

(** Two numbers of 53 bits, each within half a unit of its last place
    of a share [s/(s+f)] and [f/(s+f)], add up to 1. *)
Lemma sum_to_one (mx my : positive) (ex ey s f : Z) :
  0 < s -> 0 < f -> s + f < 2 ^ 53 ->
  Zpos (digits2_pos mx) = 53 -> Zpos (digits2_pos my) = 53 ->
  -110 <= ey <= ex -> ex <= -51 ->
  - (s + f) <= 2 * (Zpos mx * (s + f) - s * 2 ^ (- ex)) <= s + f ->
  - (s + f) <= 2 * (Zpos my * (s + f) - f * 2 ^ (- ey)) <= s + f ->
  SFadd prec emax (S754_finite false mx ex) (S754_finite false my ey)
  = S754_finite false 4503599627370496 (-52).
Proof.
  intros Hs Hf Hn Hdx Hdy Hey Hex H1 H2.
  destruct (digits_bound mx) as [Xlo Xhi]. rewrite Hdx in Xlo, Xhi.
  destruct (digits_bound my) as [Ylo Yhi]. rewrite Hdy in Ylo, Yhi.
  change (2 ^ (53 - 1)) with 4503599627370496 in *.
  change (2 ^ 53) with 9007199254740992 in *.
  assert (Hxs : 4503599627370496 * s <= Zpos mx * s <= 9007199254740991 * s)
    by (split; apply Z.mul_le_mono_nonneg_r; lia).
  assert (Hxf : 4503599627370496 * f <= Zpos mx * f <= 9007199254740991 * f)
    by (split; apply Z.mul_le_mono_nonneg_r; lia).
  assert (Hys : 4503599627370496 * s <= Zpos my * s <= 9007199254740991 * s)
    by (split; apply Z.mul_le_mono_nonneg_r; lia).
  assert (Hyf : 4503599627370496 * f <= Zpos my * f <= 9007199254740991 * f)
    by (split; apply Z.mul_le_mono_nonneg_r; lia).
  assert (Hex53 : ex = -53).
  { assert (Hc : ex = -51 \/ ex = -52 \/ ex = -53 \/ ex <= -54) by lia.
    destruct Hc as [Hc|[Hc|[Hc|Hc]]]; [exfalso|exfalso|exact Hc|exfalso].
    - rewrite Hc in H1. change (2 ^ (- -51)) with 2251799813685248 in H1. lia.
    - rewrite Hc in H1. change (2 ^ (- -52)) with 4503599627370496 in H1. lia.
    - assert (Ex : 2 ^ 54 <= 2 ^ (- ex)) by (apply Z.pow_le_mono_r; lia).
      assert (Ey : 2 ^ 54 <= 2 ^ (- ey)) by (apply Z.pow_le_mono_r; lia).
      change (2 ^ 54) with 18014398509481984 in *.
      assert (s * 18014398509481984 <= s * 2 ^ (- ex))
        by (apply Z.mul_le_mono_nonneg_l; lia).
      assert (f * 18014398509481984 <= f * 2 ^ (- ey))
        by (apply Z.mul_le_mono_nonneg_l; lia).
      lia. }
  subst ex. change (2 ^ (- -53)) with 9007199254740992 in H1.
  cbn [SFadd cond_Zopp]. rewrite Z.min_r by lia.
  rewrite !shl_align_value by lia.
  rewrite Z.sub_diag, Z.mul_1_r.
  set (j := -53 - ey).
  assert (Hj : 0 <= j <= 57) by (unfold j; lia).
  assert (Eey : 2 ^ (- ey) = 9007199254740992 * 2 ^ j).
  { replace (- ey) with (53 + j) by (unfold j; lia).
    rewrite Z.pow_add_r by lia. reflexivity. }
  rewrite Eey in H2.
  destruct (Z.eq_dec j 0) as [Hj0|Hj0].
  - rewrite Hj0 in *. change (2 ^ 0) with 1 in *.
    assert (Hey53 : ey = -53) by (unfold j in Hj0; lia).
    assert (Hsf : s = f) by lia.
    assert (Hmx : mx = 4503599627370496%positive).
    { destruct (Z.eq_dec (Zpos mx) 4503599627370496) as [Heq|Hne]; [lia|exfalso].
      assert (4503599627370497 * s <= Zpos mx * s)
        by (apply Z.mul_le_mono_nonneg_r; lia).
      assert (4503599627370497 * f <= Zpos mx * f)
        by (apply Z.mul_le_mono_nonneg_r; lia).
      lia. }
    assert (Hmy : my = 4503599627370496%positive).
    { destruct (Z.eq_dec (Zpos my) 4503599627370496) as [Heq|Hne]; [lia|exfalso].
      assert (4503599627370497 * s <= Zpos my * s)
        by (apply Z.mul_le_mono_nonneg_r; lia).
      assert (4503599627370497 * f <= Zpos my * f)
        by (apply Z.mul_le_mono_nonneg_r; lia).
      lia. }
    subst mx my ey. reflexivity.
  - assert (HH : 0 < 2 ^ (j - 1)) by (apply Z.pow_pos_nonneg; lia).
    assert (HJ : 2 ^ j = 2 * 2 ^ (j - 1)).
    { rewrite <- Z.pow_succ_r by lia. f_equal. lia. }
    set (J := 2 ^ j) in *. set (H := 2 ^ (j - 1)) in *.
    assert (H1a : - (s + f) * J <= 2 * (Zpos mx * (s + f) - s * 9007199254740992) * J)
      by (apply Z.mul_le_mono_nonneg_r; lia).
    assert (H1b : 2 * (Zpos mx * (s + f) - s * 9007199254740992) * J <= (s + f) * J)
      by (apply Z.mul_le_mono_nonneg_r; lia).
    assert (Hlo : - (J + 1) <= 2 * (Zpos mx * J + Zpos my - 9007199254740992 * J)).
    { apply (Z.mul_le_mono_pos_r _ _ (s + f)); lia. }
    assert (Hhi : 2 * (Zpos mx * J + Zpos my - 9007199254740992 * J) <= J + 1).
    { apply (Z.mul_le_mono_pos_r _ _ (s + f)); lia. }
    destruct (Zpos mx * J + Zpos my) as [|M|M] eqn:HM; try lia.
    cbn [binary_normalize].
    replace ey with (- 53 - j) by (unfold j; lia).
    apply round_near_one; [lia|].
    fold J H. change (2 ^ 53) with 9007199254740992. lia.
Qed.

(** The two shares of a whole add up to 1. *)
Lemma shares_add_up (s f : positive) :
  Zpos s + Zpos f < 2 ^ 53 ->
  (of_int (Zpos s) / of_int (Zpos (s + f))
   + of_int (Zpos f) / of_int (Zpos (s + f)))%float = 1%float.
Proof.
  intros Hn. apply number_eq. rewrite FloatAxioms.add_spec.
  destruct (div_nearest s (s + f)) as (mx & ex & Hx & Hex & Hdx & Herrx); [lia|].
  destruct (div_nearest f (s + f)) as (my & ey & Hy & Hey & Hdy & Herry); [lia|].
  rewrite Hx, Hy. unfold SF64add. rewrite Pos2Z.inj_add in Herrx, Herry.
  change (Prim2SF 1) with (S754_finite false 4503599627370496 (-52)).
  destruct (Z.le_gt_cases ey ex) as [Hle|Hgt].
  - apply sum_to_one with (s := Zpos s) (f := Zpos f); lia || assumption.
  - rewrite SFadd_comm_pos.
    rewrite (Z.add_comm (Zpos s) (Zpos f)) in Herrx, Herry, Hn.
    apply sum_to_one with (s := Zpos f) (f := Zpos s); lia || assumption.
Qed.

(** A proper share [a/n] is a positive number below 1. *)
Lemma share_below_one (a n : positive) :
  Zpos a < Zpos n < 2 ^ 53 ->
  exists (m : positive) (e : Z),
    Prim2SF (of_int (Zpos a) / of_int (Zpos n)) = S754_finite false m e
    /\ -110 <= e <= -53 /\ Zpos m < 2 ^ 53
    /\ - Zpos n <= 2 * (Zpos m * Zpos n - Zpos a * 2 ^ (- e)) <= Zpos n.
Proof.
  intros Han.
  destruct (div_nearest a n Han) as (m & e & Hsf & He & Hd & Herr).
  exists m, e. split; [exact Hsf|].
  destruct (digits_bound m) as [Mlo Mhi]. rewrite Hd in Mlo, Mhi.
  change (2 ^ (53 - 1)) with 4503599627370496 in *.
  change (2 ^ 53) with 9007199254740992 in *.
  split; [|split; [exact Mhi|exact Herr]].
  assert (Hmn : 4503599627370496 * Zpos n <= Zpos m * Zpos n)
    by (apply Z.mul_le_mono_nonneg_r; lia).
  assert (Hc : e = -51 \/ e = -52 \/ e <= -53) by lia.
  destruct Hc as [Hc|[Hc|Hc]]; [exfalso|exfalso|lia].
  - rewrite Hc in Herr. change (2 ^ (- -51)) with 2251799813685248 in Herr. lia.
  - rewrite Hc in Herr. change (2 ^ (- -52)) with 4503599627370496 in Herr. lia.
Qed.

End FloatFacts.

Import FloatFacts.

(** * Facts about the arrival engine *)

Section EngineFacts.

Variable stage : Stage.
Variable random : nat -> number.

Lemma createEvent_world (w : world) :
  snd (createEvent stage random w)
  = {| this := this w; now := now w; submitted := S (submitted w) |}.
Proof. reflexivity. Qed.

Lemma createEvent_not_rejected (w : world) :
  rejected (fst (createEvent stage random w)) = false.
Proof.
  unfold createEvent. cbn [fst].
  destruct (accept stage _ _) as [|t [v|r]]; reflexivity.
Qed.

Lemma createEvents_length (n : nat) (w : world) :
  List.length (fst (createEvents stage random n w)) = n.
Proof.
  revert w. induction n as [|n IH]; intros w; [reflexivity|].
  cbn [createEvents]. destruct (createEvent stage random w) as [p w1].
  specialize (IH w1). destruct (createEvents stage random n w1) as [ps w2].
  cbn [fst List.length] in *. now rewrite IH.
Qed.

Lemma createEvents_world (n : nat) (w : world) :
  snd (createEvents stage random n w)
  = {| this := this w; now := now w; submitted := (n + submitted w)%nat |}.
Proof.
  revert w. induction n as [|n IH]; intros w.
  - now destruct w.
  - cbn [createEvents].
    pose proof (createEvent_world w) as Hw.
    destruct (createEvent stage random w) as [p w1]. cbn [snd] in Hw.
    specialize (IH w1). destruct (createEvents stage random n w1) as [ps w2].
    cbn [snd] in *. subst w1 w2. cbn [this now submitted]. f_equal. lia.
Qed.

Lemma createEventBatch_world (num : intnum) (w : world) batch w' :
  createEventBatch stage random num w = Some (batch, w') ->
  w' = {| this := this w; now := now w;
          submitted := (List.length batch + submitted w)%nat |}
  /\ List.length batch = match num with Fin z => Z.to_nat z | _ => O end.
Proof.
  destruct num as [z| | |]; cbn [createEventBatch]; intros H; try discriminate.
  - pose proof (createEvents_world (Z.to_nat z) w) as Hw.
    pose proof (createEvents_length (Z.to_nat z) w) as Hl.
    destruct (createEvents stage random (Z.to_nat z) w) as [ps w2].
    cbn [fst snd] in *. injection H as <- <-. rewrite Hl. now split.
  - injection H as <- <-. now destruct w.
  - injection H as <- <-. now destruct w.
Qed.

(** A pass publishes the configured rate, and leaves the rest of the
    simulation object and the clock alone. *)
Lemma iteration_world (N : Z) (l : locals) (w : world) :
  match iteration stage random N l w with
  | Break _ w' | Await _ _ w' =>
      this w' = set_arrivalRate (this w) (eventsPer1000Ticks (this w))
      /\ now w' = now w
  | Spinning => True
  end.
Proof.
  unfold iteration.
  destruct (_ <? _)%float.
  - match goal with |- context [createEventBatch _ _ ?n ?w] =>
      destruct (createEventBatch stage random n w) as [[batch w']|] eqn:Hb end;
      [|exact I].
    apply createEventBatch_world in Hb as [-> _].
    destruct (igeb _ _); now split.
  - rewrite (surjective_pairing (createEvent stage random _)), createEvent_world.
    destruct (igeb _ _); now split.
Qed.

(** *** An invariant of the collected promises

    Whatever holds of every promise [createEvent] returns, at the
    readings the clock can take, holds of every promise the loop
    collects. *)

Section Collected.

Variable C : number -> Prop.
Variable P : promise Event -> Prop.
Hypothesis C_wait :
  forall ticks t t', C t -> Metronome.wait ticks t = Some t' -> C t'.
Hypothesis createEvent_P :
  forall w, C (now w) -> P (fst (createEvent stage random w)).

Lemma createEvents_Forall (n : nat) (w : world) :
  C (now w) -> Forall P (fst (createEvents stage random n w)).
Proof.
  revert w. induction n as [|n IH]; intros w Hc; [constructor|].
  cbn [createEvents].
  pose proof (createEvent_P w Hc) as Hp.
  pose proof (createEvent_world w) as Hw.
  destruct (createEvent stage random w) as [p w1]. cbn [fst snd] in Hp, Hw.
  assert (Hc1 : C (now w1)) by now subst w1.
  specialize (IH w1 Hc1). destruct (createEvents stage random n w1) as [ps w2].
  cbn [fst] in *. now constructor.
Qed.

Lemma createEventBatch_Forall (num : intnum) (w : world) batch w' :
  C (now w) ->
  createEventBatch stage random num w = Some (batch, w') -> Forall P batch.
Proof.
  intros Hc.
  destruct num as [z| | |]; cbn [createEventBatch]; intros H; try discriminate.
  - pose proof (createEvents_Forall (Z.to_nat z) w Hc) as Hn.
    destruct (createEvents stage random (Z.to_nat z) w).
    injection H as <- <-. exact Hn.
  - injection H as <- <-. constructor.
  - injection H as <- <-. constructor.
Qed.

Lemma iteration_Forall (N : Z) (l : locals) (w : world) :
  C (now w) ->
  Forall P (events l) ->
  match iteration stage random N l w with
  | Break l' _ | Await _ l' _ => Forall P (events l')
  | Spinning => True
  end.
Proof.
  intros Hc Hl. unfold iteration.
  destruct (_ <? _)%float.
  - match goal with |- context [createEventBatch _ _ ?n ?w] =>
      destruct (createEventBatch stage random n w) as [[batch w']|] eqn:Hb end;
      [|exact I].
    apply createEventBatch_Forall in Hb; [|exact Hc].
    destruct (igeb _ _); cbn [events]; apply Forall_app; now split.
  - pose proof (createEvent_P (emitting w) Hc) as Hp. unfold emitting in Hp.
    destruct (createEvent stage random _) as [p w'].
    cbn [fst] in Hp.
    destruct (igeb _ _); cbn [events]; apply Forall_app; split; auto.
Qed.

Lemma loop_Forall (fuel : nat) (N : Z) (l : locals) (w : world) :
  C (now w) ->
  Forall P (events l) ->
  match loop stage random fuel N l w with
  | Returns ps _ => Forall P ps
  | Throws _ _ => False
  | _ => True
  end.
Proof.
  revert l w. induction fuel as [|fuel IH]; intros l w Hc Hl; [exact I|].
  cbn [loop].
  pose proof (iteration_Forall N l w Hc Hl) as Hi.
  pose proof (iteration_world N l w) as Hw.
  destruct (iteration stage random N l w) as [l' w'|ticks l' w'|]; try exact I.
  - exact Hi.
  - destruct Hw as [_ Hnow].
    destruct (Metronome.wait ticks (now w')) as [t'|] eqn:Hwait; [|exact I].
    apply IH; [|exact Hi]. cbn [set_now now].
    apply (C_wait ticks (now w')); [now rewrite Hnow|exact Hwait].
Qed.

End Collected.

Lemma join_not_rejected {A : Type} (p : promise A) (q : promise (list A)) :
  rejected p = false -> rejected q = false -> rejected (join p q) = false.
Proof.
  destruct p as [|t [a|r]], q as [|u [l|r']]; cbn; intros; try discriminate; reflexivity.
Qed.

Lemma all_not_rejected {A : Type} (t : number) (ps : list (promise A)) :
  Forall (fun p => rejected p = false) ps ->
  rejected (Promise.all t ps) = false.
Proof.
  induction 1 as [|p ps Hp _ IH]; cbn [Promise.all]; [reflexivity|].
  now apply join_not_rejected.
Qed.

Lemma run_never_throws (fuel : nat) (sim : Simulation) (N : Z) :
  throws (run stage random fuel sim N) = false.
Proof.
  unfold run, sendEvents.
  match goal with |- context [loop _ _ _ _ ?l ?w] =>
    pose proof (loop_Forall (fun _ => True) (fun p => rejected p = false)
                  (fun _ _ _ _ _ => I) (fun w0 _ => createEvent_not_rejected w0)
                  fuel N l w I (Forall_nil _)) as H;
    destruct (loop stage random fuel N l w) as [ps w'|r w'|w'|w'| |] end;
    try reflexivity; try contradiction.
  apply (all_not_rejected (now w')) in H.
  destruct (Promise.all (now w') ps) as [|t [evs|r]]; try reflexivity; discriminate.
Qed.

Lemma suspensions_rate (fuel : nat) (N : Z) (l : locals) (w : world) :
  Forall (fun w' => getArrivalRate (this w') = eventsPer1000Ticks (this w))
         (suspensions stage random fuel N l w).
Proof.
  revert l w. induction fuel as [|fuel IH]; intros l w; [constructor|].
  cbn [suspensions].
  pose proof (iteration_world N l w) as Hi.
  destruct (iteration stage random N l w) as [l' w'|ticks l' w'|]; try constructor.
  - destruct Hi as [Hthis _]. now rewrite Hthis.
  - destruct Hi as [Hthis _].
    destruct (Metronome.wait ticks (now w')) as [t|]; [|constructor].
    specialize (IH l' (set_now w' t)). cbn [set_now this] in IH.
    now rewrite Hthis in IH.
Qed.

Lemma loop_resets_rate (fuel : nat) (N : Z) (l : locals) (w : world) :
  match loop stage random fuel N l w with
  | Returns _ w' =>
      getArrivalRate (this w') = 0%float
      /\ eventsPer1000Ticks (this w') = eventsPer1000Ticks (this w)
  | _ => True
  end.
Proof.
  revert l w. induction fuel as [|fuel IH]; intros l w; [exact I|].
  cbn [loop].
  pose proof (iteration_world N l w) as Hi.
  destruct (iteration stage random N l w) as [l' w'|ticks l' w'|]; try exact I.
  - destruct Hi as [Hthis _]. cbn [this]. now rewrite Hthis.
  - destruct Hi as [Hthis _].
    destruct (Metronome.wait ticks (now w')) as [t|]; [|exact I].
    specialize (IH l' (set_now w' t)). cbn [set_now this] in IH.
    now rewrite Hthis in IH.
Qed.


(** *** The two branches of a pass *)

Lemma iteration_batch (k N s : Z) (l : locals) (w : world) :
  (tickDelta (this w) <? 1)%float = true ->
  batchSize (this w) = Fin k ->
  eventsSent l = Fin s ->
  iteration stage random N l w =
    let n := if N <? s + k then N - s else k in
    let bw := createEvents stage random (Z.to_nat n) (emitting w) in
    let l' := {| events := events l ++ fst bw; eventsSent := Fin (s + n) |} in
    if N <=? s + n then Break l' (snd bw) else Await 1%float l' (snd bw).
Proof.
  unfold batchSize, tickDelta. intros Hlt Hk Hs.
  unfold iteration. rewrite Hlt, Hk, Hs.
  cbn [iadd igtb iltb isub].
  destruct (N <? s + k); cbn [createEventBatch];
    fold (emitting w);
    destruct (createEvents stage random _ (emitting w)) as [batch w'];
    cbn [igeb eventsSent fst snd]; reflexivity.
Qed.

Lemma iteration_unbounded_batch (N s : Z) (l : locals) (w : world) :
  (tickDelta (this w) <? 1)%float = true ->
  batchSize (this w) = PInf ->
  eventsSent l = Fin s ->
  iteration stage random N l w =
    let bw := createEvents stage random (Z.to_nat (N - s)) (emitting w) in
    Break {| events := events l ++ fst bw; eventsSent := Fin (s + (N - s)) |}
          (snd bw).
Proof.
  unfold batchSize, tickDelta. intros Hlt Hk Hs.
  unfold iteration. rewrite Hlt, Hk, Hs.
  cbn [iadd igtb iltb isub createEventBatch]. fold (emitting w).
  destruct (createEvents stage random _ (emitting w)) as [batch w'].
  cbn [igeb eventsSent fst snd].
  replace (N <=? s + (N - s)) with true by (symmetry; apply Z.leb_le; lia).
  reflexivity.
Qed.

Lemma iteration_single (N s : Z) (l : locals) (w : world) :
  (tickDelta (this w) <? 1)%float = false ->
  eventsSent l = Fin s ->
  iteration stage random N l w =
    let pw := createEvent stage random (emitting w) in
    let l' := {| events := events l ++ [fst pw]; eventsSent := Fin (s + 1) |} in
    if N <=? s + 1 then Break l' (snd pw)
    else Await (tickDelta (this w)) l' (snd pw).
Proof.
  unfold tickDelta. intros Hlt Hs.
  unfold iteration. rewrite Hlt, Hs. fold (emitting w).
  destruct (createEvent stage random (emitting w)) as [p w'].
  cbn [iadd igeb eventsSent fst snd]. reflexivity.
Qed.

(** *** The batching branch, tick by tick *)

Lemma wait_one_tick (t : number) :
  Metronome.wait 1%float t = Some (t + 1)%float.
Proof. reflexivity. Qed.

Lemma batch_loop (k N : Z) :
  1 <= k ->
  forall (fuel : nat) (l : locals) (w : world) (s : Z),
    (tickDelta (this w) <? 1)%float = true ->
    batchSize (this w) = Fin k ->
    eventsSent l = Fin s -> 0 <= s < N ->
    (Z.to_nat ((N - s - 1) / k) < fuel)%nat ->
    emitted stage random fuel N l w
      = repeat (Z.to_nat k) (Z.to_nat ((N - s - 1) / k))
          ++ [Z.to_nat (N - s - k * ((N - s - 1) / k))]
    /\ exists ps w',
         loop stage random fuel N l w = Returns (events l ++ ps) w'
         /\ List.length ps = Z.to_nat (N - s)
         /\ submitted w' = (Z.to_nat (N - s) + submitted w)%nat.
Proof.
  intros Hk. induction fuel as [|fuel IH]; intros l w s Hlt Hbs Hs Hrange Hfuel;
    [lia|].
  cbn [emitted loop]. rewrite (iteration_batch k N s l w Hlt Hbs Hs).
  cbv zeta.
  pose proof (createEvents_length) as Hlen.
  pose proof (createEvents_world) as Hworld.
  destruct (N <? s + k) eqn:Hclamp.
  - (* the last tick, clamped *)
    apply Z.ltb_lt in Hclamp.
    replace (N <=? s + (N - s)) with true by (symmetry; apply Z.leb_le; lia).
    rewrite Hworld. cbn [submitted this now emitting].
    rewrite (Z.div_small (N - s - 1) k) by lia.
    rewrite Z.mul_0_r, Z.sub_0_r. cbn [Z.to_nat repeat app].
    split; [f_equal; lia|].
    eexists _, _. split; [reflexivity|]. cbn [submitted]. split; [apply Hlen|lia].
  - apply Z.ltb_ge in Hclamp.
    destruct (N <=? s + k) eqn:Hdone.
    + (* the last tick, a full batch *)
      apply Z.leb_le in Hdone. assert (N = s + k) by lia. subst N.
      rewrite Hworld. cbn [submitted this now emitting].
      replace (s + k - s - 1) with (k - 1) by lia.
      rewrite (Z.div_small (k - 1) k) by lia.
      rewrite Z.mul_0_r, Z.sub_0_r. cbn [Z.to_nat repeat app].
      split; [f_equal; lia|].
      eexists _, _. split; [reflexivity|]. cbn [submitted].
      split; [rewrite Hlen|]; f_equal; lia.
    + (* a full batch, then the next tick *)
      apply Z.leb_gt in Hdone.
      rewrite wait_one_tick.
      assert (Hq : (N - s - 1) / k = (N - (s + k) - 1) / k + 1).
      { replace (N - s - 1) with (N - (s + k) - 1 + 1 * k) by lia.
        apply Z.div_add. lia. }
      assert (Hq0 : 0 <= (N - (s + k) - 1) / k) by (apply Z.div_pos; lia).
      rewrite Hq in Hfuel |- *.
      rewrite Z2Nat.inj_add in Hfuel |- * by lia.
      change (Z.to_nat 1) with 1%nat in *.
      rewrite Nat.add_1_r in Hfuel |- *.
      match goal with |- context [emitted _ _ fuel N ?l' ?w'] =>
        destruct (IH l' w' (s + k)) as (Hem & ps & w'' & Hloop & Hps & Hsub);
        [rewrite Hworld; exact Hlt | rewrite Hworld; exact Hbs | reflexivity
        | lia | lia |] end.
      rewrite Hem, Hloop. rewrite Hworld in Hsub |- *.
      cbn [submitted this now set_now events emitting] in Hsub |- *.
      split.
      * cbn [repeat app]. f_equal; [lia|]. f_equal. f_equal. f_equal. lia.
      * exists (fst (createEvents stage random (Z.to_nat k) (emitting w)) ++ ps), w''.
        split; [now rewrite app_assoc|].
        split; [rewrite length_app, Hlen, Hps|rewrite Hsub]; lia.
Qed.

Lemma unbounded_batch_loop (N : Z) (fuel : nat) (l : locals) (w : world) (s : Z) :
  (tickDelta (this w) <? 1)%float = true ->
  batchSize (this w) = PInf ->
  eventsSent l = Fin s ->
  emitted stage random (S fuel) N l w = [Z.to_nat (N - s)]
  /\ exists ps w',
       loop stage random (S fuel) N l w = Returns (events l ++ ps) w'
       /\ List.length ps = Z.to_nat (N - s)
       /\ submitted w' = (Z.to_nat (N - s) + submitted w)%nat.
Proof.
  intros Hlt Hbs Hs.
  cbn [emitted loop]. rewrite (iteration_unbounded_batch N s l w Hlt Hbs Hs).
  cbv zeta. rewrite createEvents_world. cbn [submitted this now emitting].
  split; [f_equal; lia|].
  eexists _, _. split; [reflexivity|]. cbn [submitted].
  split; [apply createEvents_length|reflexivity].
Qed.




(** At a positive rate the batching branch sends the whole count. *)
Lemma batch_branch_returns (w : world) (N : Z) (fuel : nat) :
  (0 <? eventsPer1000Ticks (this w))%float = true ->
  (tickDelta (this w) <? 1)%float = true ->
  1 <= N ->
  (Z.to_nat N <= fuel)%nat ->
  exists ps w',
    sendEvents stage random fuel N w = Returns ps w'
    /\ List.length ps = Z.to_nat N
    /\ submitted w' = (Z.to_nat N + submitted w)%nat.
Proof.
  intros Hrate Hlt HN Hfuel.
  pose proof (batch_size_at_least_one _ Hrate Hlt) as Hge.
  fold (tickDelta (this w)) in Hge. fold (batchSize (this w)) in Hge.
  unfold sendEvents.
  destruct (batchSize (this w)) as [k| | |] eqn:Hbs; cbn [igeb] in Hge;
    try discriminate.
  - apply Z.leb_le in Hge.
    assert (Hq : 0 <= (N - 1) / k) by (apply Z.div_pos; lia).
    assert (Hq' : (N - 1) / k <= N - 1).
    { apply Z.div_le_upper_bound; nia. }
    destruct (batch_loop k N Hge fuel start_locals w 0 Hlt Hbs eq_refl)
      as (_ & ps & w' & Hloop & Hps & Hsub); [lia| |].
    { rewrite Z.sub_0_r. lia. }
    rewrite Z.sub_0_r in *. exists ps, w'. split; [exact Hloop|now split].
  - destruct fuel as [|fuel]; [lia|].
    destruct (unbounded_batch_loop N fuel start_locals w 0 Hlt Hbs eq_refl)
      as (_ & ps & w' & Hloop & Hps & Hsub).
    rewrite Z.sub_0_r in *. exists ps, w'. split; [exact Hloop|now split].
Qed.


(** *** The single-event branch *)

Lemma wait_finite (ticks t : number) :
  isFinite ticks = true -> exists t', Metronome.wait ticks t = Some t'.
Proof.
  intros H. unfold Metronome.wait. rewrite H.
  destruct (ticks <=? 0)%float; eauto.
Qed.

Lemma single_loop (N : Z) :
  forall (fuel : nat) (l : locals) (w : world) (s : Z),
    (tickDelta (this w) <? 1)%float = false ->
    isFinite (tickDelta (this w)) = true ->
    eventsSent l = Fin s ->
    (Z.to_nat (N - s) <= fuel)%nat -> (1 <= fuel)%nat ->
    exists ps w',
      loop stage random fuel N l w = Returns (events l ++ ps) w'
      /\ List.length ps = Z.to_nat (Z.max 1 (N - s))
      /\ submitted w' = (List.length ps + submitted w)%nat.
Proof.
  induction fuel as [|fuel IH]; intros l w s Hlt Hfin Hs Hfuel Hone; [lia|].
  cbn [loop]. rewrite (iteration_single N s l w Hlt Hs). cbv zeta.
  rewrite createEvent_world.
  destruct (N <=? s + 1) eqn:Hdone.
  - apply Z.leb_le in Hdone.
    eexists _, _. split; [reflexivity|]. cbn [submitted emitting List.length].
    split; lia.
  - apply Z.leb_gt in Hdone. cbn [now emitting].
    destruct (wait_finite (tickDelta (this w)) (now w) Hfin) as [t' ->].
    match goal with |- context [loop _ _ fuel N ?l' ?w'] =>
      destruct (IH l' w' (s + 1)) as (ps & w'' & Hloop & Hps & Hsub);
      [exact Hlt | exact Hfin | reflexivity | lia | lia |] end.
    rewrite Hloop. cbn [events submitted set_now emitting] in Hsub |- *.
    exists (fst (createEvent stage random (emitting w)) :: ps), w''.
    split; [now rewrite <- app_assoc|]. cbn [List.length].
    split; lia.
Qed.

(** With nothing left to send, the single-event branch still submits one
    event before it looks at the count. *)
Lemma single_pass_submits (N : Z) (fuel : nat) (w : world) :
  (tickDelta (this w) <? 1)%float = false ->
  N <= 1 ->
  sendEvents stage random (S fuel) N w
  = Returns [fst (createEvent stage random (emitting w))]
            {| this := set_arrivalRate (this w) 0%float;
               now := now w; submitted := S (submitted w) |}.
Proof.
  intros Hlt HN. unfold sendEvents. cbn [loop].
  rewrite (iteration_single N 0 start_locals w Hlt eq_refl). cbv zeta.
  rewrite createEvent_world.
  replace (N <=? 0 + 1) with true by (symmetry; apply Z.leb_le; lia).
  reflexivity.
Qed.



(** *** The run as a whole *)

Lemma all_fulfilled {A : Type} (Q : A -> Prop) (t0 : number)
    (ps : list (promise A)) :
  Forall (fun p => exists t a, p = Settled t (Fulfilled a) /\ Q a) ps ->
  exists t evs,
    Promise.all t0 ps = Settled t (Fulfilled evs)
    /\ List.length evs = List.length ps /\ Forall Q evs.
Proof.
  induction 1 as [|p ps (t & a & -> & Ha) _ (u & evs & Hall & Hlen & Hq)].
  - exists t0, []. repeat split; constructor.
  - exists (later t u), (a :: evs). cbn [Promise.all]. rewrite Hall.
    cbn [join List.length]. repeat split; [now rewrite Hlen|now constructor].
Qed.

(** C1 at [numEventsToSend = 0] and the default rate: the engine submits
    one event and returns a collection of one event (where the claim has
    no submission and an empty collection); [run] returns it once the
    stage call settles. *)
Theorem zero_events_still_submits_one (fuel : nat) :
  sendEvents stage random (S fuel) 0 (start_world simulation)
  = Returns [fst (createEvent stage random (emitting (start_world simulation)))]
            {| this := simulation; now := Metronome.start; submitted := 1 |}
  /\ match run stage random (S fuel) simulation 0 with
     | Returns evs w' => List.length evs = 1%nat /\ submitted w' = 1%nat
     | Hangs w' => submitted w' = 1%nat
     | _ => False
     end.
Proof.
  assert (Hsend := single_pass_submits 0 fuel (start_world simulation)
                     eq_refl ltac:(lia)).
  split; [exact Hsend|].
  unfold run. fold (start_world simulation). rewrite Hsend.
  cbn [now Promise.all].
  pose proof (createEvent_not_rejected (emitting (start_world simulation))) as Hp.
  destruct (fst (createEvent stage random (emitting (start_world simulation))))
    as [|t [e|r]]; cbn [join]; try discriminate; now split.
Qed.


Lemma nonneg_wait (ticks t t' : number) :
  nonneg t = true -> Metronome.wait ticks t = Some t' -> nonneg t' = true.
Proof.
  intros Ht. unfold Metronome.wait.
  destruct (ticks <=? 0)%float eqn:Hle; [now intros [= <-]|].
  destruct (isFinite ticks) eqn:Hfin; [|discriminate].
  intros [= <-]. apply nonneg_add; [exact Ht|now apply positive_duration].
Qed.

(** X1: with a count of at least 1, a positive rate whose [tickDelta]
    is finite, and a stage whose every call settles, no earlier than the
    event was submitted, [run] returns exactly [numEventsToSend] events,
    each with [endTime >= startTime]. *)
Theorem run_returns_every_event (sim : Simulation) (N : Z) (fuel : nat) :
  1 <= N ->
  (0 <? eventsPer1000Ticks sim)%float = true ->
  isFinite (tickDelta sim) = true ->
  (forall (n : nat) (e : Event) (s : number),
      startTime (responseTime e) = Some s -> nonneg s = true ->
      exists t st, accept stage n e = Settled t st /\ (s <=? t)%float = true) ->
  (Z.to_nat N <= fuel)%nat ->
  exists evs w',
    run stage random fuel sim N = Returns evs w'
    /\ List.length evs = Z.to_nat N
    /\ submitted w' = Z.to_nat N
    /\ Forall well_timed evs.
Proof.
  intros HN Hrate Hfin Hstage Hfuel.
  assert (Hcreate : forall w, nonneg (now w) = true ->
            fulfilled_in_time (fst (createEvent stage random w))).
  { intros w Hc. unfold createEvent. cbn [fst]. fold (submitted_event random w).
    destruct (Hstage (submitted w) (submitted_event random w) (now w) eq_refl Hc)
      as (t & st & -> & Hle).
    exists t, (settle (submitted_event random w) t
                 match st with Fulfilled v => v | Rejected v => v end).
    split; [destruct st; reflexivity|].
    exists (now w), t. repeat split. exact Hle. }
  assert (Hsend : exists ps w',
            sendEvents stage random fuel N (start_world sim) = Returns ps w'
            /\ List.length ps = Z.to_nat N /\ submitted w' = Z.to_nat N).
  { destruct (tickDelta sim <? 1)%float eqn:Hlt.
    - destruct (batch_branch_returns (start_world sim) N fuel Hrate Hlt HN Hfuel)
        as (ps & w' & Hs & Hps & Hsub).
      exists ps, w'. cbn [submitted start_world] in Hsub.
      repeat split; [exact Hs|exact Hps|lia].
    - destruct (single_loop N fuel start_locals (start_world sim) 0 Hlt Hfin eq_refl)
        as (ps & w' & Hs & Hps & Hsub); [lia|lia|].
      exists ps, w'. cbn [submitted start_world] in Hsub.
      repeat split; [exact Hs|lia|lia]. }
  destruct Hsend as (ps & w' & Hs & Hps & Hsub).
  pose proof (loop_Forall (fun t => nonneg t = true) fulfilled_in_time
                nonneg_wait Hcreate fuel N start_locals
                (start_world sim) eq_refl (Forall_nil _)) as Hall.
  unfold run. fold (start_world sim). unfold sendEvents in Hs.
  unfold sendEvents. rewrite Hs in Hall |- *.
  destruct (all_fulfilled well_timed (now w') ps Hall) as (t & evs & -> & Hlen & Hq).
  exists evs, (set_now w' t). cbn [submitted set_now].
  repeat split; [lia|exact Hsub|exact Hq].
Qed.

(** *** The arrivals, one by one *)

Lemma map_seq_shift {A : Type} (f : nat -> A) (a n : nat) :
  map f (seq a n) = map (fun j => f (a + j)%nat) (seq 0 n).
Proof.
  revert a f. induction n as [|n IH]; intros a f; [reflexivity|].
  cbn [seq map]. rewrite Nat.add_0_r. f_equal.
  rewrite (IH (S a) f), (IH 1%nat (fun j => f (a + j)%nat)).
  apply map_ext. intros j. f_equal. lia.
Qed.

Lemma arrivals_app (w : world) (time : nat -> number) (a b : nat) :
  arrivals stage random w time (a + b)
  = arrivals stage random w time a
    ++ map (fun j => fst (createEvent stage random
                            (arrival w (a + j) (time (a + j)%nat))))
           (seq 0 b).
Proof.
  unfold arrivals. rewrite seq_app, map_app. f_equal.
  apply (map_seq_shift
           (fun i => fst (createEvent stage random (arrival w i (time i))))).
Qed.

(** The events of one batch are created one after the other at the same
    reading of the clock. *)
Lemma createEvents_arrivals (n : nat) (w : world) (t : number) :
  forall i : nat,
    fst (createEvents stage random n (arrival w i t))
    = map (fun j => fst (createEvent stage random (arrival w (i + j) t)))
          (seq 0 n).
Proof.
  induction n as [|n IH]; intros i; [reflexivity|].
  cbn [createEvents].
  pose proof (createEvent_world (arrival w i t)) as Hw.
  destruct (createEvent stage random (arrival w i t)) as [p w1] eqn:Hc.
  cbn [snd] in Hw. subst w1.
  change {| this := this (arrival w i t); now := now (arrival w i t);
            submitted := S (submitted (arrival w i t)) |}
    with (arrival w (S i) t).
  specialize (IH (S i)).
  destruct (createEvents stage random n (arrival w (S i) t)) as [ps w2].
  cbn [fst] in IH |- *. rewrite IH.
  cbn [seq map]. rewrite Nat.add_0_r, Hc. cbn [fst]. f_equal.
  rewrite (map_seq_shift _ 1 n). apply map_ext. intros j.
  do 3 f_equal. lia.
Qed.

Lemma createEvents_emitting (n : nat) (w : world) :
  fst (createEvents stage random n (emitting w))
  = arrivals stage random w (fun _ => now w) n.
Proof. exact (createEvents_arrivals n w (now w) 0). Qed.

(** A tick delta that is finite and not below 1 is a wait of that many
    ticks. *)
Lemma wait_tickDelta (d t : number) :
  (d <? 1)%float = false -> isFinite d = true ->
  Metronome.wait d t = Some (t + d)%float.
Proof.
  intros Hlt Hfin. unfold Metronome.wait. rewrite Hfin.
  replace (d <=? 0)%float with false; [reflexivity|].
  symmetry. revert Hlt Hfin. unfold isFinite.
  rewrite FloatAxioms.ltb_spec, FloatAxioms.leb_spec.
  change (Prim2SF 0) with (S754_zero false).
  unfold SFltb, SFleb.
  destruct (Prim2SF d) as [s|s| |[|] m e]; cbn [SFcompare];
    try discriminate; reflexivity.
Qed.

Lemma ticks_after_succ (n : nat) (d t : number) :
  ticks_after (S n) d t = ticks_after n d (t + d)%float.
Proof. reflexivity. Qed.

(** The single-event branch from any pass on: one event per pass, the
    passes [tickDelta] apart. *)
Lemma single_loop_arrivals (N : Z) (d : number) :
  (d <? 1)%float = false -> isFinite d = true ->
  forall (fuel : nat) (l : locals) (w : world) (s : Z) (n : nat),
    tickDelta (this w) = d ->
    eventsSent l = Fin s ->
    n = Z.to_nat (Z.max 1 (N - s)) ->
    (n <= fuel)%nat ->
    loop stage random fuel N l w
    = Returns (events l
               ++ arrivals stage random w (fun i => ticks_after i d (now w)) n)
              {| this := set_arrivalRate (this w) 0%float;
                 now := ticks_after (n - 1) d (now w);
                 submitted := (n + submitted w)%nat |}
    /\ emitted stage random fuel N l w = repeat 1%nat n
    /\ map now (suspensions stage random fuel N l w)
       = map (fun i => ticks_after i d (now w)) (seq 0 (n - 1)).
Proof.
  intros Hlt Hfin.
  induction fuel as [|fuel IH]; intros l w s n Hd Hs Hn Hfuel; [lia|].
  assert (Hlt' : (tickDelta (this w) <? 1)%float = false) by now rewrite Hd.
  cbn [loop emitted suspensions].
  rewrite (iteration_single N s l w Hlt' Hs). cbv zeta.
  rewrite createEvent_world.
  destruct (N <=? s + 1) eqn:Hdone.
  - apply Z.leb_le in Hdone.
    assert (Hone : Z.to_nat (Z.max 1 (N - s)) = 1%nat) by lia.
    rewrite Hone in Hn. subst n.
    cbn [events this now submitted emitting].
    replace (S (submitted w) - submitted w)%nat with 1%nat by lia.
    repeat split.
  - apply Z.leb_gt in Hdone. rewrite Hd.
    cbn [this now submitted emitting events].
    rewrite (wait_tickDelta d (now w) Hlt Hfin).
    destruct n as [|n]; [lia|].
    match goal with |- context [loop _ _ fuel N ?l' ?w'] =>
      destruct (IH l' w' (s + 1) n) as (Hloop & Hem & Hsus);
      [exact Hd | reflexivity | lia | lia |] end.
    cbn [map]. rewrite Hloop, Hem, Hsus. clear Hloop Hem Hsus IH.
    cbn [events this now submitted set_now].
    assert (Hn1 : (1 <= n)%nat) by lia.
    replace (S n - 1)%nat with (S (n - 1)) by lia.
    replace (S (submitted w) - submitted w)%nat with 1%nat by lia.
    split; [|split].
    + f_equal.
      * rewrite <- app_assoc. f_equal. unfold arrivals. cbn [seq map app].
        f_equal. rewrite (map_seq_shift _ 1 n). apply map_ext. intros j.
        unfold arrival, set_now. cbn [this now submitted].
        do 3 f_equal. lia.
      * cbn [ticks_after]. f_equal. lia.
    + reflexivity.
    + cbn [seq map]. f_equal. now rewrite (map_seq_shift _ 1 (n - 1)).
Qed.


(** X2: at a rate whose [tickDelta] is finite and not below 1 (every
    rate from 1000 down to the smallest whose quotient is finite), the
    loop submits one event per pass and waits [tickDelta] ticks between
    two passes: the event number [i] is created when the clock has been
    advanced [i] times by [tickDelta], [max(1, N)] events are submitted
    in all, and the loop returns after [max(1, N) - 1] waits, at the
    reading at which it created the last event. *)
Theorem one_event_every_tickDelta (w : world) (N : Z) (fuel : nat) :
  (tickDelta (this w) <? 1)%float = false ->
  isFinite (tickDelta (this w)) = true ->
  (Z.to_nat (Z.max 1 N) <= fuel)%nat ->
  let d := tickDelta (this w) in
  let n := Z.to_nat (Z.max 1 N) in
  sendEvents stage random fuel N w
  = Returns (arrivals stage random w (fun i => ticks_after i d (now w)) n)
            {| this := set_arrivalRate (this w) 0%float;
               now := ticks_after (n - 1) d (now w);
               submitted := (n + submitted w)%nat |}
  /\ emitted stage random fuel N start_locals w = repeat 1%nat n
  /\ map now (suspensions stage random fuel N start_locals w)
     = map (fun i => ticks_after i d (now w)) (seq 0 (n - 1)).
Proof.
  intros Hlt Hfin Hfuel d n.
  apply (single_loop_arrivals N d Hlt Hfin fuel start_locals w 0 n eq_refl eq_refl).
  - unfold n. now rewrite Z.sub_0_r.
  - exact Hfuel.
Qed.

(** The batching branch from any tick on: [k] events per tick, the
    ticks 1 apart. *)
Lemma batch_loop_arrivals (k : nat) (N : Z) :
  (1 <= k)%nat ->
  forall (fuel : nat) (l : locals) (w : world) (s : Z) (n : nat),
    (tickDelta (this w) <? 1)%float = true ->
    batchSize (this w) = Fin (Z.of_nat k) ->
    eventsSent l = Fin s ->
    n = Z.to_nat (N - s) -> (1 <= n)%nat ->
    (n <= fuel)%nat ->
    loop stage random fuel N l w
    = Returns (events l
               ++ arrivals stage random w
                    (fun j => ticks_after (j / k) 1%float (now w)) n)
              {| this := set_arrivalRate (this w) 0%float;
                 now := ticks_after ((n - 1) / k) 1%float (now w);
                 submitted := (n + submitted w)%nat |}
    /\ map now (suspensions stage random fuel N l w)
       = map (fun q => ticks_after q 1%float (now w)) (seq 0 ((n - 1) / k)).
Proof.
  intros Hk.
  assert (Hfirst : forall (w : world) (c : nat), (c <= k)%nat ->
            arrivals stage random w (fun _ => now w) c
            = arrivals stage random w
                (fun j => ticks_after (j / k) 1%float (now w)) c).
  { intros w c Hc. unfold arrivals. apply map_ext_in. intros j Hj.
    apply in_seq in Hj. rewrite Nat.div_small by lia. reflexivity. }
  induction fuel as [|fuel IH]; intros l w s n Hlt Hbs Hs Hn Hn1 Hfuel; [lia|].
  cbn [loop suspensions].
  rewrite (iteration_batch (Z.of_nat k) N s l w Hlt Hbs Hs). cbv zeta.
  destruct (N <? s + Z.of_nat k) eqn:Hclamp.
  - apply Z.ltb_lt in Hclamp.
    replace (N <=? s + (N - s)) with true by (symmetry; apply Z.leb_le; lia).
    rewrite <- Hn, createEvents_world, createEvents_emitting.
    rewrite (Nat.div_small (n - 1) k) by lia.
    cbn [events this now submitted emitting seq map ticks_after].
    split; [|reflexivity]. f_equal. f_equal. apply Hfirst. lia.
  - apply Z.ltb_ge in Hclamp. rewrite Nat2Z.id.
    rewrite createEvents_world, createEvents_emitting.
    cbn [events this now submitted emitting].
    destruct (N <=? s + Z.of_nat k) eqn:Hdone.
    + apply Z.leb_le in Hdone. assert (Hnk : n = k) by lia. clear Hn. subst n.
      rewrite (Nat.div_small (k - 1) k) by lia.
      cbn [events this now submitted seq map ticks_after].
      split; [|reflexivity]. f_equal. f_equal. now apply Hfirst.
    + apply Z.leb_gt in Hdone. rewrite wait_one_tick.
      assert (Hsplit : n = (k + (n - k))%nat) by lia.
      assert (Hq : ((n - 1) / k = S ((n - k - 1) / k))%nat).
      { replace (n - 1)%nat with (1 * k + (n - k - 1))%nat by lia.
        rewrite Nat.div_add_l by lia. reflexivity. }
      match goal with |- context [loop _ _ fuel N ?l' ?w'] =>
        destruct (IH l' w' (s + Z.of_nat k) (n - k)%nat) as (Hloop & Hsus);
        [exact Hlt | exact Hbs | reflexivity | lia | lia | lia |] end.
      cbn [map]. rewrite Hloop, Hsus, Hq. clear Hloop Hsus IH.
      cbn [events this now submitted set_now].
      split.
      * f_equal.
        -- rewrite <- app_assoc. f_equal. rewrite Hsplit at 2.
           rewrite arrivals_app. f_equal; [now apply Hfirst|].
           unfold arrivals. apply map_ext. intros j.
           unfold arrival, set_now. cbn [this now submitted].
           replace ((k + j) / k)%nat with (S (j / k)).
           ++ cbn [ticks_after]. do 3 f_equal. lia.
           ++ replace (k + j)%nat with (1 * k + j)%nat by lia.
              rewrite Nat.div_add_l by lia. reflexivity.
        -- cbn [ticks_after]. f_equal. lia.
      * cbn [seq map]. f_equal.
        now rewrite (map_seq_shift _ 1 ((n - k - 1) / k)).
Qed.

(** The batching branch with a finite batch size, for any count. *)
Lemma batch_sendEvents (w : world) (N k : Z) (fuel : nat) :
  (tickDelta (this w) <? 1)%float = true ->
  batchSize (this w) = Fin k ->
  1 <= k ->
  (Z.to_nat (Z.max 1 N) <= fuel)%nat ->
  sendEvents stage random fuel N w
  = Returns (arrivals stage random w
               (fun j => ticks_after (j / Z.to_nat k) 1%float (now w))
               (Z.to_nat N))
            {| this := set_arrivalRate (this w) 0%float;
               now := ticks_after ((Z.to_nat N - 1) / Z.to_nat k) 1%float (now w);
               submitted := (Z.to_nat N + submitted w)%nat |}
  /\ map now (suspensions stage random fuel N start_locals w)
     = map (fun q => ticks_after q 1%float (now w))
           (seq 0 ((Z.to_nat N - 1) / Z.to_nat k)).
Proof.
  intros Hlt Hbs Hge Hfuel. unfold sendEvents.
  destruct (Z.le_gt_cases N 0) as [Hnone|Hsome].
  - destruct fuel as [|fuel]; [lia|].
    cbn [loop suspensions].
    rewrite (iteration_batch k N 0 start_locals w Hlt Hbs eq_refl). cbv zeta.
    replace (N <? 0 + k) with true by (symmetry; apply Z.ltb_lt; lia).
    replace (N <=? 0 + (N - 0)) with true by (symmetry; apply Z.leb_le; lia).
    replace (Z.to_nat (N - 0)) with O by lia.
    replace (Z.to_nat N) with O by lia.
    rewrite (Nat.div_small (0 - 1) (Z.to_nat k)) by (cbn [Nat.sub]; lia).
    split; reflexivity.
  - assert (Hk : batchSize (this w) = Fin (Z.of_nat (Z.to_nat k))).
    { rewrite Z2Nat.id by lia. exact Hbs. }
    apply (batch_loop_arrivals (Z.to_nat k) N ltac:(lia) fuel start_locals
             w 0 (Z.to_nat N) Hlt Hk eq_refl); lia.
Qed.

(** X3: at a positive rate with [tickDelta < 1] and a finite batch size
    [k = floor(1 / tickDelta)], which is then at least 1, the event
    number [j] is created when the clock has been advanced [j / k]
    times by one tick: the events of one tick share their start time,
    two ticks are exactly one tick apart, and the loop returns the [N]
    promises, in the order of creation, at the reading of the last
    tick.  With an infinite batch size (an infinite rate) all the events
    are created at once. *)
Theorem batch_every_tick (w : world) (N : Z) (fuel : nat) :
  (0 <? eventsPer1000Ticks (this w))%float = true ->
  (tickDelta (this w) <? 1)%float = true ->
  (Z.to_nat (Z.max 1 N) <= fuel)%nat ->
  let n := Z.to_nat N in
  match batchSize (this w) with
  | Fin k =>
      1 <= k
      /\ sendEvents stage random fuel N w
         = Returns (arrivals stage random w
                      (fun j => ticks_after (j / Z.to_nat k) 1%float (now w)) n)
                   {| this := set_arrivalRate (this w) 0%float;
                      now := ticks_after ((n - 1) / Z.to_nat k) 1%float (now w);
                      submitted := (n + submitted w)%nat |}
      /\ map now (suspensions stage random fuel N start_locals w)
         = map (fun q => ticks_after q 1%float (now w))
               (seq 0 ((n - 1) / Z.to_nat k))
  | _ =>
      sendEvents stage random fuel N w
      = Returns (arrivals stage random w (fun _ => now w) n)
                {| this := set_arrivalRate (this w) 0%float;
                   now := now w;
                   submitted := (n + submitted w)%nat |}
      /\ suspensions stage random fuel N start_locals w = []
  end.
Proof.
  intros Hrate Hlt Hfuel n.
  pose proof (batch_size_at_least_one _ Hrate Hlt) as Hge.
  fold (tickDelta (this w)) in Hge. fold (batchSize (this w)) in Hge.
  unfold sendEvents.
  destruct (batchSize (this w)) as [k| | |] eqn:Hbs; cbn [igeb] in Hge;
    try discriminate.
  - apply Z.leb_le in Hge. split; [exact Hge|].
    apply (batch_sendEvents w N k fuel Hlt Hbs Hge Hfuel).
  - destruct fuel as [|fuel]; [lia|].
    cbn [loop suspensions].
    rewrite (iteration_unbounded_batch N 0 start_locals w Hlt Hbs eq_refl).
    cbv zeta. rewrite createEvents_world, createEvents_emitting.
    rewrite Z.sub_0_r. split; reflexivity.
Qed.

(** *** Which call each promise belongs to *)

Lemma createEvents_created (n : nat) :
  forall w : world,
    Forall2 (created stage random) (seq (submitted w) n)
            (fst (createEvents stage random n w)).
Proof.
  induction n as [|n IH]; intros w; [constructor|].
  cbn [createEvents seq].
  pose proof (createEvent_world w) as Hw.
  destruct (createEvent stage random w) as [p w1] eqn:Hc. cbn [snd] in Hw.
  specialize (IH w1). rewrite Hw in IH at 1. cbn [submitted] in IH.
  destruct (createEvents stage random n w1) as [ps w2]. cbn [fst] in IH |- *.
  constructor; [|exact IH].
  exists w. split; [reflexivity|]. now rewrite Hc.
Qed.

Lemma created_app (n0 : nat) (ps qs : list (promise Event)) :
  Forall2 (created stage random) (seq n0 (List.length ps)) ps ->
  Forall2 (created stage random)
          (seq (n0 + List.length ps) (List.length qs)) qs ->
  Forall2 (created stage random)
          (seq n0 (List.length (ps ++ qs))) (ps ++ qs).
Proof.
  intros Hp Hq. rewrite length_app, seq_app. now apply Forall2_app.
Qed.

Lemma iteration_created (N : Z) (l : locals) (w : world) (n0 : nat) :
  Forall2 (created stage random) (seq n0 (List.length (events l))) (events l) ->
  submitted w = (n0 + List.length (events l))%nat ->
  match iteration stage random N l w with
  | Break l' w' | Await _ l' w' =>
      Forall2 (created stage random)
              (seq n0 (List.length (events l'))) (events l')
      /\ submitted w' = (n0 + List.length (events l'))%nat
  | Spinning => True
  end.
Proof.
  intros Hl Hsub. unfold iteration.
  destruct (_ <? _)%float.
  - match goal with |- context [createEventBatch _ _ ?n ?w0] =>
      assert (Hbatch : forall batch w',
                createEventBatch stage random n w0 = Some (batch, w') ->
                Forall2 (created stage random)
                        (seq (submitted w) (List.length batch)) batch
                /\ submitted w' = (List.length batch + submitted w)%nat);
      [|destruct (createEventBatch stage random n w0) as [[batch w']|];
        [|exact I]] end.
    { intros batch w' Hb.
      pose proof (createEventBatch_world _ _ _ _ Hb) as [-> _].
      split; [|reflexivity].
      destruct (if igtb _ _ then _ else _) as [z| | |];
        cbn [createEventBatch] in Hb; try discriminate.
      - match type of Hb with Some (createEvents _ _ ?m ?w0) = _ =>
          pose proof (createEvents_created m w0) as Hc;
          pose proof (createEvents_length m w0) as Hlen;
          destruct (createEvents stage random m w0) as [ps w2] end.
        cbn [fst] in Hc, Hlen. injection Hb as <- _. now rewrite Hlen.
      - injection Hb as <- _. constructor.
      - injection Hb as <- _. constructor. }
    destruct (Hbatch batch w' eq_refl) as [Hc Hw'].
    assert (Forall2 (created stage random)
              (seq n0 (List.length (events l ++ batch))) (events l ++ batch)
            /\ submitted w' = (n0 + List.length (events l ++ batch))%nat).
    { split; [apply created_app; [exact Hl|now rewrite <- Hsub]|].
      rewrite length_app. lia. }
    destruct (igeb _ _); cbn [events]; assumption.
  - pose proof (createEvent_world (emitting w)) as Hw'. unfold emitting in Hw'.
    destruct (createEvent stage random _) as [p w'] eqn:Hc. cbn [snd] in Hw'.
    assert (Forall2 (created stage random)
              (seq n0 (List.length (events l ++ [p]))) (events l ++ [p])
            /\ submitted w' = (n0 + List.length (events l ++ [p]))%nat).
    { split.
      - apply created_app; [exact Hl|]. cbn [List.length seq].
        constructor; [|constructor].
        eexists. split; [|now rewrite Hc]. cbn [submitted]. exact Hsub.
      - rewrite Hw', length_app. cbn [submitted List.length]. lia. }
    destruct (igeb _ _); cbn [events]; assumption.
Qed.

Lemma loop_created (fuel : nat) (N : Z) (n0 : nat) :
  forall (l : locals) (w : world),
    Forall2 (created stage random) (seq n0 (List.length (events l))) (events l) ->
    submitted w = (n0 + List.length (events l))%nat ->
    match loop stage random fuel N l w with
    | Returns ps w' =>
        Forall2 (created stage random) (seq n0 (List.length ps)) ps
        /\ submitted w' = (n0 + List.length ps)%nat
    | _ => True
    end.
Proof.
  induction fuel as [|fuel IH]; intros l w Hl Hsub; [exact I|].
  cbn [loop].
  pose proof (iteration_created N l w n0 Hl Hsub) as Hi.
  destruct (iteration stage random N l w) as [l' w'|ticks l' w'|]; try exact I.
  - exact Hi.
  - destruct (Metronome.wait ticks (now w')) as [t'|]; [|exact I].
    apply IH; [apply Hi|]. cbn [set_now submitted]. apply Hi.
Qed.

(** What [createEvent] fulfils its promise with. *)
Lemma createEvent_fulfilled (w : world) (t : number) (e : Event) :
  fst (createEvent stage random w) = Settled t (Fulfilled e) ->
  exists v : value,
    (accept stage (submitted w) (submitted_event random w)
       = Settled t (Fulfilled v)
     \/ accept stage (submitted w) (submitted_event random w)
        = Settled t (Rejected v))
    /\ e = settle (submitted_event random w) t v.
Proof.
  unfold createEvent. cbn [fst]. fold (submitted_event random w).
  destruct (accept stage (submitted w) (submitted_event random w))
    as [|u [v|v]]; cbn [then_ catch_]; intros H; try discriminate;
    injection H as <- <-; exists v; auto.
Qed.

Lemma createEvent_pending (w : world) :
  accept stage (submitted w) (submitted_event random w) = Pending ->
  fst (createEvent stage random w) = Pending.
Proof.
  unfold createEvent. cbn [fst]. fold (submitted_event random w).
  now intros ->.
Qed.

(** [Promise.all] is fulfilled with the values of its promises, in
    their order. *)
Lemma all_fulfilled_inv {A : Type} (t0 : number) (ps : list (promise A)) :
  forall (t : number) (evs : list A),
    Promise.all t0 ps = Settled t (Fulfilled evs) ->
    Forall2 fulfilled_with ps evs.
Proof.
  induction ps as [|p ps IH]; intros t evs; cbn [Promise.all].
  - intros [= _ <-]. constructor.
  - destruct p as [|u [a|r]], (Promise.all t0 ps) as [|u' [l|r']];
      cbn [join]; try discriminate.
    + intros [= _ <-]. constructor; [now exists u|]. now apply (IH u').
    + destruct (u' <? u)%float; discriminate.
Qed.

(** One promise that never settles keeps [Promise.all] pending, as long
    as none is rejected. *)
Lemma all_pending {A : Type} (t0 : number) (ps : list (promise A)) :
  Forall (fun p => rejected p = false) ps ->
  In Pending ps ->
  Promise.all t0 ps = Pending.
Proof.
  induction 1 as [|p ps Hp Hps IH]; [intros []|].
  cbn [Promise.all]. pose proof (all_not_rejected t0 ps Hps) as Hall.
  intros [->|Hin].
  - destruct (Promise.all t0 ps) as [|u [l|r]]; try discriminate; reflexivity.
  - rewrite (IH Hin). destruct p as [|u [a|r]]; try discriminate; reflexivity.
Qed.

Lemma Forall2_seq_nth_error {A B : Type} (R : nat -> A -> Prop)
    (Q : A -> B -> Prop) (ps : list A) :
  forall (n0 : nat) (evs : list B),
    Forall2 R (seq n0 (List.length ps)) ps ->
    Forall2 Q ps evs ->
    forall (i : nat) (e : B),
      nth_error evs i = Some e -> exists p, R (n0 + i)%nat p /\ Q p e.
Proof.
  induction ps as [|p ps IH]; intros n0 evs HR HQ i e Hnth.
  - inversion HQ; subst. now destruct i.
  - inversion HQ as [|p' e' ps' evs' Hpe Hrest]; subst.
    cbn [List.length seq] in HR. inversion HR as [|? ? ? ? Hp Hps]; subst.
    destruct i as [|i]; cbn [nth_error] in Hnth.
    + injection Hnth as <-. exists p. rewrite Nat.add_0_r. now split.
    + destruct (IH (S n0) evs' Hps Hrest i e Hnth) as (q & Hq & Hqe).
      exists q. split; [|exact Hqe]. now rewrite Nat.add_succ_r.
Qed.

(** X4: whenever [run] returns, whatever the stage, the rate and the
    count, it returns one event per submission, in the order of
    submission: the event number [i] is the event that was handed to
    the call number [i] of the stage, with the key drawn for it, and it
    carries the outcome of that call: its response is the value the
    call was fulfilled or rejected with, and its end time is the
    reading of the clock at which the call settled. *)
Theorem run_returns_the_outcome_of_every_call (fuel : nat) (sim : Simulation)
    (N : Z) (evs : list Event) (w' : world) :
  run stage random fuel sim N = Returns evs w' ->
  List.length evs = submitted w'
  /\ forall (i : nat) (e : Event),
       nth_error evs i = Some e ->
       exists (w_i : world) (t : number) (v : value),
         submitted w_i = i
         /\ (accept stage i (submitted_event random w_i)
               = Settled t (Fulfilled v)
             \/ accept stage i (submitted_event random w_i)
                = Settled t (Rejected v))
         /\ e = settle (submitted_event random w_i) t v
         /\ key e = ("e-" ++ intnum_text (floor (random i * 500)%float))%string
         /\ response e = Some v
         /\ startTime (responseTime e) = Some (now w_i)
         /\ endTime (responseTime e) = Some t.
Proof.
  unfold run, sendEvents. fold (start_world sim).
  pose proof (loop_created fuel N 0 start_locals (start_world sim)
                (Forall2_nil _) eq_refl) as Hc.
  destruct (loop stage random fuel N start_locals (start_world sim))
    as [ps w0|r w0|w0|w0| |]; try discriminate.
  destruct Hc as [Hc Hsub].
  destruct (Promise.all (now w0) ps) as [|t [l|r]] eqn:Hall; try discriminate.
  intros [= <- <-].
  pose proof (all_fulfilled_inv _ _ _ _ Hall) as Hf.
  split.
  - cbn [set_now submitted]. rewrite Hsub, (Forall2_length Hf). reflexivity.
  - intros i e Hnth.
    destruct (Forall2_seq_nth_error _ _ ps 0 l Hc Hf i e Hnth)
      as (p & (w_i & Hi & ->) & (u & Hp)).
    cbn [Nat.add] in Hi.
    destruct (createEvent_fulfilled w_i u e Hp) as (v & Hacc & ->).
    rewrite Hi in Hacc.
    exists w_i, u, v. split; [exact Hi|]. split; [exact Hacc|].
    split; [reflexivity|]. rewrite <- Hi. repeat split.
Qed.

(** X5: the run waits for every call: when the arrival loop has sent
    its events and one of the calls it made never settles, [run] never
    returns. *)
Theorem unsettled_call_stalls_the_run (fuel : nat) (sim : Simulation) (N : Z)
    (ps : list (promise Event)) (w' : world) (n : nat) :
  sendEvents stage random fuel N (start_world sim) = Returns ps w' ->
  (n < submitted w')%nat ->
  (forall e : Event, accept stage n e = Pending) ->
  run stage random fuel sim N = Hangs w'.
Proof.
  intros Hsend Hn Hpending. unfold run. fold (start_world sim). rewrite Hsend.
  unfold sendEvents in Hsend.
  pose proof (loop_created fuel N 0 start_locals (start_world sim)
                (Forall2_nil _) eq_refl) as Hc.
  pose proof (loop_Forall (fun _ => True) (fun p => rejected p = false)
                (fun _ _ _ _ _ => I) (fun w0 _ => createEvent_not_rejected w0)
                fuel N start_locals (start_world sim) I (Forall_nil _)) as Hr.
  rewrite Hsend in Hc, Hr. destruct Hc as [Hc Hsub]. cbn [Nat.add] in Hsub.
  assert (Hin : In Pending ps).
  { destruct (nth_error ps n) as [p|] eqn:Hnth.
    - assert (Hsame : Forall2 eq ps ps).
      { clear. induction ps; constructor; auto. }
      destruct (Forall2_seq_nth_error _ _ ps 0 ps Hc Hsame n p Hnth)
        as (q & (w_n & Hw & ->) & <-).
      cbn [Nat.add] in Hw. apply nth_error_In in Hnth.
      rewrite createEvent_pending in Hnth; [exact Hnth|].
      rewrite Hw. apply Hpending.
    - apply nth_error_None in Hnth. lia. }
  now rewrite (all_pending (now w') ps Hr Hin).
Qed.

(** *** The settings the engine does not read *)

Lemma createEvents_keyspace (mean std : number) (n : nat) :
  forall w : world,
    createEvents stage random n (with_keyspace mean std w)
    = (fst (createEvents stage random n w),
       with_keyspace mean std (snd (createEvents stage random n w))).
Proof.
  induction n as [|n IH]; intros w; [reflexivity|].
  cbn [createEvents].
  change (createEvent stage random (with_keyspace mean std w))
    with (fst (createEvent stage random w),
          with_keyspace mean std (snd (createEvent stage random w))).
  destruct (createEvent stage random w) as [p w1]. cbn [fst snd].
  rewrite IH. now destruct (createEvents stage random n w1).
Qed.

Lemma iteration_keyspace (mean std : number) (N : Z) (l : locals) (w : world) :
  iteration stage random N l (with_keyspace mean std w)
  = match iteration stage random N l w with
    | Break l' w' => Break l' (with_keyspace mean std w')
    | Await ticks l' w' => Await ticks l' (with_keyspace mean std w')
    | Spinning => Spinning
    end.
Proof.
  unfold iteration.
  change (eventsPer1000Ticks (this (with_keyspace mean std w)))
    with (eventsPer1000Ticks (this w)).
  fold (emitting w).
  change {| this := set_arrivalRate (this (with_keyspace mean std w))
                      (eventsPer1000Ticks (this w));
            now := now (with_keyspace mean std w);
            submitted := submitted (with_keyspace mean std w) |}
    with (with_keyspace mean std (emitting w)).
  change (createEvent stage random (with_keyspace mean std (emitting w)))
    with (fst (createEvent stage random (emitting w)),
          with_keyspace mean std (snd (createEvent stage random (emitting w)))).
  destruct (_ <? _)%float.
  - destruct (if igtb _ _ then _ else _) as [z| | |]; cbn [createEventBatch];
      try reflexivity.
    + rewrite createEvents_keyspace.
      destruct (createEvents stage random (Z.to_nat z) (emitting w)) as [ps w2].
      cbn [fst snd]. destruct (igeb _ _); reflexivity.
    + destruct (igeb _ _); reflexivity.
    + destruct (igeb _ _); reflexivity.
  - destruct (createEvent stage random (emitting w)) as [p w1].
    cbn [fst snd]. destruct (igeb _ _); reflexivity.
Qed.

Lemma loop_keyspace (mean std : number) (fuel : nat) (N : Z) :
  forall (l : locals) (w : world),
    loop stage random fuel N l (with_keyspace mean std w)
    = map_world (with_keyspace mean std) (loop stage random fuel N l w).
Proof.
  induction fuel as [|fuel IH]; intros l w; [reflexivity|].
  cbn [loop]. rewrite iteration_keyspace.
  destruct (iteration stage random N l w) as [l' w'|ticks l' w'|];
    try reflexivity.
  change (now (with_keyspace mean std w')) with (now w').
  destruct (Metronome.wait ticks (now w')) as [t|]; [|reflexivity].
  change (set_now (with_keyspace mean std w') t)
    with (with_keyspace mean std (set_now w' t)).
  apply IH.
Qed.

(** X6: the engine never reads [keyspaceMean] and [keyspaceStd]: with
    other values for them the arrival loop and the run end the same
    way, with the same promises and the same events (keys, stamps and
    responses), at the same reading of the clock; only the simulation
    object carries the other values. *)
Theorem keyspace_settings_are_not_used (mean std : number) (fuel : nat)
    (sim : Simulation) (N : Z) :
  (forall w : world,
      sendEvents stage random fuel N (with_keyspace mean std w)
      = map_world (with_keyspace mean std) (sendEvents stage random fuel N w))
  /\ run stage random fuel (set_keyspace sim mean std) N
     = map_world (with_keyspace mean std) (run stage random fuel sim N).
Proof.
  split; [intros w; apply loop_keyspace|].
  unfold run, sendEvents.
  change {| this := set_keyspace sim mean std; now := Metronome.start;
            submitted := 0 |}
    with (with_keyspace mean std (start_world sim)).
  rewrite loop_keyspace. fold (start_world sim).
  destruct (loop stage random fuel N start_locals (start_world sim))
    as [ps w'|r w'|w'|w'| |]; try reflexivity.
  cbn [map_world]. change (now (with_keyspace mean std w')) with (now w').
  destruct (Promise.all (now w') ps) as [|t [evs|r]]; reflexivity.
Qed.

(** *** Whole ticks *)

Lemma ticks_after_of_nat (D : nat) :
  forall n t0 : nat,
    Z.of_nat (t0 + n * D) < 2 ^ 53 ->
    ticks_after n (of_nat D) (of_nat t0) = of_nat (t0 + n * D).
Proof.
  induction n as [|n IH]; intros t0 Hlt; cbn [ticks_after].
  - f_equal. lia.
  - change (of_nat t0 + of_nat D)%float
      with (of_int (Z.of_nat t0) + of_int (Z.of_nat D))%float.
    rewrite add_of_int, <- Nat2Z.inj_add by lia.
    change (of_int (Z.of_nat (t0 + D))) with (of_nat (t0 + D)).
    rewrite IH by lia. f_equal. lia.
Qed.

Lemma arrivals_indexed (w : world) (time : nat -> number) (n : nat) :
  Forall2 (fun i p => p = fst (createEvent stage random (arrival w i (time i))))
          (seq 0 (List.length (arrivals stage random w time n)))
          (arrivals stage random w time n).
Proof.
  unfold arrivals. rewrite length_map, length_seq.
  induction (seq 0 n) as [|i l IH]; cbn [map]; constructor; auto.
Qed.

(** When every call settles, the run returns the events of the
    promises, each with the start time at which it was created. *)
Lemma run_of_arrivals (sim : Simulation) (N : Z) (fuel : nat)
    (time : nat -> number) (n : nat) (w1 : world) :
  sendEvents stage random fuel N (start_world sim)
  = Returns (arrivals stage random (start_world sim) time n) w1 ->
  (forall (m : nat) (e : Event), exists t st, accept stage m e = Settled t st) ->
  exists evs w',
    run stage random fuel sim N = Returns evs w'
    /\ List.length evs = n
    /\ forall (i : nat) (e : Event),
         nth_error evs i = Some e ->
         startTime (responseTime e) = Some (time i).
Proof.
  intros Hsend Hstage. unfold run. fold (start_world sim). rewrite Hsend.
  set (ps := arrivals stage random (start_world sim) time n).
  assert (Hful : Forall (fun p => exists t a, p = Settled t (Fulfilled a) /\ True)
                        ps).
  { unfold ps, arrivals. apply Forall_map, Forall_forall. intros i _.
    unfold createEvent. cbn [fst].
    destruct (Hstage (submitted (arrival (start_world sim) i (time i)))
                (set_startTime
                   (new_Event
                      ("e-" ++ intnum_text
                                 (floor (random (submitted
                                           (arrival (start_world sim) i (time i)))
                                         * 500)%float)))
                   (now (arrival (start_world sim) i (time i)))))
      as (t & [v|v] & ->); cbn [then_ catch_]; eauto. }
  destruct (all_fulfilled (fun _ => True) (now w1) ps Hful)
    as (t & evs & Hall & Hlen & _).
  rewrite Hall. exists evs, (set_now w1 t).
  split; [reflexivity|]. split.
  - rewrite Hlen. unfold ps, arrivals. now rewrite length_map, length_seq.
  - intros i e Hnth.
    destruct (Forall2_seq_nth_error _ _ ps 0 evs
                (arrivals_indexed (start_world sim) time n)
                (all_fulfilled_inv _ _ _ _ Hall) i e Hnth)
      as (p & -> & (u & Hp)).
    cbn [Nat.add] in Hp.
    destruct (createEvent_fulfilled _ u e Hp) as (v & _ & ->).
    reflexivity.
Qed.

(** X12: with the clock started at 0, at a positive rate with
    [tickDelta < 1] and a finite batch size [k], and a stage whose every
    call settles, the run returns the [N] events and the event number
    [j] has the start time [floor(j / k)], a whole number of ticks: [k]
    events start at 0, the next [k] at 1, and so on. *)
Theorem batches_start_on_whole_ticks (sim : Simulation) (N k : Z) (fuel : nat) :
  (0 <? eventsPer1000Ticks sim)%float = true ->
  (tickDelta sim <? 1)%float = true ->
  batchSize sim = Fin k ->
  N < 2 ^ 53 ->
  (forall (m : nat) (e : Event), exists t st, accept stage m e = Settled t st) ->
  (Z.to_nat (Z.max 1 N) <= fuel)%nat ->
  exists evs w',
    run stage random fuel sim N = Returns evs w'
    /\ List.length evs = Z.to_nat N
    /\ forall (j : nat) (e : Event),
         nth_error evs j = Some e ->
         startTime (responseTime e) = Some (of_nat (j / Z.to_nat k)).
Proof.
  intros Hrate Hlt Hk HN Hstage Hfuel.
  pose proof (batch_size_at_least_one _ Hrate Hlt) as Hk1.
  fold (tickDelta sim) in Hk1. fold (batchSize sim) in Hk1.
  rewrite Hk in Hk1. cbn [igeb] in Hk1. apply Z.leb_le in Hk1.
  destruct (batch_sendEvents (start_world sim) N k fuel Hlt Hk Hk1 Hfuel)
    as (Hsend & _).
  cbn [start_world this now] in Hsend.
  destruct (run_of_arrivals sim N fuel _ _ _ Hsend Hstage)
    as (evs & w' & Hrun & Hlen & Htimes).
  exists evs, w'. split; [exact Hrun|]. split; [exact Hlen|].
  intros j e Hnth. rewrite (Htimes j e Hnth). f_equal.
  assert (Hj : (j < Z.to_nat N)%nat).
  { rewrite <- Hlen. apply nth_error_Some. congruence. }
  assert (Hdiv : (j / Z.to_nat k <= j)%nat) by (apply Nat.Div0.div_le_upper_bound; nia).
  change 1%float with (of_nat 1). change Metronome.start with (of_nat 0).
  rewrite ticks_after_of_nat by lia. f_equal. lia.
Qed.

(** X13: with the clock started at 0, at a rate whose [tickDelta] is a
    whole number [D >= 1] of ticks (20 at the default rate of 50), and a
    stage whose every call settles, the run returns [max(1, N)] events
    and the event number [i] has the start time [i * D]. *)
Theorem events_start_tickDelta_apart (sim : Simulation) (N : Z) (D fuel : nat) :
  tickDelta sim = of_nat D ->
  (1 <= D)%nat ->
  Z.of_nat D * Z.max 1 N < 2 ^ 53 ->
  (forall (m : nat) (e : Event), exists t st, accept stage m e = Settled t st) ->
  (Z.to_nat (Z.max 1 N) <= fuel)%nat ->
  exists evs w',
    run stage random fuel sim N = Returns evs w'
    /\ List.length evs = Z.to_nat (Z.max 1 N)
    /\ forall (i : nat) (e : Event),
         nth_error evs i = Some e ->
         startTime (responseTime e) = Some (of_nat (i * D)).
Proof.
  intros HD H1 Hbound Hstage Hfuel.
  assert (HDlt : Z.of_nat D < 2 ^ 53) by nia.
  assert (Hlt : (tickDelta (this (start_world sim)) <? 1)%float = false).
  { cbn [start_world this]. rewrite HD. now apply of_nat_not_below_one. }
  assert (Hfin : isFinite (tickDelta (this (start_world sim))) = true).
  { cbn [start_world this]. rewrite HD. now apply isFinite_of_nat. }
  destruct (single_loop_arrivals N (tickDelta sim) Hlt Hfin fuel start_locals
              (start_world sim) 0 (Z.to_nat (Z.max 1 N)) eq_refl eq_refl)
    as (Hsend & _); [now rewrite Z.sub_0_r|exact Hfuel|].
  fold (sendEvents stage random fuel N (start_world sim)) in Hsend.
  destruct (run_of_arrivals sim N fuel _ _ _ Hsend Hstage)
    as (evs & w' & Hrun & Hlen & Htimes).
  exists evs, w'. split; [exact Hrun|]. split; [exact Hlen|].
  intros i e Hnth. rewrite (Htimes i e Hnth). f_equal.
  assert (Hi : (i < Z.to_nat (Z.max 1 N))%nat).
  { rewrite <- Hlen. apply nth_error_Some. congruence. }
  cbn [start_world this now]. rewrite HD.
  change Metronome.start with (of_nat 0).
  rewrite ticks_after_of_nat by nia. f_equal.
Qed.

(** *** Keys *)

(** X16: the key of an event is the text e-0, e-1, ... or e-499: with
    a draw [0 <= Math.random() < 1], [Math.floor(Math.random() * 500)]
    is a whole number from 0 to 499, and the event that [createEvent]
    hands to the stage, and later fulfils its promise with, carries
    that number after the text e-. *)
Theorem keys_are_among_500 (w : world) :
  nonneg (random (submitted w)) = true ->
  (random (submitted w) <? 1)%float = true ->
  exists z : Z,
    0 <= z <= 499
    /\ key (submitted_event random w) = ("e-" ++ digits_of z)%string
    /\ forall (t : number) (e : Event),
         fst (createEvent stage random w) = Settled t (Fulfilled e) ->
         key e = ("e-" ++ digits_of z)%string.
Proof.
  intros Hnn Hlt.
  destruct (floor_times_500 _ Hnn Hlt) as (z & Hz & Hfloor).
  assert (Hkey : key (submitted_event random w) = ("e-" ++ digits_of z)%string).
  { unfold submitted_event. cbn [key set_startTime new_Event].
    rewrite Hfloor. unfold intnum_text.
    now replace (z <? 0) with false by (symmetry; apply Z.ltb_ge; lia). }
  exists z. split; [exact Hz|]. split; [exact Hkey|].
  intros t e He. destruct (createEvent_fulfilled w t e He) as (v & _ & ->).
  exact Hkey.
Qed.

(** *** The arrival rate during a run *)

Lemma createEvents_calls_spec (n : nat) :
  forall w : world,
    fst (createEvents stage random n w)
    = map (fun c => fst (createEvent stage random c))
          (createEvents_calls stage random n w)
    /\ Forall (fun c => this c = this w) (createEvents_calls stage random n w)
    /\ List.length (createEvents_calls stage random n w) = n.
Proof.
  induction n as [|n IH]; intros w; [now repeat split|].
  cbn [createEvents createEvents_calls].
  destruct (IH (snd (createEvent stage random w))) as (Hps & Hthis & Hlen).
  destruct (createEvent stage random w) as [p w1] eqn:Hc.
  assert (Hw1 : this w1 = this w).
  { change w1 with (snd (p, w1)). rewrite <- Hc. reflexivity. }
  cbn [snd] in *.
  destruct (createEvents stage random n w1) as [ps w2]. cbn [fst] in *.
  split; [|split].
  - cbn [map]. rewrite Hc. cbn [fst]. now f_equal.
  - constructor; [reflexivity|].
    revert Hthis. apply Forall_impl. intros c ->. exact Hw1.
  - cbn [List.length]. now f_equal.
Qed.

(** The stage is called with the rate already published. *)
Lemma iteration_calls_exposed (N : Z) (l : locals) (w : world) :
  Forall (fun c => getArrivalRate (this c) = eventsPer1000Ticks (this w))
         (iteration_calls stage random N l w).
Proof.
  unfold iteration_calls.
  destruct (_ <? _)%float.
  - destruct (if igtb _ _ then _ else _) as [z| | |]; try constructor.
    match goal with |- context [createEvents_calls _ _ ?n ?w0] =>
      destruct (createEvents_calls_spec n w0) as (_ & Hthis & _) end.
    revert Hthis. apply Forall_impl. intros c ->. reflexivity.
  - constructor; [reflexivity|constructor].
Qed.

(** The simulation object a pass leaves is the one its calls found. *)
Lemma iteration_calls_this (N : Z) (l : locals) (w : world) :
  match iteration stage random N l w with
  | Break _ w' | Await _ _ w' =>
      Forall (fun c => this c = this w') (iteration_calls stage random N l w)
      /\ getArrivalRate (this w') = eventsPer1000Ticks (this w)
  | Spinning => True
  end.
Proof.
  pose proof (iteration_world N l w) as Hw.
  pose proof (iteration_calls_exposed N l w) as Hx.
  assert (Hall : Forall (fun c => this c
                          = set_arrivalRate (this w) (eventsPer1000Ticks (this w)))
                   (iteration_calls stage random N l w)).
  { unfold iteration_calls.
    destruct (_ <? _)%float.
    - destruct (if igtb _ _ then _ else _) as [z| | |]; try constructor.
      match goal with |- context [createEvents_calls _ _ ?n ?w0] =>
        destruct (createEvents_calls_spec n w0) as (_ & Hthis & _) end.
      exact Hthis.
    - constructor; [reflexivity|constructor]. }
  destruct (iteration stage random N l w) as [l' w'|ticks l' w'|];
    [| |exact I]; destruct Hw as [-> _]; (split; [exact Hall|reflexivity]).
Qed.

(** The promises a pass collects are those of its calls. *)
Lemma iteration_calls_events (N : Z) (l : locals) (w : world) :
  match iteration stage random N l w with
  | Break l' _ | Await _ l' _ =>
      events l'
      = events l ++ map (fun c => fst (createEvent stage random c))
                        (iteration_calls stage random N l w)
  | Spinning => True
  end.
Proof.
  unfold iteration, iteration_calls.
  destruct (_ <? _)%float.
  - destruct (if igtb _ _ then _ else _) as [z| | |]; cbn [createEventBatch];
      try exact I.
    + match goal with |- context [createEvents _ _ ?n ?w0] =>
        destruct (createEvents_calls_spec n w0) as (Hps & _ & _);
        destruct (createEvents stage random n w0) as [ps w1] end.
      cbn [fst] in Hps. rewrite <- Hps.
      destruct (igeb _ _); reflexivity.
    + destruct (igeb _ _); reflexivity.
    + destruct (igeb _ _); reflexivity.
  - match goal with |- context [createEvent _ _ ?w0] =>
      destruct (createEvent stage random w0) as [p w1] eqn:Hc end.
    cbn [map]. rewrite Hc. destruct (igeb _ _); reflexivity.
Qed.

(** So are the promises the loop returns, and every call of the loop
    finds the rate published. *)
Lemma loop_calls (fuel : nat) (N : Z) :
  forall (l : locals) (w : world),
    match loop stage random fuel N l w with
    | Returns ps _ =>
        ps = events l ++ map (fun c => fst (createEvent stage random c))
                             (calls stage random fuel N l w)
    | _ => True
    end
    /\ Forall (fun c => getArrivalRate (this c) = eventsPer1000Ticks (this w))
              (calls stage random fuel N l w).
Proof.
  induction fuel as [|fuel IH]; intros l w; [split; [exact I|constructor]|].
  cbn [loop calls].
  pose proof (iteration_calls_events N l w) as He.
  pose proof (iteration_calls_exposed N l w) as Hx.
  pose proof (iteration_world N l w) as Hw.
  destruct (iteration stage random N l w) as [l' w'|ticks l' w'|].
  - rewrite app_nil_r. split; [exact He|exact Hx].
  - destruct Hw as [Hthis _].
    destruct (Metronome.wait ticks (now w')) as [t|].
    + destruct (IH l' (set_now w' t)) as [Hps Hall].
      cbn [set_now this] in Hall. rewrite Hthis in Hall.
      split.
      * destruct (loop stage random fuel N l' (set_now w' t)); try exact I.
        rewrite Hps, He, map_app. now rewrite <- app_assoc.
      * apply Forall_app. split; [exact Hx|exact Hall].
    + rewrite app_nil_r. split; [exact I|exact Hx].
  - rewrite app_nil_r. split; [exact I|exact Hx].
Qed.

(** A loop that returns has suspended once between two passes. *)
Lemma loop_passes (fuel : nat) (N : Z) :
  forall (l : locals) (w : world),
    match loop stage random fuel N l w with
    | Returns _ _ =>
        List.length (emitted stage random fuel N l w)
        = S (List.length (suspensions stage random fuel N l w))
    | _ => True
    end.
Proof.
  induction fuel as [|fuel IH]; intros l w; [exact I|].
  cbn [loop emitted suspensions].
  destruct (iteration stage random N l w) as [l' w'|ticks l' w'|];
    [reflexivity| |exact I].
  destruct (Metronome.wait ticks (now w')) as [t|]; [|exact I].
  specialize (IH l' (set_now w' t)).
  destruct (loop stage random fuel N l' (set_now w' t)); try exact I.
  cbn [List.length]. now f_equal.
Qed.

(** With a positive rate, a finite [tickDelta] and a count of at least
    1 the loop returns, with as many promises as the count. *)
Lemma valid_configuration_returns (w : world) (N : Z) (fuel : nat) :
  1 <= N ->
  (0 <? eventsPer1000Ticks (this w))%float = true ->
  isFinite (tickDelta (this w)) = true ->
  (Z.to_nat N <= fuel)%nat ->
  exists ps w',
    sendEvents stage random fuel N w = Returns ps w'
    /\ List.length ps = Z.to_nat N.
Proof.
  intros HN Hrate Hfin Hfuel.
  destruct (tickDelta (this w) <? 1)%float eqn:Hlt.
  - destruct (batch_branch_returns w N fuel Hrate Hlt HN Hfuel)
      as (ps & w' & Hs & Hps & _).
    now exists ps, w'.
  - destruct (single_loop N fuel start_locals w 0 Hlt Hfin eq_refl)
      as (ps & w' & Hs & Hps & _); [lia|lia|].
    exists ps, w'. split; [exact Hs|]. rewrite Hps. f_equal. lia.
Qed.

(** C8: a fresh simulation reports a zero arrival rate.  In every run,
    every call of the stage and every suspension of the arrival loop
    finds [getArrivalRate] returning the configured
    [eventsPer1000Ticks], every pass ends with the simulation object its
    calls found, and a loop that has returned leaves the rate at zero.
    With a positive rate, a finite [tickDelta] and a count of at
    least 1 there are such moments: the loop returns, its promises are
    those of as many calls of the stage as the count, it has suspended
    once between any two passes ([numEventsToSend - 1] times in the
    single-event branch, [(numEventsToSend - 1) / k] times when it
    batches [k] events), and when [run] ends, or waits for the stage,
    the rate is zero again. *)
Theorem getArrivalRate_during_and_after (w : world) (N : Z) (fuel : nat) :
  1 <= N ->
  (0 <? eventsPer1000Ticks (this w))%float = true ->
  isFinite (tickDelta (this w)) = true ->
  (Z.to_nat N <= fuel)%nat ->
  let rate := eventsPer1000Ticks (this w) in
  getArrivalRate simulation = 0%float
  /\ (forall (fuel0 : nat) (N0 : Z) (l0 : locals) (w0 : world),
        Forall (fun c => getArrivalRate (this c) = eventsPer1000Ticks (this w0))
               (calls stage random fuel0 N0 l0 w0)
        /\ Forall (fun c => getArrivalRate (this c) = eventsPer1000Ticks (this w0))
                  (suspensions stage random fuel0 N0 l0 w0)
        /\ match iteration stage random N0 l0 w0 with
           | Break _ w' | Await _ _ w' =>
               Forall (fun c => this c = this w')
                      (iteration_calls stage random N0 l0 w0)
               /\ getArrivalRate (this w') = eventsPer1000Ticks (this w0)
           | Spinning => True
           end
        /\ match loop stage random fuel0 N0 l0 w0 with
           | Returns _ w' => getArrivalRate (this w') = 0%float
           | _ => True
           end)
  /\ (exists ps w',
        sendEvents stage random fuel N w = Returns ps w'
        /\ List.length ps = Z.to_nat N
        /\ ps = map (fun c => fst (createEvent stage random c))
                    (calls stage random fuel N start_locals w)
        /\ getArrivalRate (this w') = 0%float
        /\ eventsPer1000Ticks (this w') = rate)
  /\ List.length (calls stage random fuel N start_locals w) = Z.to_nat N
  /\ List.length (emitted stage random fuel N start_locals w)
     = S (List.length (suspensions stage random fuel N start_locals w))
  /\ ((tickDelta (this w) <? 1)%float = false ->
      List.length (suspensions stage random fuel N start_locals w)
      = (Z.to_nat N - 1)%nat)
  /\ (forall k : Z,
        (tickDelta (this w) <? 1)%float = true -> batchSize (this w) = Fin k ->
        List.length (suspensions stage random fuel N start_locals w)
        = ((Z.to_nat N - 1) / Z.to_nat k)%nat)
  /\ match run stage random fuel (this w) N with
     | Returns _ w' | Hangs w' =>
         getArrivalRate (this w') = 0%float
         /\ eventsPer1000Ticks (this w') = rate
     | _ => False
     end.
Proof.
  intros HN Hrate Hfin Hfuel rate.
  split; [reflexivity|]. split.
  { intros fuel0 N0 l0 w0. split; [apply loop_calls|].
    split; [apply suspensions_rate|]. split; [apply iteration_calls_this|].
    pose proof (loop_resets_rate fuel0 N0 l0 w0) as H.
    destruct (loop stage random fuel0 N0 l0 w0); try exact I. apply H. }
  destruct (valid_configuration_returns w N fuel HN Hrate Hfin Hfuel)
    as (ps & w' & Hsend & Hlen).
  pose proof (proj1 (loop_calls fuel N start_locals w)) as Hcalls.
  pose proof (loop_resets_rate fuel N start_locals w) as Hreset.
  pose proof (loop_passes fuel N start_locals w) as Hpasses.
  unfold sendEvents in Hsend. rewrite Hsend in Hcalls, Hreset, Hpasses.
  cbn [events start_locals app] in Hcalls. destruct Hreset as [Hzero Hsame].
  split; [|split; [|split; [|split; [|split]]]].
  - exists ps, w'. unfold sendEvents. rewrite Hsend.
    repeat split; assumption.
  - rewrite <- Hlen, Hcalls. now rewrite length_map.
  - exact Hpasses.
  - intros Hlt.
    destruct (single_loop_arrivals N (tickDelta (this w)) Hlt Hfin fuel
                start_locals w 0 (Z.to_nat (Z.max 1 (N - 0))) eq_refl eq_refl
                eq_refl ltac:(lia)) as (_ & _ & Hsus).
    apply (f_equal (@List.length number)) in Hsus.
    rewrite !length_map, length_seq in Hsus. rewrite Hsus. f_equal. lia.
  - intros k Hlt Hbs.
    pose proof (batch_size_at_least_one _ Hrate Hlt) as Hge.
    fold (tickDelta (this w)) in Hge. fold (batchSize (this w)) in Hge.
    rewrite Hbs in Hge. cbn [igeb] in Hge. apply Z.leb_le in Hge.
    destruct (batch_sendEvents w N k fuel Hlt Hbs Hge ltac:(lia)) as [_ Hsus].
    apply (f_equal (@List.length number)) in Hsus.
    now rewrite !length_map, length_seq in Hsus.
  - destruct (valid_configuration_returns (start_world (this w)) N fuel
                HN Hrate Hfin Hfuel) as (ps0 & w0 & Hs0 & _).
    pose proof (loop_resets_rate fuel N start_locals (start_world (this w)))
      as Hreset0.
    pose proof (run_never_throws fuel (this w) N) as Hthrows.
    unfold run in Hthrows |- *. fold (start_world (this w)) in Hthrows |- *.
    rewrite Hs0 in Hthrows |- *. unfold sendEvents in Hs0.
    rewrite Hs0 in Hreset0. cbn [this start_world] in Hreset0.
    destruct (Promise.all (now w0) ps0) as [|t [evs|r]];
      cbn [throws] in Hthrows; try discriminate; exact Hreset0.
Qed.

End EngineFacts.

(** *** Concrete runs *)


(** Three events sent to a stage that rejects every call: [run] returns
    the three events, each with the rejection as its response. *)
Example run_with_a_failing_stage :
  run (failing_stage (Prim (PString "fail"))) half 2 (at_rate 2000) 3
  = Returns [completed 0 0 (Prim (PString "fail"));
             completed 0 0 (Prim (PString "fail"));
             completed 1 1 (Prim (PString "fail"))]
            {| this := at_rate 2000; now := 1%float; submitted := 3 |}.
Proof. vm_compute. reflexivity. Qed.




Lemma run_returns_every_event_witness :
  exists evs w',
    run prompt_stage half 5 (at_rate 2000) 5 = Returns evs w'
    /\ List.length evs = 5%nat
    /\ submitted w' = 5%nat
    /\ Forall well_timed evs.
Proof.
  apply (run_returns_every_event prompt_stage half (at_rate 2000) 5 5).
  - lia.
  - reflexivity.
  - reflexivity.
  - intros n e s Hs Hnn. exists s, (Fulfilled (Prim (PString "success"))).
    cbn [prompt_stage accept]. rewrite Hs. split; [reflexivity|].
    now apply leb_refl_nonneg.
  - lia.
Defined.


(** At 500 events per 1000 ticks the four events are two ticks apart. *)
Lemma one_event_every_tickDelta_witness :
  emitted prompt_stage half 4 4 start_locals (start_world (at_rate 500))
  = [1; 1; 1; 1]%nat
  /\ map now (suspensions prompt_stage half 4 4 start_locals
                (start_world (at_rate 500)))
     = [0; 2; 4]%float.
Proof.
  destruct (one_event_every_tickDelta prompt_stage half
              (start_world (at_rate 500)) 4 4 eq_refl eq_refl ltac:(lia))
    as (_ & Hem & Hsus).
  split; [exact Hem|exact Hsus].
Defined.

(** At 2000 events per 1000 ticks the five events take three ticks. *)
Lemma batch_every_tick_witness :
  sendEvents prompt_stage half 5 5 (start_world (at_rate 2000))
  = Returns (arrivals prompt_stage half (start_world (at_rate 2000))
               (fun j => ticks_after (j / 2) 1%float 0%float) 5)
            {| this := at_rate 2000; now := 2%float; submitted := 5 |}
  /\ map now (suspensions prompt_stage half 5 5 start_locals
                (start_world (at_rate 2000)))
     = [0; 1]%float.
Proof.
  exact (proj2 (batch_every_tick prompt_stage half (start_world (at_rate 2000))
                  5 5 eq_refl eq_refl ltac:(lia))).
Defined.

Lemma run_returns_the_outcome_of_every_call_witness :
  exists (w_i : world) (t : number) (v : value),
    submitted w_i = 2%nat
    /\ (accept (failing_stage (Prim (PString "fail"))) 2
          (submitted_event half w_i) = Settled t (Fulfilled v)
        \/ accept (failing_stage (Prim (PString "fail"))) 2
             (submitted_event half w_i) = Settled t (Rejected v))
    /\ completed 1 1 (Prim (PString "fail"))
       = settle (submitted_event half w_i) t v
    /\ key (completed 1 1 (Prim (PString "fail")))
       = ("e-" ++ intnum_text (floor (half 2 * 500)%float))%string
    /\ response (completed 1 1 (Prim (PString "fail"))) = Some v
    /\ startTime (responseTime (completed 1 1 (Prim (PString "fail"))))
       = Some (now w_i)
    /\ endTime (responseTime (completed 1 1 (Prim (PString "fail")))) = Some t.
Proof.
  exact (proj2 (run_returns_the_outcome_of_every_call
                  (failing_stage (Prim (PString "fail"))) half 2 (at_rate 2000) 3
                  [completed 0 0 (Prim (PString "fail"));
                   completed 0 0 (Prim (PString "fail"));
                   completed 1 1 (Prim (PString "fail"))]
                  {| this := at_rate 2000; now := 1%float; submitted := 3 |}
                  eq_refl)
           2%nat (completed 1 1 (Prim (PString "fail"))) eq_refl).
Defined.

(** Three events sent to a stage that never answers: the loop sends
    them all, and the run never returns. *)
Lemma unsettled_call_stalls_the_run_witness :
  run silent_stage half 2 (at_rate 2000) 3
  = Hangs {| this := at_rate 2000; now := 1%float; submitted := 3 |}.
Proof.
  exact (unsettled_call_stalls_the_run silent_stage half 2 (at_rate 2000) 3
           [Pending; Pending; Pending]
           {| this := at_rate 2000; now := 1%float; submitted := 3 |} 0
           eq_refl ltac:(cbn; lia) (fun _ => eq_refl)).
Defined.

(** Five events at 2000 events per 1000 ticks: the fifth starts at
    the tick 2. *)
Lemma batches_start_on_whole_ticks_witness :
  exists evs w',
    run prompt_stage half 5 (at_rate 2000) 5 = Returns evs w'
    /\ List.length evs = 5%nat
    /\ forall (j : nat) (e : Event),
         nth_error evs j = Some e ->
         startTime (responseTime e) = Some (of_nat (j / 2)).
Proof.
  apply (batches_start_on_whole_ticks prompt_stage half (at_rate 2000) 5 2 5
           eq_refl eq_refl eq_refl ltac:(lia)).
  - intros m e. eexists _, _. reflexivity.
  - lia.
Defined.

(** Three events at the default rate: they start 20 ticks apart. *)
Lemma events_start_tickDelta_apart_witness :
  exists evs w',
    run prompt_stage half 3 simulation 3 = Returns evs w'
    /\ List.length evs = 3%nat
    /\ forall (i : nat) (e : Event),
         nth_error evs i = Some e ->
         startTime (responseTime e) = Some (of_nat (i * 20)).
Proof.
  apply (events_start_tickDelta_apart prompt_stage half simulation 3 20 3
           eq_refl ltac:(lia) ltac:(lia)).
  - intros m e. eexists _, _. reflexivity.
  - lia.
Defined.

(** With the draw 0.5 the key is e-250. *)
Lemma keys_are_among_500_witness :
  exists z : Z,
    0 <= z <= 499
    /\ key (submitted_event half (start_world simulation))
       = ("e-" ++ digits_of z)%string
    /\ forall (t : number) (e : Event),
         fst (createEvent prompt_stage half (start_world simulation))
         = Settled t (Fulfilled e) ->
         key e = ("e-" ++ digits_of z)%string.
Proof.
  exact (keys_are_among_500 prompt_stage half (start_world simulation)
           eq_refl eq_refl).
Defined.

(** Five events at 2000 events per 1000 ticks: five calls of the stage
    and two suspensions, all with the rate at 2000, and zero after the
    loop. *)
Lemma getArrivalRate_during_and_after_witness :
  (exists ps w',
      sendEvents prompt_stage half 5 5 (start_world (at_rate 2000))
      = Returns ps w'
      /\ List.length ps = 5%nat
      /\ getArrivalRate (this w') = 0%float)
  /\ Forall (fun c => getArrivalRate (this c) = 2000%float)
            (calls prompt_stage half 5 5 start_locals (start_world (at_rate 2000)))
  /\ List.length
       (calls prompt_stage half 5 5 start_locals (start_world (at_rate 2000)))
     = 5%nat
  /\ Forall (fun c => getArrivalRate (this c) = 2000%float)
            (suspensions prompt_stage half 5 5 start_locals
               (start_world (at_rate 2000)))
  /\ List.length
       (suspensions prompt_stage half 5 5 start_locals
          (start_world (at_rate 2000)))
     = 2%nat.
Proof.
  destruct (getArrivalRate_during_and_after prompt_stage half
              (start_world (at_rate 2000)) 5 5 ltac:(lia) eq_refl eq_refl
              ltac:(lia))
    as (_ & Hall & (ps & w' & Hs & Hl & _ & Hz & _) & Hcalls & _ & _ & Hk & _).
  destruct (Hall 5%nat 5 start_locals (start_world (at_rate 2000)))
    as (Hc & Hsus & _ & _).
  split; [exists ps, w'; repeat split; assumption|].
  split; [exact Hc|]. split; [exact Hcalls|]. split; [exact Hsus|].
  exact (Hk 2 eq_refl eq_refl).
Defined.

(** *** The schedule and the stage *)

Section ScheduleFacts.

Variables stage1 stage2 : Stage.
Variables random1 random2 : nat -> number.

Lemma iteration_schedule (N : Z) (l1 l2 : locals) (w : world) :
  eventsSent l1 = eventsSent l2 ->
  List.length (events l1) = List.length (events l2) ->
  match iteration stage1 random1 N l1 w, iteration stage2 random2 N l2 w with
  | Break l1' w1, Break l2' w2 =>
      w1 = w2 /\ eventsSent l1' = eventsSent l2'
      /\ List.length (events l1') = List.length (events l2')
  | Await t1 l1' w1, Await t2 l2' w2 =>
      t1 = t2 /\ w1 = w2 /\ eventsSent l1' = eventsSent l2'
      /\ List.length (events l1') = List.length (events l2')
  | Spinning, Spinning => True
  | _, _ => False
  end.
Proof.
  intros Hsent Hlen. unfold iteration. rewrite <- Hsent. fold (emitting w).
  destruct (_ <? _)%float.
  - destruct (if igtb _ _ then _ else _) as [z| | |] eqn:Hk;
      cbn [createEventBatch]; [|exact I| |].
    + pose proof (createEvents_world stage1 random1 (Z.to_nat z) (emitting w)) as H1.
      pose proof (createEvents_world stage2 random2 (Z.to_nat z) (emitting w)) as H2.
      pose proof (createEvents_length stage1 random1 (Z.to_nat z) (emitting w)) as L1.
      pose proof (createEvents_length stage2 random2 (Z.to_nat z) (emitting w)) as L2.
      destruct (createEvents stage1 random1 (Z.to_nat z) (emitting w)) as [ps1 w1].
      destruct (createEvents stage2 random2 (Z.to_nat z) (emitting w)) as [ps2 w2].
      cbn [fst snd] in *. subst w1 w2.
      destruct (igeb _ _); cbn [events eventsSent]; rewrite !length_app;
        repeat split; lia.
    + destruct (igeb _ _); cbn [events eventsSent]; rewrite !length_app;
        repeat split; lia.
    + destruct (igeb _ _); cbn [events eventsSent]; rewrite !length_app;
        repeat split; lia.
  - pose proof (createEvent_world stage1 random1 (emitting w)) as H1.
    pose proof (createEvent_world stage2 random2 (emitting w)) as H2.
    destruct (createEvent stage1 random1 (emitting w)) as [p1 w1].
    destruct (createEvent stage2 random2 (emitting w)) as [p2 w2].
    cbn [snd] in *. subst w1 w2.
    destruct (igeb _ _); cbn [events eventsSent]; rewrite !length_app;
      cbn [List.length]; repeat split; lia.
Qed.

Lemma loop_schedule (fuel : nat) (N : Z) :
  forall (l1 l2 : locals) (w : world),
    eventsSent l1 = eventsSent l2 ->
    List.length (events l1) = List.length (events l2) ->
    schedule (loop stage1 random1 fuel N l1 w)
    = schedule (loop stage2 random2 fuel N l2 w)
    /\ emitted stage1 random1 fuel N l1 w = emitted stage2 random2 fuel N l2 w
    /\ suspensions stage1 random1 fuel N l1 w
       = suspensions stage2 random2 fuel N l2 w.
Proof.
  induction fuel as [|fuel IH]; intros l1 l2 w Hsent Hlen; [now repeat split|].
  cbn [loop emitted suspensions].
  pose proof (iteration_schedule N l1 l2 w Hsent Hlen) as Hi.
  destruct (iteration stage1 random1 N l1 w) as [l1' w1|t1 l1' w1|],
           (iteration stage2 random2 N l2 w) as [l2' w2|t2 l2' w2|];
    try contradiction.
  - destruct Hi as (-> & _ & Hl). cbn [schedule]. now rewrite Hl.
  - destruct Hi as (-> & -> & Hs & Hl).
    destruct (Metronome.wait t2 (now w2)) as [t|]; [|now repeat split].
    destruct (IH l1' l2' (set_now w2 t) Hs Hl) as (H1 & H2 & H3).
    now rewrite H1, H2, H3.
  - now repeat split.
Qed.

(** X7: the arrival loop does not wait for the stage: whatever the
    stage answers, and whether or not its calls ever settle, and
    whatever keys are drawn, the loop submits the same number of events
    on every pass, suspends at the same readings of the clock, and ends
    the same way, with as many promises and in the same world.  In
    particular it ends the way it does with a stage that never
    settles. *)
Theorem arrivals_do_not_wait_for_the_stage (fuel : nat) (N : Z) (w : world) :
  schedule (sendEvents stage1 random1 fuel N w)
  = schedule (sendEvents stage2 random2 fuel N w)
  /\ emitted stage1 random1 fuel N start_locals w
     = emitted stage2 random2 fuel N start_locals w
  /\ suspensions stage1 random1 fuel N start_locals w
     = suspensions stage2 random2 fuel N start_locals w.
Proof. apply loop_schedule; reflexivity. Qed.

End ScheduleFacts.

(** * Facts about the statistics engine *)

Section StatisticsFacts.

Variable standardDeviation : list number -> number.

(** The two rows of a summary without additional columns. *)
Lemma summary_rows (events : list Event) :
  createEventSummary standardDeviation events None =
  [ [("type"%string, CStr "success");
     ("count"%string, report (count (success_bucket events)) precision);
     ("percent"%string, report (percent events (success_bucket events)) precision);
     ("mean_latency"%string, report (mean_latency (success_bucket events)) precision);
     ("std_latency"%string,
       report (std_latency standardDeviation (success_bucket events)) precision)];
    [("type"%string, CStr "fail");
     ("count"%string, report (count (fail_bucket events)) precision);
     ("percent"%string, report (percent events (fail_bucket events)) precision);
     ("mean_latency"%string, report (mean_latency (fail_bucket events)) precision);
     ("std_latency"%string,
       report (std_latency standardDeviation (fail_bucket events)) precision)] ].
Proof. reflexivity. Qed.

Lemma buckets_partition (events : list Event) :
  (List.length (success_bucket events) + List.length (fail_bucket events)
   = List.length events)%nat.
Proof.
  unfold success_bucket, fail_bucket.
  induction events as [|e events IH]; [reflexivity|].
  cbn [filter]. destruct (is_fail e); cbn [negb List.length]; lia.
Qed.

Lemma report_integral (x : number) (p : nat) :
  integral x = true -> report x p = CNum x.
Proof. intros H. unfold report. now rewrite rem1_zero, H. Qed.

Lemma report_fraction (x : number) (p : nat) :
  integral x = false -> report x p = CStr (toFixed x p).
Proof. intros H. unfold report. now rewrite rem1_zero, H. Qed.

Lemma report_of_nat (n : nat) :
  Z.of_nat n < 2 ^ 53 -> report (of_nat n) precision = CNum (of_nat n).
Proof. intros H. now apply report_integral, integral_of_nat. Qed.

Lemma percent_of_nonempty (events e : list Event) :
  events <> [] ->
  percent events e = (of_nat (List.length e) / of_nat (List.length events))%float.
Proof. destruct events; [congruence|reflexivity]. Qed.

(** C4, as the code has it: the count cells of the two rows are the
    sizes of the two buckets, which add up to the size of the
    collection; the percent cells are the reports of [percent], which is
    0 for both buckets of an empty collection and the quotient of the
    sizes otherwise; when one bucket is empty the percent cells are 1
    and 0.  (The report rounds a fraction to three decimals, so the two
    cells need not add up to 1.) *)
Theorem counts_and_percents (events : list Event) :
  Z.of_nat (List.length events) < 2 ^ 53 ->
  let rows := createEventSummary standardDeviation events None in
  let success := success_bucket events in
  let fail := fail_bucket events in
  (List.length success + List.length fail = List.length events)%nat
  /\ get_prop "count" (nth 0 rows []) = Some (CNum (of_nat (List.length success)))
  /\ get_prop "count" (nth 1 rows []) = Some (CNum (of_nat (List.length fail)))
  /\ get_prop "percent" (nth 0 rows [])
     = Some (report (percent events success) precision)
  /\ get_prop "percent" (nth 1 rows [])
     = Some (report (percent events fail) precision)
  /\ (events = [] ->
      get_prop "percent" (nth 0 rows []) = Some (CNum 0%float)
      /\ get_prop "percent" (nth 1 rows []) = Some (CNum 0%float))
  /\ (events <> [] ->
      percent events success
      = (of_nat (List.length success) / of_nat (List.length events))%float
      /\ percent events fail
         = (of_nat (List.length fail) / of_nat (List.length events))%float)
  /\ (events <> [] -> fail = [] ->
      get_prop "percent" (nth 0 rows []) = Some (CNum 1%float)
      /\ get_prop "percent" (nth 1 rows []) = Some (CNum 0%float))
  /\ (events <> [] -> success = [] ->
      get_prop "percent" (nth 0 rows []) = Some (CNum 0%float)
      /\ get_prop "percent" (nth 1 rows []) = Some (CNum 1%float)).
Proof.
  intros Hsize rows success fail.
  pose proof (buckets_partition events) as Hpart. fold success fail in Hpart.
  assert (Hpos : events <> [] -> 0 < Z.of_nat (List.length events) < 2 ^ 53).
  { intros Hne. split; [|exact Hsize].
    destruct events; [congruence|]. cbn [List.length]. lia. }
  subst rows. rewrite summary_rows. cbn [nth get_prop String.eqb Ascii.eqb Bool.eqb].
  fold success fail. unfold count.
  rewrite !report_of_nat by lia.
  split; [exact Hpart|]. do 4 (split; [reflexivity|]).
  split; [|split; [|split]].
  - intros ->. split; reflexivity.
  - intros Hne. split; now apply percent_of_nonempty.
  - intros Hne Hf. rewrite !percent_of_nonempty by assumption.
    rewrite Hf in Hpart |- *. cbn [List.length] in Hpart |- *.
    replace (List.length success) with (List.length events) by lia.
    rewrite div_diag_of_nat, div_zero_of_nat by auto. split; reflexivity.
  - intros Hne Hs. rewrite !percent_of_nonempty by assumption.
    rewrite Hs in Hpart |- *. cbn [List.length] in Hpart |- *.
    replace (List.length fail) with (List.length events) by lia.
    rewrite div_diag_of_nat, div_zero_of_nat by auto. split; reflexivity.
Qed.

Lemma self_difference_text (x : number) :
  toFixed (x - x)%float precision = zero_or_nan x.
Proof.
  rewrite sub_diag. unfold zero_or_nan. now destruct (isFinite x).
Qed.

Lemma self_diff (type : string) (r : row) (n : nat) :
  Z.of_nat n < 2 ^ 53 ->
  get_prop "count" r = Some (CNum (of_nat n)) ->
  diff_row type r r = self_diff_row type r.
Proof.
  intros Hn Hcount. unfold diff_row, self_diff_row.
  rewrite !self_difference_text, Hcount. cbn [cell_number].
  now rewrite sub_diag, isFinite_of_nat.
Qed.

(** C5, as the code has it: comparing a collection with itself gives a
    count difference of 0 in both rows and, for percent, mean_latency
    and std_latency, the text 0.000 where the cell of the summary reads
    as a finite number and the text NaN where it does not; the
    mean_latency of an empty bucket is such a cell. *)
Theorem self_comparison (a : list Event) :
  Z.of_nat (List.length a) < 2 ^ 53 ->
  let summary := createEventSummary standardDeviation a None in
  eventCompare standardDeviation a a
  = [self_diff_row "success" (nth 0 summary []);
     self_diff_row "fail" (nth 1 summary [])]
  /\ (success_bucket a = [] ->
      get_prop "mean_latency" (nth 0 (eventCompare standardDeviation a a) [])
      = Some (CStr "NaN"))
  /\ (fail_bucket a = [] ->
      get_prop "mean_latency" (nth 1 (eventCompare standardDeviation a a) [])
      = Some (CStr "NaN")).
Proof.
  intros Hsize summary.
  pose proof (buckets_partition a) as Hpart.
  assert (Heq : eventCompare standardDeviation a a
                = [self_diff_row "success" (nth 0 summary []);
                   self_diff_row "fail" (nth 1 summary [])]).
  { unfold eventCompare. fold summary. subst summary. rewrite summary_rows.
    cbn [nth]. unfold count.
    rewrite !report_of_nat by lia.
    f_equal; [|f_equal];
      match goal with |- diff_row _ _ _ = _ =>
        eapply self_diff; [|reflexivity]; lia end. }
  split; [exact Heq|]. rewrite Heq. subst summary. rewrite summary_rows.
  split; intros Hempty; rewrite Hempty; reflexivity.
Qed.

(** The latencies of stamped events are the durations between their
    stamps. *)
Lemma latency_stamped (bucket : list Event) (stamps : list (number * number)) :
  stamped bucket stamps ->
  map latency bucket = map duration stamps
  /\ List.length bucket = List.length stamps.
Proof.
  induction 1 as [|e st bucket stamps [Hs He] _ [IHm IHl]]; [now split|].
  cbn [map List.length]. split; [|now f_equal].
  f_equal; [|exact IHm]. unfold latency, duration. now rewrite Hs, He.
Qed.

Lemma sum_running (xs : list number) : sum xs = running_sum 0%float xs.
Proof.
  unfold sum. generalize 0%float.
  induction xs as [|x xs IH]; intros acc; [reflexivity|]. cbn. apply IH.
Qed.

Lemma mean_latency_stamped (bucket : list Event)
    (stamps : list (number * number)) :
  stamped bucket stamps ->
  mean_latency bucket = average (map duration stamps).
Proof.
  intros Hst. destruct (latency_stamped bucket stamps Hst) as [Hm Hl].
  unfold mean_latency, average. now rewrite sum_running, Hm, length_map, Hl.
Qed.

(** C7: for a bucket whose events carry the stamps [(start, end)], the
    mean latency is the average of [end - start] over the bucket: the
    sum of the differences, in order, over their number; for the empty
    bucket it is NaN.  The cell of the summary row holds the report of
    that average, and for an empty bucket the text NaN, not a number. *)
Theorem mean_latency_of_bucket :
  (forall (bucket : list Event) (stamps : list (number * number)),
      stamped bucket stamps ->
      mean_latency bucket = average (map duration stamps))
  /\ mean_latency [] = nan
  /\ (forall (events : list Event) (stamps : list (number * number)),
        stamped (success_bucket events) stamps ->
        get_prop "mean_latency"
          (nth 0 (createEventSummary standardDeviation events None) [])
        = Some match stamps with
               | [] => CStr "NaN"
               | _ :: _ => report (average (map duration stamps)) precision
               end)
  /\ (forall (events : list Event) (stamps : list (number * number)),
        stamped (fail_bucket events) stamps ->
        get_prop "mean_latency"
          (nth 1 (createEventSummary standardDeviation events None) [])
        = Some match stamps with
               | [] => CStr "NaN"
               | _ :: _ => report (average (map duration stamps)) precision
               end).
Proof.
  split; [|split; [reflexivity|split]].
  - exact mean_latency_stamped.
  - intros events stamps Hst. rewrite summary_rows.
    cbn [nth get_prop String.eqb Ascii.eqb Bool.eqb].
    rewrite (mean_latency_stamped _ _ Hst).
    destruct stamps; reflexivity.
  - intros events stamps Hst. rewrite summary_rows.
    cbn [nth get_prop String.eqb Ascii.eqb Bool.eqb].
    rewrite (mean_latency_stamped _ _ Hst).
    destruct stamps; reflexivity.
Qed.

(** C9, as the code has it: a metric value that is an integer is
    reported as it is; a finite value that is not is reported as the
    text of the nearest decimal with exactly three fraction digits; NaN
    and the infinities, which have no digits, are reported by name.
    Every column is computed on the events of the bucket, unrounded, and
    its report is stored under the name of the column.  The rows keep
    the reports only: [eventCompare] computes its differences from the
    cells it reads back, not from the values of the columns. *)
Theorem reported_cells :
  (forall (x : number) (p : nat), integral x = true -> report x p = CNum x)
  /\ (forall (x : number) (s : bool) (m : positive) (e : Z),
        Prim2SF x = S754_finite s m e -> integral x = false ->
        report x precision
        = CStr ((if s then "-" else "") ++ fixed_text (scaled_round m e 3) 3)
        /\ 2 * Z.abs (scaled_round m e 3 * 2 ^ (- e) - Zpos m * 1000) <= 2 ^ (- e)
        /\ exists ip fp : string,
             fixed_text (scaled_round m e 3) 3 = (ip ++ "." ++ fp)%string
             /\ String.length fp = 3%nat)
  /\ report nan precision = CStr "NaN"
  /\ report infinity precision = CStr "Infinity"
  /\ report neg_infinity precision = CStr "-Infinity"
  /\ (forall events : list Event,
        let success := success_bucket events in
        let fail := fail_bucket events in
        createEventSummary standardDeviation events None
        = [ [("type"%string, CStr "success");
             ("count"%string, report (count success) precision);
             ("percent"%string, report (percent events success) precision);
             ("mean_latency"%string, report (mean_latency success) precision);
             ("std_latency"%string,
               report (std_latency standardDeviation success) precision)];
            [("type"%string, CStr "fail");
             ("count"%string, report (count fail) precision);
             ("percent"%string, report (percent events fail) precision);
             ("mean_latency"%string, report (mean_latency fail) precision);
             ("std_latency"%string,
               report (std_latency standardDeviation fail) precision)] ])
  /\ (forall (a b : list Event) (name : string) (i : nat),
        In name ["percent"; "mean_latency"; "std_latency"]%string ->
        (i < 2)%nat ->
        let cell events :=
          get_prop name
            (nth i (createEventSummary standardDeviation events None) []) in
        get_prop name (nth i (eventCompare standardDeviation a b) [])
        = Some (CStr (toFixed (cell_parseFloat (cell b)
                               - cell_parseFloat (cell a))%float precision))).
Proof.
  split; [exact report_integral|].
  split; [|split; [reflexivity|split; [reflexivity|split; [reflexivity|split]]]].
  - intros x s m e Hsf Hfrac.
    assert (He : e < 0).
    { unfold integral in Hfrac. rewrite Hsf in Hfrac.
      apply orb_false_iff in Hfrac as [Hfrac _]. now apply Z.leb_gt in Hfrac. }
    split; [|split].
    + rewrite report_fraction by assumption. unfold toFixed. rewrite Hsf.
      replace (0 <=? e) with false by (symmetry; apply Z.leb_gt; lia).
      reflexivity.
    + apply (scaled_round_nearest m e 3 He).
    + apply fixed_text_shape.
  - intros events. apply summary_rows.
  - intros a b name i Hname Hi cell. subst cell.
    unfold eventCompare. cbv zeta. rewrite !summary_rows.
    destruct i as [|[|i]]; [| |lia];
      destruct Hname as [<-|[<-|[<-|[]]]]; reflexivity.
Qed.

(** *** Additional columns *)

Lemma digits_of_inj (a b : Z) :
  0 <= a -> 0 <= b -> digits_of a = digits_of b -> a = b.
Proof.
  intros Ha Hb H. unfold digits_of in H.
  assert (Hnil : forall n : N, N.to_uint n <> Decimal.Nil).
  { intros [|p]; [discriminate|]. apply DecimalPos.Unsigned.to_uint_nonnil. }
  apply (f_equal NilZero.uint_of_string) in H.
  rewrite !NilZero.usu in H by apply Hnil.
  injection H as H. apply DecimalN.Unsigned.to_uint_inj in H.
  now apply Z2N.inj.
Qed.

Lemma column_name_inj (i j : nat) : column_name i = column_name j -> i = j.
Proof.
  unfold column_name. cbn [append]. intros [= H].
  apply digits_of_inj in H; lia.
Qed.

Lemma set_prop_fresh (name : string) (c : cell) (r : row) :
  get_prop name r = None -> set_prop name c r = r ++ [(name, c)].
Proof.
  induction r as [|[n c'] r IH]; cbn [get_prop set_prop app]; [reflexivity|].
  destruct (String.eqb n name); [discriminate|]. intros H. now rewrite IH.
Qed.

Lemma get_prop_app_fresh (name n : string) (c : cell) (r : row) :
  get_prop name r = None -> n <> name ->
  get_prop name (r ++ [(n, c)]) = None.
Proof.
  intros Hr Hn. induction r as [|[n' c'] r IH]; cbn [get_prop app] in *.
  - now rewrite (proj2 (String.eqb_neq n name) Hn).
  - destruct (String.eqb n' name); [discriminate|]. now apply IH.
Qed.

(** From the column number 4 on, every column adds one cell at the end
    of each row, under the name of its number. *)
Lemma fill_rows_numbered (success fail : list Event)
    (cs : list EventSummaryColumnFunction) :
  forall (i : nat) (rs rf : row),
    (4 <= i)%nat ->
    (forall j : nat, (i <= j)%nat -> get_prop (column_name j) rs = None) ->
    (forall j : nat, (i <= j)%nat -> get_prop (column_name j) rf = None) ->
    fill_rows cs i success fail (rs, rf)
    = (rs ++ additional_cells cs i success, rf ++ additional_cells cs i fail).
Proof.
  induction cs as [|col cs IH]; intros i rs rf Hi Hs Hf.
  - cbn [fill_rows additional_cells List.length seq combine map].
    now rewrite !app_nil_r.
  - cbn [fill_rows fst snd].
    assert (Hname : nth_error names i = None).
    { apply nth_error_None. cbn [names List.length]. lia. }
    rewrite Hname. fold (column_name i).
    rewrite !set_prop_fresh by (auto using Nat.le_refl).
    rewrite IH.
    + unfold additional_cells. cbn [List.length seq combine map fst snd].
      now rewrite <- !app_assoc.
    + lia.
    + intros j Hj. apply get_prop_app_fresh; [apply Hs; lia|].
      intros E. apply column_name_inj in E. lia.
    + intros j Hj. apply get_prop_app_fresh; [apply Hf; lia|].
      intros E. apply column_name_inj in E. lia.
Qed.

(** X8: the columns a caller adds never replace the four columns of the
    summary nor each other: each row of the summary with additional
    columns is the row of the summary without them, followed by one
    cell per additional column, in their order, the first under the
    name Column 4, the next under Column 5 and so on; the cell holds the
    report of the column on the bucket of the row. *)
Theorem additional_columns_are_numbered (events : list Event)
    (cs : list EventSummaryColumnFunction) :
  createEventSummary standardDeviation events (Some cs)
  = [ nth 0 (createEventSummary standardDeviation events None) []
        ++ additional_cells cs 4 (success_bucket events);
      nth 1 (createEventSummary standardDeviation events None) []
        ++ additional_cells cs 4 (fail_bucket events) ].
Proof.
  rewrite summary_rows. cbn [nth].
  unfold createEventSummary. cbv zeta.
  cbn [app fill_rows nth_error names fst snd set_prop String.eqb Ascii.eqb
       Bool.eqb].
  rewrite fill_rows_numbered; [reflexivity|lia| |];
    intros j _; unfold column_name; reflexivity.
Qed.

(** *** A latency that is not a number *)

Lemma sum_from_nan (xs : list number) :
  fold_left (fun sum cur => (sum + cur)%float) xs nan = nan.
Proof.
  induction xs as [|x xs IH]; [reflexivity|].
  cbn [fold_left]. now rewrite add_nan_l.
Qed.

Lemma sum_with_nan (xs : list number) :
  forall acc : number,
    In nan xs -> fold_left (fun sum cur => (sum + cur)%float) xs acc = nan.
Proof.
  induction xs as [|x xs IH]; intros acc; [intros []|].
  cbn [fold_left]. intros [->|Hin].
  - rewrite add_nan_r. apply sum_from_nan.
  - now apply IH.
Qed.

Lemma mean_latency_nan (bucket : list Event) (e : Event) :
  In e bucket -> latency e = nan -> mean_latency bucket = nan.
Proof.
  intros Hin Hnan. unfold mean_latency, sum.
  rewrite sum_with_nan; [apply div_nan_l|].
  rewrite <- Hnan. now apply in_map.
Qed.

(** X9: an event without an end time, or without a start time, has a
    latency that is NaN, and one such event in a collection makes the
    mean latency of the row it is counted in NaN: the cell holds the
    text NaN, whatever the latencies of the other events. *)
Theorem unfinished_event_spoils_the_mean (events : list Event) (e : Event) :
  In e events ->
  endTime (responseTime e) = None \/ startTime (responseTime e) = None ->
  let rows := createEventSummary standardDeviation events None in
  latency e = nan
  /\ get_prop "mean_latency" (nth (if is_fail e then 1 else 0) rows [])
     = Some (CStr "NaN").
Proof.
  intros Hin Hstamp rows.
  assert (Hnan : latency e = nan).
  { unfold latency. destruct Hstamp as [-> | ->]; cbn [num_or_nan].
    - apply sub_nan_l.
    - apply sub_nan_r. }
  split; [exact Hnan|]. subst rows. rewrite summary_rows.
  destruct (is_fail e) eqn:Hfail; cbn [nth get_prop String.eqb Ascii.eqb Bool.eqb].
  - rewrite (mean_latency_nan (fail_bucket events) e); [reflexivity| |exact Hnan].
    apply filter_In. now split.
  - rewrite (mean_latency_nan (success_bucket events) e); [reflexivity| |exact Hnan].
    apply filter_In. split; [exact Hin|]. now rewrite Hfail.
Qed.

(** *** The order of the events *)

Lemma filter_length_permutation {A : Type} (f : A -> bool) (l l' : list A) :
  Permutation l l' -> List.length (filter f l) = List.length (filter f l').
Proof.
  induction 1 as [|x l l' _ IH|x y l|l l' l'' _ IH1 _ IH2]; cbn [filter].
  - reflexivity.
  - destruct (f x); cbn [List.length]; now rewrite IH.
  - destruct (f x), (f y); reflexivity.
  - now rewrite IH1.
Qed.

(** X10: the count and percent cells of both rows do not depend on the
    order in which the events are given. *)
Theorem counts_do_not_depend_on_the_order (events events' : list Event) :
  Permutation events events' ->
  forall i : nat,
    get_prop "count" (nth i (createEventSummary standardDeviation events None) [])
    = get_prop "count"
        (nth i (createEventSummary standardDeviation events' None) [])
    /\ get_prop "percent"
         (nth i (createEventSummary standardDeviation events None) [])
       = get_prop "percent"
           (nth i (createEventSummary standardDeviation events' None) []).
Proof.
  intros Hperm i. rewrite !summary_rows.
  pose proof (Permutation_length Hperm) as Hlen.
  pose proof (filter_length_permutation is_fail _ _ Hperm) as Hf.
  pose proof (filter_length_permutation (fun e => negb (is_fail e)) _ _ Hperm)
    as Hs.
  fold (fail_bucket events) (fail_bucket events') in Hf.
  fold (success_bucket events) (success_bucket events') in Hs.
  unfold count, percent. rewrite Hlen, Hf, Hs.
  destruct i as [|[|[|i]]]; split; reflexivity.
Qed.

(** *** Comparing with an empty bucket *)

Lemma mean_cell_of_diff (type : string) (aRow bRow : row) :
  get_prop "mean_latency" (diff_row type aRow bRow)
  = Some (CStr (toFixed (cell_parseFloat (get_prop "mean_latency" bRow)
                         - cell_parseFloat (get_prop "mean_latency" aRow))%float
                        precision)).
Proof. reflexivity. Qed.

Lemma mean_cell_of_summary (events : list Event) :
  get_prop "mean_latency"
    (nth 0 (createEventSummary standardDeviation events None) [])
  = Some (report (mean_latency (success_bucket events)) precision)
  /\ get_prop "mean_latency"
       (nth 1 (createEventSummary standardDeviation events None) [])
     = Some (report (mean_latency (fail_bucket events)) precision).
Proof. rewrite summary_rows. split; reflexivity. Qed.

(** X11: when a bucket is empty in one of the two collections that are
    compared, the mean_latency difference of its row is the text NaN,
    whatever the latencies in the other collection: comparing a run
    without failures with a run that has failures gives no latency
    difference for the failures. *)
Theorem empty_bucket_has_no_latency_difference (a b : list Event) :
  (success_bucket a = [] \/ success_bucket b = [] ->
   get_prop "mean_latency" (nth 0 (eventCompare standardDeviation a b) [])
   = Some (CStr "NaN"))
  /\ (fail_bucket a = [] \/ fail_bucket b = [] ->
      get_prop "mean_latency" (nth 1 (eventCompare standardDeviation a b) [])
      = Some (CStr "NaN")).
Proof.
  destruct (mean_cell_of_summary a) as [Has Haf].
  destruct (mean_cell_of_summary b) as [Hbs Hbf].
  assert (Hnan : cell_parseFloat (Some (report (mean_latency []) precision))
                 = nan) by reflexivity.
  unfold eventCompare. cbv zeta. cbn [nth].
  rewrite !mean_cell_of_diff, Has, Haf, Hbs, Hbf.
  split; intros [Hempty|Hempty]; rewrite Hempty, Hnan;
    rewrite ?sub_nan_l, ?sub_nan_r; reflexivity.
Qed.

(** *** The difference of the counts *)

Lemma count_cell_of_diff (type : string) (aRow bRow : row) :
  get_prop "count" (diff_row type aRow bRow)
  = Some (CNum (cell_number (get_prop "count" bRow)
                - cell_number (get_prop "count" aRow))%float).
Proof. reflexivity. Qed.

Lemma count_cell_of_summary (events : list Event) :
  Z.of_nat (List.length events) < 2 ^ 53 ->
  cell_number (get_prop "count"
                 (nth 0 (createEventSummary standardDeviation events None) []))
  = of_int (Z.of_nat (List.length (success_bucket events)))
  /\ cell_number (get_prop "count"
                    (nth 1 (createEventSummary standardDeviation events None) []))
     = of_int (Z.of_nat (List.length (fail_bucket events))).
Proof.
  intros Hsize. pose proof (buckets_partition events) as Hpart.
  rewrite summary_rows. cbn [nth get_prop String.eqb Ascii.eqb Bool.eqb].
  unfold count. rewrite !report_of_nat by lia. split; reflexivity.
Qed.

(** X14: the count cells of the diff are the exact differences
    [B - A] of the bucket sizes, negative when [A] has more events in
    the bucket than [B]. *)
Theorem count_difference_is_exact (a b : list Event) :
  Z.of_nat (List.length a) < 2 ^ 53 ->
  Z.of_nat (List.length b) < 2 ^ 53 ->
  get_prop "count" (nth 0 (eventCompare standardDeviation a b) [])
  = Some (CNum (of_int (Z.of_nat (List.length (success_bucket b))
                        - Z.of_nat (List.length (success_bucket a)))))
  /\ get_prop "count" (nth 1 (eventCompare standardDeviation a b) [])
     = Some (CNum (of_int (Z.of_nat (List.length (fail_bucket b))
                           - Z.of_nat (List.length (fail_bucket a))))).
Proof.
  intros Ha Hb.
  destruct (count_cell_of_summary a Ha) as [Has Haf].
  destruct (count_cell_of_summary b Hb) as [Hbs Hbf].
  pose proof (buckets_partition a) as Hpa.
  pose proof (buckets_partition b) as Hpb.
  unfold eventCompare. cbv zeta. cbn [nth].
  rewrite !count_cell_of_diff, Has, Haf, Hbs, Hbf.
  rewrite !sub_of_int by lia. split; reflexivity.
Qed.

(** *** Events that all take the same time *)

Lemma latency_took (L : nat) (e : Event) : took L e -> latency e = of_nat L.
Proof.
  intros (s & Hs & Hstart & Hend). unfold latency.
  rewrite Hstart, Hend. cbn [num_or_nan].
  change (of_nat (s + L) - of_nat s)%float
    with (of_int (Z.of_nat (s + L)) - of_int (Z.of_nat s))%float.
  rewrite sub_of_int by lia.
  replace (Z.of_nat (s + L) - Z.of_nat s) with (Z.of_nat L) by lia.
  reflexivity.
Qed.

Lemma sum_uniform (L : nat) (xs : list number) :
  Forall (fun x => x = of_nat L) xs ->
  forall a : nat,
    Z.of_nat (a + List.length xs * L) < 2 ^ 53 ->
    fold_left (fun sum cur => (sum + cur)%float) xs (of_nat a)
    = of_nat (a + List.length xs * L).
Proof.
  induction 1 as [|x xs -> _ IH]; intros a Ha; cbn [fold_left List.length] in *.
  - f_equal. lia.
  - change (of_nat a + of_nat L)%float
      with (of_int (Z.of_nat a) + of_int (Z.of_nat L))%float.
    rewrite add_of_int, <- Nat2Z.inj_add by lia.
    change (of_int (Z.of_nat (a + L))) with (of_nat (a + L)).
    rewrite IH by lia. f_equal. lia.
Qed.

Lemma div_of_nat_exact (n L : nat) :
  (1 <= n)%nat -> Z.of_nat n < 2 ^ 53 -> Z.of_nat (n * L) < 2 ^ 53 ->
  (of_nat (n * L) / of_nat n)%float = of_nat L.
Proof.
  intros Hn Hsize Hlt. destruct L as [|L].
  - rewrite Nat.mul_0_r. apply div_zero_of_nat. lia.
  - change (of_nat (n * S L)) with (of_int (Z.of_nat (n * S L))).
    change (of_nat n) with (of_int (Z.of_nat n)).
    change (of_nat (S L)) with (of_int (Z.of_nat (S L))).
    rewrite Nat2Z.inj_mul in *.
    destruct (Z.of_nat n) as [|p|p] eqn:Hp; try lia.
    destruct (Z.of_nat (S L)) as [|l|l] eqn:Hl; try lia.
    now apply div_of_pos_exact.
Qed.

Lemma mean_latency_uniform (bucket : list Event) (L : nat) :
  bucket <> [] ->
  Forall (took L) bucket ->
  Z.of_nat (List.length bucket) < 2 ^ 53 ->
  Z.of_nat (List.length bucket * L) < 2 ^ 53 ->
  report (mean_latency bucket) precision = CNum (of_nat L).
Proof.
  intros Hne Hall Hsize Hlt.
  assert (Hn : (1 <= List.length bucket)%nat).
  { destruct bucket; [congruence|cbn [List.length]; lia]. }
  unfold mean_latency, sum. change 0%float with (of_nat 0).
  rewrite (sum_uniform L).
  - rewrite length_map. cbn [Nat.add].
    rewrite div_of_nat_exact by assumption.
    apply report_of_nat. nia.
  - apply Forall_map. revert Hall. apply Forall_impl. apply latency_took.
  - now rewrite length_map.
Qed.

(** X15: when the events of a bucket all took the same whole number
    [L] of ticks, the mean_latency cell of their row is the number [L]
    itself: the sum and the division are exact. *)
Theorem uniform_latency_is_the_mean (events : list Event) (L : nat) :
  Z.of_nat (List.length events) < 2 ^ 53 ->
  Z.of_nat (List.length events * L) < 2 ^ 53 ->
  let rows := createEventSummary standardDeviation events None in
  (success_bucket events <> [] -> Forall (took L) (success_bucket events) ->
   get_prop "mean_latency" (nth 0 rows []) = Some (CNum (of_nat L)))
  /\ (fail_bucket events <> [] -> Forall (took L) (fail_bucket events) ->
      get_prop "mean_latency" (nth 1 rows []) = Some (CNum (of_nat L))).
Proof.
  intros Hsize Hlt rows. pose proof (buckets_partition events) as Hpart.
  destruct (mean_cell_of_summary events) as [Hs Hf].
  subst rows. rewrite Hs, Hf.
  split; intros Hne Hall; f_equal; apply mean_latency_uniform; auto; nia.
Qed.

(** *** The two percent values *)

(** The report of a proper share: a text of so many thousandths. *)
Lemma share_thousandths (a n : positive) :
  Zpos a < Zpos n < 2 ^ 53 ->
  exists k : Z,
    report (of_int (Zpos a) / of_int (Zpos n))%float precision = CStr (fixed_text k 3)
    /\ 0 <= k <= 1000
    /\ - (Zpos n * 2 ^ 53 + 1000 * Zpos n)
       <= 2 * (k * Zpos n - 1000 * Zpos a) * 2 ^ 53
       <= Zpos n * 2 ^ 53 + 1000 * Zpos n.
Proof.
  intros Han.
  destruct (share_below_one a n Han) as (m & e & Hsf & He & Hm & Herr).
  assert (HE : 2 ^ 53 <= 2 ^ (- e)) by (apply Z.pow_le_mono_r; lia).
  pose proof (scaled_round_nearest m e 3 ltac:(lia)) as Hk.
  change (10 ^ Z.of_nat 3) with 1000 in Hk.
  exists (scaled_round m e 3). split; [|split].
  - rewrite report_fraction.
    + unfold toFixed, precision. rewrite Hsf.
      replace (0 <=? e) with false by (symmetry; apply Z.leb_gt; lia).
      reflexivity.
    + unfold integral. rewrite Hsf.
      replace (0 <=? e) with false by (symmetry; apply Z.leb_gt; lia).
      rewrite Z.mod_small by lia. reflexivity.
  - set (k := scaled_round m e 3) in *. set (E := 2 ^ (- e)) in *.
    change (2 ^ 53) with 9007199254740992 in *.
    split.
    + destruct (Z.le_gt_cases 0 k) as [|Hneg]; [assumption|exfalso].
      assert (k * E <= (-1) * E) by (apply Z.mul_le_mono_nonneg_r; lia). lia.
    + destruct (Z.le_gt_cases k 1000) as [|Hbig]; [assumption|exfalso].
      assert (1001 * E <= k * E) by (apply Z.mul_le_mono_nonneg_r; lia). lia.
  - set (k := scaled_round m e 3) in *. set (E := 2 ^ (- e)) in *.
    change (2 ^ 53) with 9007199254740992 in *.
    set (U := 2 * (k * Zpos n - 1000 * Zpos a)).
    assert (HkL : - E * Zpos n <= 2 * (k * E - 1000 * Zpos m) * Zpos n)
      by (apply Z.mul_le_mono_nonneg_r; lia).
    assert (HkU : 2 * (k * E - 1000 * Zpos m) * Zpos n <= E * Zpos n)
      by (apply Z.mul_le_mono_nonneg_r; lia).
    assert (HU : - (E * Zpos n + 1000 * Zpos n) <= U * E <= E * Zpos n + 1000 * Zpos n)
      by (unfold U; lia).
    split.
    + destruct (Z.le_gt_cases (- Zpos n) U) as [Hs|Hl].
      * assert (- Zpos n * 9007199254740992 <= U * 9007199254740992)
          by (apply Z.mul_le_mono_nonneg_r; lia). lia.
      * assert ((- Zpos n - U) * 9007199254740992 <= (- Zpos n - U) * E)
          by (apply Z.mul_le_mono_nonneg_l; lia). lia.
    + destruct (Z.le_gt_cases U (Zpos n)) as [Hs|Hl].
      * assert (U * 9007199254740992 <= Zpos n * 9007199254740992)
          by (apply Z.mul_le_mono_nonneg_r; lia). lia.
      * assert ((U - Zpos n) * 9007199254740992 <= (U - Zpos n) * E)
          by (apply Z.mul_le_mono_nonneg_l; lia). lia.
Qed.

(** The thousandths of the two shares of a whole add up to 1000, give
    or take one. *)
Lemma shares_thousandths (s f : positive) :
  Zpos s + Zpos f < 2 ^ 53 ->
  exists ks kf : Z,
    report (of_int (Zpos s) / of_int (Zpos (s + f)))%float precision
    = CStr (fixed_text ks 3)
    /\ report (of_int (Zpos f) / of_int (Zpos (s + f)))%float precision
       = CStr (fixed_text kf 3)
    /\ 0 <= ks <= 1000 /\ 0 <= kf <= 1000
    /\ 999 <= ks + kf <= 1001.
Proof.
  intros Hn.
  destruct (share_thousandths s (s + f)) as (ks & Hs & Hks & Us); [lia|].
  destruct (share_thousandths f (s + f)) as (kf & Hf & Hkf & Uf); [lia|].
  exists ks, kf. do 4 (split; [assumption|]).
  rewrite Pos2Z.inj_add in Us, Uf.
  change (2 ^ 53) with 9007199254740992 in *.
  set (n := Zpos s + Zpos f) in *.
  assert (Hlo : - (9007199254740992 + 1000) <= (ks + kf - 1000) * 9007199254740992).
  { apply (Z.mul_le_mono_pos_r _ _ n); unfold n in *; lia. }
  assert (Hhi : (ks + kf - 1000) * 9007199254740992 <= 9007199254740992 + 1000).
  { apply (Z.mul_le_mono_pos_r _ _ n); unfold n in *; lia. }
  lia.
Qed.

(** X17: for a collection that is not empty, the two percent values
    that [createEventSummary] computes, before [report] formats them,
    add up to exactly 1: each quotient is rounded to the nearest number,
    and the sum of the two is rounded to 1. *)
Theorem unrounded_percents_add_up (events : list Event) :
  events <> [] -> Z.of_nat (List.length events) < 2 ^ 53 ->
  (percent events (success_bucket events)
   + percent events (fail_bucket events))%float = 1%float.
Proof.
  intros Hne Hsize. rewrite !percent_of_nonempty by assumption.
  pose proof (buckets_partition events) as Hpart.
  rewrite <- Hpart in Hsize |- *.
  destruct (List.length (success_bucket events)) as [|a].
  { assert (Hpos : 0 < Z.of_nat (List.length (fail_bucket events))).
    { destruct events; [congruence|]. cbn [List.length] in Hpart. lia. }
    cbn [Nat.add] in *.
    rewrite div_zero_of_nat, div_diag_of_nat by lia. reflexivity. }
  destruct (List.length (fail_bucket events)) as [|b].
  { rewrite Nat.add_0_r in *.
    rewrite div_zero_of_nat, div_diag_of_nat by lia. reflexivity. }
  rewrite !of_nat_of_int.
  replace (Z.of_nat (S a + S b))
    with (Zpos (Pos.of_succ_nat a + Pos.of_succ_nat b)) by lia.
  replace (Z.of_nat (S a)) with (Zpos (Pos.of_succ_nat a)) by lia.
  replace (Z.of_nat (S b)) with (Zpos (Pos.of_succ_nat b)) by lia.
  apply shares_add_up. lia.
Qed.

(** X18: when a collection holds successes and failures, the two
    percent cells are texts with three fraction digits, of [ks] and
    [kf] thousandths, each between 0 and 1000; the formatting rounds
    each value on its own, so the thousandths add up to 999, 1000 or
    1001. *)
Theorem percent_cells_of_a_mixed_collection (events : list Event) :
  Z.of_nat (List.length events) < 2 ^ 53 ->
  success_bucket events <> [] -> fail_bucket events <> [] ->
  let rows := createEventSummary standardDeviation events None in
  exists ks kf : Z,
    get_prop "percent" (nth 0 rows []) = Some (CStr (fixed_text ks 3))
    /\ get_prop "percent" (nth 1 rows []) = Some (CStr (fixed_text kf 3))
    /\ 0 <= ks <= 1000 /\ 0 <= kf <= 1000
    /\ 999 <= ks + kf <= 1001.
Proof.
  intros Hsize Hs Hf rows.
  assert (Hne : events <> []).
  { intros ->. apply Hs. reflexivity. }
  subst rows. rewrite summary_rows.
  cbn [nth get_prop String.eqb Ascii.eqb Bool.eqb].
  rewrite !percent_of_nonempty by assumption.
  pose proof (buckets_partition events) as Hpart.
  rewrite <- Hpart in Hsize |- *.
  destruct (success_bucket events) as [|e1 success]; [congruence|].
  destruct (fail_bucket events) as [|e2 fail]; [congruence|].
  cbn [List.length] in *.
  rewrite !of_nat_of_int.
  replace (Z.of_nat (S (List.length success) + S (List.length fail)))
    with (Zpos (Pos.of_succ_nat (List.length success)
                + Pos.of_succ_nat (List.length fail))) by lia.
  replace (Z.of_nat (S (List.length success)))
    with (Zpos (Pos.of_succ_nat (List.length success))) by lia.
  replace (Z.of_nat (S (List.length fail)))
    with (Zpos (Pos.of_succ_nat (List.length fail))) by lia.
  destruct (shares_thousandths (Pos.of_succ_nat (List.length success))
              (Pos.of_succ_nat (List.length fail)) ltac:(lia))
    as (ks & kf & Hks & Hkf & Hrs & Hrf & Hsum).
  exists ks, kf. rewrite Hks, Hkf. repeat split; lia.
Qed.
End StatisticsFacts.

(** The values that [==] takes for the text "fail". *)
Lemma loose_eq_fail (v : value) :
  loose_eq_string v "fail" = true
  <-> v = Prim (PString "fail") \/ v = Object (PString "fail").
Proof.
  assert (Hp : forall p, prim_loose_eq_string p "fail" = true <-> p = PString "fail").
  { intros [| |b|x|t]; cbn [prim_loose_eq_string]; try (split; discriminate).
    - change (StringToNumber "fail") with nan. rewrite eqb_nan.
      split; discriminate.
    - change (StringToNumber "fail") with nan. rewrite eqb_nan.
      split; discriminate.
    - rewrite String.eqb_eq. split; [intros ->; reflexivity|congruence]. }
  destruct v as [p|p]; cbn [loose_eq_string]; rewrite Hp; split.
  - intros ->. now left.
  - intros [H|H]; congruence.
  - intros ->. now right.
  - intros [H|H]; congruence.
Qed.

(** C10, as the code has it: when the stage rejects with a value [v],
    that value is stored as the response of the event, and the event
    goes to the fail bucket exactly when [v == "fail"]: when [v] is the
    text "fail" itself or an object that converts to it; with every
    other value it goes to the success bucket. *)
Theorem rejection_is_classified (stage : Stage) (random : nat -> number)
    (w : world) (t : number) (v : value) :
  accept stage (submitted w) (submitted_event random w) = Settled t (Rejected v) ->
  exists e : Event,
    fst (createEvent stage random w) = Settled t (Fulfilled e)
    /\ response e = Some v
    /\ (is_fail e = true
        <-> v = Prim (PString "fail") \/ v = Object (PString "fail"))
    /\ forall events : list Event,
         In e events ->
         (In e (fail_bucket events)
          <-> v = Prim (PString "fail") \/ v = Object (PString "fail"))
         /\ (In e (success_bucket events)
             <-> ~ (v = Prim (PString "fail") \/ v = Object (PString "fail"))).
Proof.
  intros Hrej.
  exists (settle (submitted_event random w) t v).
  assert (Hfail : is_fail (settle (submitted_event random w) t v) = true
                  <-> v = Prim (PString "fail") \/ v = Object (PString "fail")).
  { unfold is_fail. cbn [settle set_endTime set_response response].
    apply loose_eq_fail. }
  split; [|split; [reflexivity|split; [exact Hfail|]]].
  - unfold createEvent. cbn [fst]. fold (submitted_event random w).
    now rewrite Hrej.
  - intros events Hin. unfold fail_bucket, success_bucket.
    rewrite !filter_In, <- Hfail. split.
    + tauto.
    + rewrite negb_true_iff, not_true_iff_false. tauto.
Qed.

(** *** Concrete summaries *)

Lemma counts_and_percents_witness :
  get_prop "count"
    (nth 0 (createEventSummary populationStandardDeviation fifteen_of_sixteen None) [])
  = Some (CNum 15%float)
  /\ get_prop "count"
       (nth 1 (createEventSummary populationStandardDeviation fifteen_of_sixteen None) [])
     = Some (CNum 1%float).
Proof.
  destruct (counts_and_percents populationStandardDeviation fifteen_of_sixteen
              eq_refl) as (_ & Hs & Hf & _).
  split; [exact Hs|exact Hf].
Defined.

(** Fifteen successes and one failure: the percent cells are 0.938 and
    0.063, which read as numbers add up to more than 1. *)
Lemma percent_cells_do_not_add_up :
  get_prop "percent"
    (nth 0 (createEventSummary populationStandardDeviation fifteen_of_sixteen None) [])
  = Some (CStr "0.938")
  /\ get_prop "percent"
       (nth 1 (createEventSummary populationStandardDeviation fifteen_of_sixteen None) [])
     = Some (CStr "0.063")
  /\ (cell_parseFloat (Some (CStr "0.938")) + cell_parseFloat (Some (CStr "0.063"))
      =? 1)%float = false
  /\ (1 <? cell_parseFloat (Some (CStr "0.938")) + cell_parseFloat (Some (CStr "0.063")))%float
     = true.
Proof. repeat split; vm_compute; reflexivity. Qed.

Lemma self_comparison_witness :
  eventCompare populationStandardDeviation one_success one_success
  = [self_diff_row "success"
       (nth 0 (createEventSummary populationStandardDeviation one_success None) []);
     self_diff_row "fail"
       (nth 1 (createEventSummary populationStandardDeviation one_success None) [])].
Proof.
  exact (proj1 (self_comparison populationStandardDeviation one_success eq_refl)).
Defined.

(** One success and no failure, compared with itself: the fail row of
    the diff has NaN for mean_latency and std_latency, not zero. *)
Lemma self_comparison_is_not_all_zero :
  eventCompare populationStandardDeviation one_success one_success
  = [ [("type"%string, CStr "success");
       ("count"%string, CNum 0%float);
       ("percent"%string, CStr "0.000");
       ("mean_latency"%string, CStr "0.000");
       ("std_latency"%string, CStr "0.000")];
      [("type"%string, CStr "fail");
       ("count"%string, CNum 0%float);
       ("percent"%string, CStr "0.000");
       ("mean_latency"%string, CStr "NaN");
       ("std_latency"%string, CStr "NaN")] ].
Proof. vm_compute. reflexivity. Qed.

(** Two successes, of latency 1 and 2: the mean is 1.5. *)
Lemma mean_latency_of_bucket_witness :
  get_prop "mean_latency"
    (nth 0 (createEventSummary populationStandardDeviation one_and_two None) [])
  = Some (CStr "1.500").
Proof.
  exact (proj1 (proj2 (proj2
           (mean_latency_of_bucket populationStandardDeviation)))
           one_and_two [(0, 1); (1, 3)]%float
           ltac:(repeat constructor)).
Defined.

(** The reports of two mean latencies, 2^-12 and 3 * 2^-12, are the
    texts 0.000 and 0.001, and the difference [eventCompare] shows is
    0.001, where the difference of the two values, 2^-11, is reported as
    0.000: the values themselves are not kept. *)
Lemma difference_of_rounded_cells :
  mean_latency (success_bucket brief_success) = 0.000244140625%float
  /\ mean_latency (success_bucket longer_success) = 0.000732421875%float
  /\ get_prop "mean_latency"
       (nth 0 (createEventSummary populationStandardDeviation brief_success None) [])
     = Some (CStr "0.000")
  /\ get_prop "mean_latency"
       (nth 0 (createEventSummary populationStandardDeviation longer_success None) [])
     = Some (CStr "0.001")
  /\ get_prop "mean_latency"
       (nth 0 (eventCompare populationStandardDeviation brief_success
                 longer_success) [])
     = Some (CStr "0.001")
  /\ report (mean_latency (success_bucket longer_success)
             - mean_latency (success_bucket brief_success))%float precision
     = CStr "0.000".
Proof. repeat split; vm_compute; reflexivity. Qed.

Lemma reported_cells_witness :
  report 16%float precision = CNum 16%float
  /\ report 0.0625%float precision = CStr "0.063".
Proof.
  split.
  - exact (proj1 (reported_cells populationStandardDeviation) 16%float precision
             eq_refl).
  - exact (proj1 (proj1 (proj2 (reported_cells populationStandardDeviation))
                    0.0625%float false 4503599627370496%positive (-56)
                    eq_refl eq_refl)).
Defined.

Lemma rejection_is_classified_witness :
  exists e : Event,
    fst (createEvent (failing_stage (Prim (PString "fail"))) half
           (start_world simulation))
    = Settled 0%float (Fulfilled e)
    /\ response e = Some (Prim (PString "fail"))
    /\ In e (fail_bucket [e]).
Proof.
  destruct (rejection_is_classified (failing_stage (Prim (PString "fail"))) half
              (start_world simulation) 0%float (Prim (PString "fail")) eq_refl)
    as (e & Hcreate & Hresponse & _ & Hbuckets).
  exists e. split; [exact Hcreate|]. split; [exact Hresponse|].
  apply (Hbuckets [e]); [now left|now left].
Defined.

(** A stage that rejects with the array [["fail"]]: the response stored
    is the array, not the text "fail", and the event is counted as a
    failure. *)
Lemma array_of_fail_is_a_failure :
  fst (createEvent (failing_stage (Object (PString "fail"))) half
         (start_world simulation))
  = Settled 0%float (Fulfilled (completed 0 0 (Object (PString "fail"))))
  /\ response (completed 0 0 (Object (PString "fail")))
     <> Some (Prim (PString "fail"))
  /\ fail_bucket [completed 0 0 (Object (PString "fail"))]
     = [completed 0 0 (Object (PString "fail"))]
  /\ success_bucket [completed 0 0 (Object (PString "fail"))] = [].
Proof. repeat split; try discriminate; vm_compute; reflexivity. Qed.

(** A completed event and one that has not completed: the mean latency
    of the success row, in which both are counted, is NaN. *)
Lemma unfinished_event_spoils_the_mean_witness :
  get_prop "mean_latency"
    (nth 0 (createEventSummary populationStandardDeviation
              (one_success ++ [submitted_only 0%float]) None) [])
  = Some (CStr "NaN").
Proof.
  exact (proj2 (unfinished_event_spoils_the_mean populationStandardDeviation
                  (one_success ++ [submitted_only 0%float])
                  (submitted_only 0%float)
                  (or_intror (or_introl eq_refl)) (or_introl eq_refl))).
Defined.

Lemma counts_do_not_depend_on_the_order_witness :
  get_prop "count"
    (nth 1 (createEventSummary populationStandardDeviation
              [completed 0 1 (Prim (PString "fail"));
               completed 0 2 (Prim (PString "success"))] None) [])
  = get_prop "count"
      (nth 1 (createEventSummary populationStandardDeviation
                [completed 0 2 (Prim (PString "success"));
                 completed 0 1 (Prim (PString "fail"))] None) []).
Proof.
  exact (proj1 (counts_do_not_depend_on_the_order populationStandardDeviation
                  _ _ (perm_swap _ _ []) 1%nat)).
Defined.

(** A run without failures compared with a run with one: the fail row
    of the diff has no mean_latency. *)
Lemma empty_bucket_has_no_latency_difference_witness :
  get_prop "mean_latency"
    (nth 1 (eventCompare populationStandardDeviation one_success
              fifteen_of_sixteen) [])
  = Some (CStr "NaN").
Proof.
  exact (proj2 (empty_bucket_has_no_latency_difference
                  populationStandardDeviation one_success fifteen_of_sixteen)
           (or_introl eq_refl)).
Defined.

(** Sixteen events, one of them failed, compared with one event: one
    success against fifteen, no failure against one. *)
Lemma count_difference_is_exact_witness :
  get_prop "count"
    (nth 0 (eventCompare populationStandardDeviation fifteen_of_sixteen
              one_success) [])
  = Some (CNum (-14)%float)
  /\ get_prop "count"
       (nth 1 (eventCompare populationStandardDeviation fifteen_of_sixteen
                 one_success) [])
     = Some (CNum (-1)%float).
Proof.
  exact (count_difference_is_exact populationStandardDeviation
           fifteen_of_sixteen one_success eq_refl eq_refl).
Defined.

(** One event that took 150 ticks. *)
Lemma uniform_latency_is_the_mean_witness :
  get_prop "mean_latency"
    (nth 0 (createEventSummary populationStandardDeviation one_success None) [])
  = Some (CNum 150%float).
Proof.
  apply (proj1 (uniform_latency_is_the_mean populationStandardDeviation
                  one_success 150 eq_refl eq_refl)).
  - discriminate.
  - constructor; [|constructor]. exists 0%nat. repeat split.
Defined.

(** Fifteen successes and one failure: 15/16 + 1/16. *)
Lemma unrounded_percents_add_up_witness :
  (percent fifteen_of_sixteen (success_bucket fifteen_of_sixteen)
   + percent fifteen_of_sixteen (fail_bucket fifteen_of_sixteen))%float
  = 1%float.
Proof.
  apply unrounded_percents_add_up; [discriminate|reflexivity].
Defined.

(** Fifteen successes and one failure. *)
Lemma percent_cells_of_a_mixed_collection_witness :
  exists ks kf : Z,
    get_prop "percent"
      (nth 0 (createEventSummary populationStandardDeviation
                fifteen_of_sixteen None) [])
    = Some (CStr (fixed_text ks 3))
    /\ get_prop "percent"
         (nth 1 (createEventSummary populationStandardDeviation
                   fifteen_of_sixteen None) [])
       = Some (CStr (fixed_text kf 3))
    /\ 0 <= ks <= 1000 /\ 0 <= kf <= 1000
    /\ 999 <= ks + kf <= 1001.
Proof.
  apply (percent_cells_of_a_mixed_collection populationStandardDeviation
           fifteen_of_sixteen);
    [reflexivity|vm_compute; discriminate|vm_compute; discriminate].
Defined.
